(** * OnSong service: relay (service) and agent (proxy-template)

    A shallow embedding of the relay's connection registry and request
    correlator ([Module Relay], from the relay's server script) and of the
    agent's device registry, connection watchdog and auto-request state
    machine ([Module Agent], from [proxy-template/server.js]), with the
    properties the design document states about them.

    Conventions.  JavaScript [Map]s and objects used as tables are [gmap]s
    (insertion order is kept, as an association list, only for the device
    registry, whose iteration order the code depends on).  A handler runs
    to completion on the event loop, so each handler is a function from
    state to state and an [await] splits a handler in two events.  Timers
    are entries of a table of armed timers: [setTimeout]/[setInterval]
    add an entry, [clearTimeout]/[clearInterval] delete it, and a timer
    can only fire while it is in the table.  [Date.now()] is an argument
    of the event that reads it. *)

From stdpp Require Import gmap strings list fin_maps pretty.
From Stdlib Require Import ZArith Lia.

Open Scope Z_scope.

(** ** JavaScript helpers *)

Module JS.

(** Truthiness of an optional string: [undefined] and [''] are falsy. *)
Definition truthy (v : option string) : bool :=
  match v with
  | Some s => negb (String.eqb s "")
  | None => false
  end.

(** [a || b] on optional strings. *)
Definition or_else (a b : option string) : option string :=
  if truthy a then a else b.

(** [v === s] for an optional string [v] and a string [s]. *)
Definition strict_eq (v : option string) (s : string) : bool :=
  bool_decide (v = Some s).

(** An optional string inside a template literal. *)
Definition template (v : option string) : string :=
  default "undefined" v.

(** [hay.includes(needle)] on strings. *)
Fixpoint includes (needle hay : string) : bool :=
  String.prefix needle hay ||
  match hay with
  | EmptyString => false
  | String _ rest => includes needle rest
  end.

(** [hay.startsWith(p)] and [hay.endsWith(suffix)]. *)
Definition startsWith (p hay : string) : bool := String.prefix p hay.

Definition endsWith (suffix hay : string) : bool :=
  let n := String.length hay in
  let k := String.length suffix in
  (k <=? n)%nat && String.eqb (String.substring (n - k) k hay) suffix.

End JS.

(** ** The relay: definitions *)

Module Relay.

(** A registered proxy connection, the object stored in [connections].
    Its [requestHandlers] object is mutable and shared with the closures
    of [sendToProxy], so the Session holds a reference into [tables]. *)
Record Session := {
  churchToolsUrl : string;
  secret : string;
  uuid : string;
  location : string;
  public : bool;
  ws : nat;
  requestHandlers : nat;
  registeredAt : Z;
  proxyVersion : string
}.

#[global] Instance Session_eq_dec : EqDecision Session.
Proof. solve_decision. Defined.

(** A message parsed from a socket frame.  [m_requestId] is the property
    key the message's [requestId] denotes; the fields of a register
    message have the types the agent gives them. *)
Record Message := {
  m_type : string;
  m_requestId : string;
  m_churchToolsUrl : option string;
  m_secret : option string;
  m_uuid : option string;
  m_location : option string;
  m_public : option bool;
  m_proxyVersion : option string;
  m_success : bool;
  m_statusCode : option Z;
  m_headers : list (string * string);
  m_payload : string;
  m_error : string
}.

#[global] Instance Message_eq_dec : EqDecision Message.
Proof. solve_decision. Defined.

(** What a promise of [sendToProxy] is settled with. *)
Inductive Outcome :=
| Resolved (response : Message)
| Rejected (message : string).

#[global] Instance Outcome_eq_dec : EqDecision Outcome.
Proof. solve_decision. Defined.

(** The JSON bodies the endpoints answer with. *)
Inductive Body :=
| BError (error : string)
| BErrorMessage (error message : string)
| BRegistered (registered : bool)
| BDevices (devices : string)
| BData (data : string).

Record HttpReply := {
  status : Z;
  headers : list (string * string);
  body : Body
}.

Definition reply (st : Z) (b : Body) : HttpReply :=
  {| status := st; headers := []; body := b |}.

(** Result of [findAndAuthenticateConnection]: [{ error, status }] or
    [{ conn }]. *)
Inductive AuthResult :=
| AuthError (error : string) (status : Z)
| AuthConn (conn : Session).

(** An inbound HTTP request; header names are lower-cased by Node. *)
Record Request := {
  req_id : nat;
  req_method : string;
  req_url : string;
  req_headers : gmap string string;
  req_body : string
}.

(** The payload of an [api-request] frame. *)
Record ApiData := {
  targetIp : string;
  targetPort : option Z;
  method : string;
  path : string;
  fwd_headers : gmap string string;
  api_body : string
}.

(** Frames written with [ws.send]. *)
Inductive Frame :=
| FError (message : string)
| FRegistered (message : string)
| FDiscover (requestId : string)
| FApiRequest (data : ApiData) (requestId : string).

(** The closure [sendToProxy] stores in [requestHandlers]: the call it
    belongs to (whose timer and promise it captures), the table of the
    captured [conn] and the captured request id. *)
Record Handler := {
  h_call : nat;
  h_table : nat;
  h_requestId : string
}.

(** The closure of the [setTimeout] callback of [sendToProxy]: the table
    of the captured [conn], the request id, and the delay. *)
Record Timeout := {
  t_table : nat;
  t_requestId : string;
  t_delay : Z
}.

Inductive Endpoint := Discover | Api.

Record State := {
  (** [connections]: key string to Session *)
  connections : gmap string Session;
  (** the [requestHandlers] objects, by reference *)
  tables : gmap nat (gmap string Handler);
  next_table : nat;
  requestIdCounter : nat;
  (** armed timeout timers, keyed by the call that armed them *)
  timers : gmap nat Timeout;
  (** [registeredKey] of each socket's handlers; absent is [null] *)
  registeredKey : gmap nat string;
  (** the HTTP request and endpoint awaiting the promise of call n *)
  callers : gmap nat (nat * Endpoint);
  (** every call of a promise's [resolve] or [reject], oldest first *)
  settled : list (nat * Outcome);
  (** HTTP replies, by request, oldest first *)
  replies : list (nat * HttpReply);
  (** frames sent, by socket, oldest first *)
  outbox : list (nat * Frame);
  (** sockets on which the relay called [ws.close()] *)
  closing : list nat
}.

Definition init : State :=
  {| connections := ∅; tables := ∅; next_table := 0%nat;
     requestIdCounter := 0%nat; timers := ∅; registeredKey := ∅;
     callers := ∅; settled := []; replies := []; outbox := [];
     closing := [] |}.

(** Field updates. *)
Definition set_connections (f : gmap string Session → gmap string Session)
    (σ : State) : State :=
  {| connections := f (connections σ); tables := tables σ;
     next_table := next_table σ; requestIdCounter := requestIdCounter σ;
     timers := timers σ; registeredKey := registeredKey σ;
     callers := callers σ; settled := settled σ; replies := replies σ;
     outbox := outbox σ; closing := closing σ |}.

Definition set_tables
    (f : gmap nat (gmap string Handler) → gmap nat (gmap string Handler))
    (σ : State) : State :=
  {| connections := connections σ; tables := f (tables σ);
     next_table := next_table σ; requestIdCounter := requestIdCounter σ;
     timers := timers σ; registeredKey := registeredKey σ;
     callers := callers σ; settled := settled σ; replies := replies σ;
     outbox := outbox σ; closing := closing σ |}.

Definition set_next_table (n : nat) (σ : State) : State :=
  {| connections := connections σ; tables := tables σ;
     next_table := n; requestIdCounter := requestIdCounter σ;
     timers := timers σ; registeredKey := registeredKey σ;
     callers := callers σ; settled := settled σ; replies := replies σ;
     outbox := outbox σ; closing := closing σ |}.

Definition set_requestIdCounter (n : nat) (σ : State) : State :=
  {| connections := connections σ; tables := tables σ;
     next_table := next_table σ; requestIdCounter := n;
     timers := timers σ; registeredKey := registeredKey σ;
     callers := callers σ; settled := settled σ; replies := replies σ;
     outbox := outbox σ; closing := closing σ |}.

Definition set_timers (f : gmap nat Timeout → gmap nat Timeout)
    (σ : State) : State :=
  {| connections := connections σ; tables := tables σ;
     next_table := next_table σ; requestIdCounter := requestIdCounter σ;
     timers := f (timers σ); registeredKey := registeredKey σ;
     callers := callers σ; settled := settled σ; replies := replies σ;
     outbox := outbox σ; closing := closing σ |}.

Definition set_registeredKey (f : gmap nat string → gmap nat string)
    (σ : State) : State :=
  {| connections := connections σ; tables := tables σ;
     next_table := next_table σ; requestIdCounter := requestIdCounter σ;
     timers := timers σ; registeredKey := f (registeredKey σ);
     callers := callers σ; settled := settled σ; replies := replies σ;
     outbox := outbox σ; closing := closing σ |}.

Definition set_callers
    (f : gmap nat (nat * Endpoint) → gmap nat (nat * Endpoint))
    (σ : State) : State :=
  {| connections := connections σ; tables := tables σ;
     next_table := next_table σ; requestIdCounter := requestIdCounter σ;
     timers := timers σ; registeredKey := registeredKey σ;
     callers := f (callers σ); settled := settled σ; replies := replies σ;
     outbox := outbox σ; closing := closing σ |}.

Definition add_settled (n : nat) (o : Outcome) (σ : State) : State :=
  {| connections := connections σ; tables := tables σ;
     next_table := next_table σ; requestIdCounter := requestIdCounter σ;
     timers := timers σ; registeredKey := registeredKey σ;
     callers := callers σ; settled := settled σ ++ [(n, o)];
     replies := replies σ; outbox := outbox σ; closing := closing σ |}.

(** [res.status(..).json(..)] for HTTP request [rq]. *)
Definition respond (rq : nat) (r : HttpReply) (σ : State) : State :=
  {| connections := connections σ; tables := tables σ;
     next_table := next_table σ; requestIdCounter := requestIdCounter σ;
     timers := timers σ; registeredKey := registeredKey σ;
     callers := callers σ; settled := settled σ;
     replies := replies σ ++ [(rq, r)]; outbox := outbox σ;
     closing := closing σ |}.

(** [ws.send(JSON.stringify(frame))] on socket [sock]. *)
Definition send (sock : nat) (f : Frame) (σ : State) : State :=
  {| connections := connections σ; tables := tables σ;
     next_table := next_table σ; requestIdCounter := requestIdCounter σ;
     timers := timers σ; registeredKey := registeredKey σ;
     callers := callers σ; settled := settled σ; replies := replies σ;
     outbox := outbox σ ++ [(sock, f)]; closing := closing σ |}.

(** [ws.close()] on socket [sock]; its close event comes later. *)
Definition close (sock : nat) (σ : State) : State :=
  {| connections := connections σ; tables := tables σ;
     next_table := next_table σ; requestIdCounter := requestIdCounter σ;
     timers := timers σ; registeredKey := registeredKey σ;
     callers := callers σ; settled := settled σ; replies := replies σ;
     outbox := outbox σ; closing := closing σ ++ [sock] |}.

(** The key of the registry: [`${churchToolsUrl}:${uuid}`]. *)
Definition connectionKey (churchToolsUrl uuid : string) : string :=
  churchToolsUrl +:+ ":" +:+ uuid.

(** The properties of the [requestHandlers] object at [table]. *)
Definition handlers_of (σ : State) (table : nat) : gmap string Handler :=
  default ∅ (tables σ !! table).

(** [findAndAuthenticateConnection(churchToolsUrl, secret, uuid)]. *)
Definition findAndAuthenticateConnection
    (σ : State) (churchToolsUrl : string) (secret' uuid' : option string)
    : AuthResult :=
  if negb (JS.truthy uuid') then AuthError "Missing UUID" 401 else
  match connections σ !! connectionKey churchToolsUrl (JS.template uuid') with
  | None => AuthError "No proxy connected" 403
  | Some conn =>
    if negb (public conn) && negb (JS.strict_eq secret' (secret conn))
    then AuthError "Invalid secret" 403
    else AuthConn conn
  end.

(** How the handler awaiting a promise answers its HTTP request: the
    code after [await sendToProxy(..)] in [/discover] and [/api/*]. *)
Definition http_reply (e : Endpoint) (o : Outcome) : HttpReply :=
  match e, o with
  | Discover, Resolved response =>
    if m_success response
    then reply 200 (BDevices (m_payload response))
    else reply 500 (BErrorMessage "Discovery failed" (m_error response))
  | Discover, Rejected msg => reply 504 (BErrorMessage "Gateway timeout" msg)
  | Api, Resolved response =>
    if m_success response
    then {| status := match m_statusCode response with
                      | Some c => if c =? 0 then 200 else c
                      | None => 200
                      end;
            headers := m_headers response;
            body := BData (m_payload response) |}
    else reply 502 (BErrorMessage "Bad Gateway" (m_error response))
  | Api, Rejected msg => reply 504 (BErrorMessage "Gateway timeout" msg)
  end.

(** A call of [resolve] or [reject] of the promise of call [n].  The
    first one settles the promise and resumes the awaiting handler. *)
Definition settle (n : nat) (o : Outcome) (σ : State) : State :=
  let σ' := add_settled n o σ in
  match callers σ !! n with
  | Some (rq, e) =>
    if bool_decide (n ∈ (settled σ).*1) then σ'
    else respond rq (http_reply e o) σ'
  | None => σ'
  end.

(** [delete conn.requestHandlers[requestId]]. *)
Definition delete_handler (table : nat) (requestId : string) (σ : State)
    : State :=
  set_tables (λ t, match t !! table with
                   | Some hs => <[table := delete requestId hs]> t
                   | None => t
                   end) σ.

Definition clearTimeout (t : nat) (σ : State) : State :=
  set_timers (delete t) σ.

(** [sendToProxy(conn, type, data, timeout)], called for HTTP request
    [rq] by endpoint [e]; [frame] builds the frame from the request id. *)
Definition sendToProxy (conn : Session) (frame : string → Frame)
    (timeout : Z) (rq : nat) (e : Endpoint) (σ : State) : State :=
  let n := S (requestIdCounter σ) in
  let requestId := "req-" +:+ pretty n in
  let σ1 := set_requestIdCounter n σ in
  let σ2 := set_callers <[n := (rq, e)]> σ1 in
  let σ3 := set_timers <[n := {| t_table := requestHandlers conn;
                                 t_requestId := requestId;
                                 t_delay := timeout |}]> σ2 in
  let σ4 := set_tables
              <[requestHandlers conn :=
                  <[requestId := {| h_call := n;
                                    h_table := requestHandlers conn;
                                    h_requestId := requestId |}]>
                    (handlers_of σ3 (requestHandlers conn))]> σ3 in
  send (ws conn) (frame requestId) σ4.

(** The handler closure applied to a response. *)
Definition invoke (h : Handler) (response : Message) (σ : State) : State :=
  settle (h_call h) (Resolved response)
    (delete_handler (h_table h) (h_requestId h) (clearTimeout (h_call h) σ)).

(** The timeout callback of call [n], when its timer fires. *)
Definition on_timeout (n : nat) (σ : State) : State :=
  match timers σ !! n with
  | Some t =>
    settle n (Rejected "Request timeout")
      (delete_handler (t_table t) (t_requestId t) (set_timers (delete n) σ))
  | None => σ
  end.

(** The register branch of the socket's message handler. *)
Definition on_register (sock : nat) (message : Message) (now : Z)
    (σ : State) : State :=
  if negb (JS.truthy (m_churchToolsUrl message))
     || negb (JS.truthy (m_secret message))
     || negb (JS.truthy (m_uuid message))
  then close sock
         (send sock (FError "Missing churchToolsUrl, secret, or uuid") σ)
  else
    let key := connectionKey (JS.template (m_churchToolsUrl message))
                             (JS.template (m_uuid message)) in
    let conn := {| churchToolsUrl := JS.template (m_churchToolsUrl message);
                   secret := JS.template (m_secret message);
                   uuid := JS.template (m_uuid message);
                   location := default "" (JS.or_else (m_location message)
                                                      (Some ""));
                   public := default false (m_public message);
                   ws := sock;
                   requestHandlers := next_table σ;
                   registeredAt := now;
                   proxyVersion :=
                     default "unknown" (JS.or_else (m_proxyVersion message)
                                                   (Some "unknown")) |} in
    let σ1 := set_registeredKey <[sock := key]> σ in
    let σ2 := set_tables <[next_table σ := ∅]> σ1 in
    let σ3 := set_next_table (S (next_table σ)) σ2 in
    let σ4 := set_connections <[key := conn]> σ3 in
    send sock (FRegistered "Successfully registered") σ4.

(** The response branch of the socket's message handler. *)
Definition on_response (sock : nat) (message : Message) (σ : State) : State :=
  match registeredKey σ !! sock with
  | Some key =>
    match connections σ !! key with
    | Some conn =>
      match handlers_of σ (requestHandlers conn) !! m_requestId message with
      | Some h => invoke h message σ
      | None => σ
      end
    | None => σ
    end
  | None => σ
  end.

(** [ws.on('message')]: [data] is [None] when [JSON.parse] throws, which
    the handler catches and logs. *)
Definition on_message (sock : nat) (data : option Message) (now : Z)
    (σ : State) : State :=
  match data with
  | None => σ
  | Some message =>
    if String.eqb (m_type message) "register"
    then on_register sock message now σ
    else if String.eqb (m_type message) "discover-response"
            || String.eqb (m_type message) "api-response"
    then on_response sock message σ
    else σ
  end.

(** [ws.on('close')]. *)
Definition on_close (sock : nat) (σ : State) : State :=
  match registeredKey σ !! sock with
  | Some key => set_connections (delete key) σ
  | None => σ
  end.

Section Endpoints.

(** [new URL(referrer).hostname]; [None] when the constructor throws. *)
Variable url_hostname : string → option string.
(** [parseInt(s, 10)]; [None] for [NaN]. *)
Variable parseInt : string → option Z.

(** [getChurchToolsUrl(referrer)]. *)
Definition getChurchToolsUrl (referrer : option string) : option string :=
  match referrer with
  | Some r => if JS.truthy referrer then url_hostname r else None
  | None => None
  end.

(** [app.get('/proxycheck')]. *)
Definition proxycheck (rq : Request) (σ : State) : HttpReply :=
  let referrer := JS.or_else (req_headers rq !! "referer")
                             (req_headers rq !! "referrer") in
  let secret' := req_headers rq !! "x-auth" in
  let uuid' := req_headers rq !! "x-id" in
  if negb (JS.truthy uuid') then reply 401 (BError "Missing X-ID header") else
  if negb (JS.truthy secret')
  then reply 401 (BError "Missing X-AUTH header") else
  let churchToolsUrl' := getChurchToolsUrl referrer in
  if negb (JS.truthy churchToolsUrl')
  then reply 400 (BError "Invalid or missing referrer") else
  match connections σ !! connectionKey (JS.template churchToolsUrl')
                                       (JS.template uuid') with
  | Some conn =>
    if negb (JS.strict_eq secret' (secret conn))
    then reply 200 (BRegistered false)
    else reply 200 (BRegistered true)
  | None => reply 200 (BRegistered false)
  end.

(** [app.get('/discover')], up to its [await]. *)
Definition discover (rq : Request) (σ : State) : State :=
  let referrer := JS.or_else (req_headers rq !! "referer")
                             (req_headers rq !! "referrer") in
  let secret' := req_headers rq !! "x-auth" in
  let uuid' := req_headers rq !! "x-id" in
  if negb (JS.truthy uuid')
  then respond (req_id rq) (reply 401 (BError "Missing X-ID header")) σ else
  let churchToolsUrl' := getChurchToolsUrl referrer in
  if negb (JS.truthy churchToolsUrl')
  then respond (req_id rq)
         (reply 400 (BError "Invalid or missing referrer")) σ else
  match findAndAuthenticateConnection σ (JS.template churchToolsUrl')
                                      secret' uuid' with
  | AuthError e st => respond (req_id rq) (reply st (BErrorMessage e e)) σ
  | AuthConn conn => sendToProxy conn FDiscover 30000 (req_id rq) Discover σ
  end.

(** [app.all('/api/*')], up to its [await]. *)
Definition api (rq : Request) (σ : State) : State :=
  let referrer := JS.or_else (req_headers rq !! "referer")
                             (req_headers rq !! "referrer") in
  let secret' := req_headers rq !! "x-auth" in
  let uuid' := req_headers rq !! "x-id" in
  let targetIp' := req_headers rq !! "onsongip" in
  if negb (JS.truthy uuid')
  then respond (req_id rq) (reply 401 (BError "Missing X-ID header")) σ else
  if negb (JS.truthy targetIp')
  then respond (req_id rq)
         (reply 400 (BError "Missing ONSONGIP header")) σ else
  let churchToolsUrl' := getChurchToolsUrl referrer in
  if negb (JS.truthy churchToolsUrl')
  then respond (req_id rq)
         (reply 400 (BError "Invalid or missing referrer")) σ else
  match findAndAuthenticateConnection σ (JS.template churchToolsUrl')
                                      secret' uuid' with
  | AuthError e st => respond (req_id rq) (reply st (BErrorMessage e e)) σ
  | AuthConn conn =>
    let forwardHeaders :=
      delete "referrer" (delete "referer" (delete "host"
        (delete "onsongip" (delete "x-auth" (req_headers rq))))) in
    let targetPort' :=
      match req_headers rq !! "onsongport" with
      | Some p => if JS.truthy (Some p) then parseInt p else Some 80
      | None => Some 80
      end in
    sendToProxy conn
      (FApiRequest {| targetIp := JS.template targetIp';
                      targetPort := targetPort';
                      method := req_method rq;
                      path := req_url rq;
                      fwd_headers := forwardHeaders;
                      api_body := req_body rq |})
      30000 (req_id rq) Api σ
  end.

(** The events of the relay's event loop. *)
Inductive Event :=
| HttpProxycheck (rq : Request)
| HttpDiscover (rq : Request)
| HttpApi (rq : Request)
| WsMessage (sock : nat) (data : option Message) (now : Z)
| WsClose (sock : nat)
| TimerFires (n : nat).

Definition step (σ : State) (ev : Event) : State :=
  match ev with
  | HttpProxycheck rq => respond (req_id rq) (proxycheck rq σ) σ
  | HttpDiscover rq => discover rq σ
  | HttpApi rq => api rq σ
  | WsMessage sock data now => on_message sock data now σ
  | WsClose sock => on_close sock σ
  | TimerFires n => on_timeout n σ
  end.

Definition run (σ : State) (evs : list Event) : State :=
  fold_left step evs σ.

End Endpoints.

End Relay.

(** ** The relay: sample instances of the two library functions *)

Module Sample.

(** The host of an [https://host/path] referrer: what the URL constructor
    gives for such a string. *)
Fixpoint until_slash (s : string) : string :=
  match s with
  | EmptyString => EmptyString
  | String c rest =>
    if Ascii.eqb c (Ascii.ascii_of_nat 47) then EmptyString else String c (until_slash rest)
  end.

Definition https_hostname (referrer : string) : option string :=
  if String.prefix "https://" referrer
  then Some (until_slash (String.substring 8 (String.length referrer - 8)
                                           referrer))
  else None.

(** Leading decimal digits of a string, as [parseInt(s, 10)] reads them. *)
Fixpoint digits (s : string) (acc : option Z) : option Z :=
  match s with
  | EmptyString => acc
  | String c rest =>
    let d := Z.of_nat (Ascii.nat_of_ascii c) - 48 in
    if (0 <=? d) && (d <=? 9)
    then digits rest (Some (10 * default 0 acc + d))
    else acc
  end.

Definition parseInt (s : string) : option Z := digits s None.

(** A register message as the agent sends it on open. *)
Definition register (url sec id : string) (pub : bool) : Relay.Message :=
  {| Relay.m_type := "register"; Relay.m_requestId := "undefined";
     Relay.m_churchToolsUrl := Some url; Relay.m_secret := Some sec;
     Relay.m_uuid := Some id; Relay.m_location := Some "";
     Relay.m_public := Some pub; Relay.m_proxyVersion := Some "2.0.0";
     Relay.m_success := false; Relay.m_statusCode := None;
     Relay.m_headers := []; Relay.m_payload := ""; Relay.m_error := "" |}.

(** A response frame of the agent. *)
Definition response (type requestId : string) (success : bool)
    (statusCode : option Z) (payload error : string) : Relay.Message :=
  {| Relay.m_type := type; Relay.m_requestId := requestId;
     Relay.m_churchToolsUrl := None; Relay.m_secret := None;
     Relay.m_uuid := None; Relay.m_location := None;
     Relay.m_public := None; Relay.m_proxyVersion := None;
     Relay.m_success := success; Relay.m_statusCode := statusCode;
     Relay.m_headers := []; Relay.m_payload := payload;
     Relay.m_error := error |}.

(** A tenant request with the three identity headers. *)
Definition tenant_request (id : nat) (url : string)
    (referer : string) (xauth : option string) (xid : string)
    : Relay.Request :=
  {| Relay.req_id := id; Relay.req_method := "GET"; Relay.req_url := url;
     Relay.req_headers :=
       match xauth with
       | Some a => <["x-auth" := a]> (<["x-id" := xid]>
                                       {["referer" := referer]})
       | None => <["x-id" := xid]> {["referer" := referer]}
       end;
     Relay.req_body := "" |}.

Definition run : list Relay.Event → Relay.State :=
  Relay.run https_hostname parseInt Relay.init.

End Sample.

(** ** The relay: predicates and traces used in the statements *)

Module RelaySpec.

Import Relay.

(** A valid registration: the three required fields are truthy. *)
Definition valid_registration (m : Message) : bool :=
  JS.truthy (m_churchToolsUrl m) && JS.truthy (m_secret m)
  && JS.truthy (m_uuid m).

Definition key_of (m : Message) : string :=
  connectionKey (JS.template (m_churchToolsUrl m)) (JS.template (m_uuid m)).

(** Every Session in the registry carries a non-empty secret: the
    register branch refuses a falsy [secret]. *)
Definition secrets_nonempty (σ : State) : Prop :=
  ∀ k s, connections σ !! k = Some s → secret s ≠ "".

(** The referrer an endpoint reads from the request. *)
Definition referrer_of (rq : Request) : option string :=
  JS.or_else (req_headers rq !! "referer") (req_headers rq !! "referrer").

(** The trace of the counterexample to C4 as stated: a proxy registers,
    a tenant calls [/discover], the proxy answers the request with
    [success: false]. *)
Definition failed_discovery : list Event :=
  [WsMessage 1 (Some (Sample.register "a.church.tools" "s1" "u1" false)) 0;
   HttpDiscover (Sample.tenant_request 7 "/discover"
                   "https://a.church.tools/" (Some "s1") "u1");
   WsMessage 1 (Some (Sample.response "discover-response" "req-1" false
                                      None "" "scan failed")) 5].

(** The message is one of the two response kinds the socket's message
    handler routes to a pending entry. *)
Definition is_response (m : Message) : bool :=
  String.eqb (m_type m) "discover-response"
  || String.eqb (m_type m) "api-response".

(** The request id of the n-th call of [sendToProxy]. *)
Definition req_id_of (n : nat) : string := "req-" +:+ pretty n.

(** What the handler closure and the timeout callback of call [n] have in
    common: the timer goes, the entry at [(table, requestId)] goes, the
    promise is settled. *)
Definition finish (n table : nat) (requestId : string) (o : Outcome)
    (σ : State) : State :=
  settle n o (delete_handler table requestId (set_timers (delete n) σ)).

(** The correlator's invariant.  A pending entry and an armed timer come
    in pairs, both belong to a call that has not been settled; a call
    without a timer has been settled; no call is settled twice. *)
Record Inv (σ : State) : Prop := {
  inv_timer : ∀ n t, timers σ !! n = Some t →
    (1 ≤ n ≤ requestIdCounter σ)%nat
    ∧ t_requestId t = req_id_of n
    ∧ handlers_of σ (t_table t) !! t_requestId t
      = Some {| h_call := n; h_table := t_table t;
                h_requestId := t_requestId t |}
    ∧ n ∉ (settled σ).*1;
  inv_handler : ∀ tb rid h, handlers_of σ tb !! rid = Some h →
    h_table h = tb ∧ h_requestId h = rid
    ∧ ∃ t, timers σ !! h_call h = Some t
           ∧ t_table t = tb ∧ t_requestId t = rid;
  inv_done : ∀ n, (1 ≤ n ≤ requestIdCounter σ)%nat →
    timers σ !! n = None → n ∈ (settled σ).*1;
  inv_settled_nodup : NoDup (settled σ).*1;
  inv_settled_bound : ∀ n, n ∈ (settled σ).*1 →
    (1 ≤ n ≤ requestIdCounter σ)%nat;
  inv_tables : ∀ tb hs, tables σ !! tb = Some hs → (tb < next_table σ)%nat;
  inv_sessions : ∀ k s, connections σ !! k = Some s →
    (requestHandlers s < next_table σ)%nat
}.

(** The trace of the counterexample to C1 as stated: a proxy registers,
    a tenant calls [/discover], the proxy reconnects and registers again
    on a new socket, and answers the request there. *)
Definition answered_after_reregistration : list Event :=
  [WsMessage 1 (Some (Sample.register "a.church.tools" "s1" "u1" false)) 0;
   HttpDiscover (Sample.tenant_request 7 "/discover"
                   "https://a.church.tools/" (Some "s1") "u1");
   WsMessage 2 (Some (Sample.register "a.church.tools" "s1" "u1" false)) 3;
   WsMessage 2 (Some (Sample.response "discover-response" "req-1" true
                                      None "[]" "")) 5].

(** The trace at which the registry loses a live Session: a proxy
    registers on socket 1, registers again on socket 2 after a
    reconnect, and then socket 1 closes. *)
Definition stale_close : list Event :=
  [WsMessage 1 (Some (Sample.register "a.church.tools" "s1" "u1" false)) 0;
   WsMessage 2 (Some (Sample.register "a.church.tools" "s1" "u1" false)) 3;
   WsClose 1].

End RelaySpec.

(** ** The relay: the remaining middleware and endpoints *)

Module RelayMore.

Import Relay RelaySpec.

(** The test of the CORS middleware on a request's [Origin]. *)
Definition origin_allowed (origin : string) : bool :=
  JS.endsWith ".church.tools" origin
  || JS.endsWith ".krz.tools" origin
  || JS.includes "localhost" origin
  || JS.includes "127.0.0.1" origin
  || JS.includes ".test" origin.

(** What the CORS middleware does with a request: it sets response
    headers, and either ends an [OPTIONS] request with status 200 or
    passes the request on. *)
Inductive CorsResult :=
| Preflight (headers : list (string * string))
| Next (headers : list (string * string)).

Definition cors_headers (rq : Request) : list (string * string) :=
  (match req_headers rq !! "origin" with
   | Some origin =>
     if JS.truthy (Some origin) && origin_allowed origin
     then [("Access-Control-Allow-Origin", origin)]
     else []
   | None => []
   end)
  ++ [("Access-Control-Allow-Methods", "GET, POST, PUT, DELETE, OPTIONS");
      ("Access-Control-Allow-Headers",
       "Content-Type, X-AUTH, X-ID, ONSONGIP, ONSONGPORT");
      ("Access-Control-Allow-Credentials", "true")].

Definition cors (rq : Request) : CorsResult :=
  if String.eqb (req_method rq) "OPTIONS"
  then Preflight (cors_headers rq)
  else Next (cors_headers rq).








(** The request ids of the frames sent to proxies, oldest first. *)
Definition sent_id (e : nat * Frame) : option string :=
  match e.2 with
  | FDiscover requestId => Some requestId
  | FApiRequest _ requestId => Some requestId
  | _ => None
  end.

Definition sent_ids (σ : State) : list string := omap sent_id (outbox σ).

(** Nothing of the correlator or the registry changed. *)
Definition untouched (σ σ' : State) : Prop :=
  outbox σ' = outbox σ ∧ timers σ' = timers σ ∧ tables σ' = tables σ
  ∧ requestIdCounter σ' = requestIdCounter σ
  ∧ connections σ' = connections σ ∧ settled σ' = settled σ.

(** The events that are neither a register message nor a close. *)
Definition leaves_registry (ev : Event) : bool :=
  match ev with
  | WsMessage _ (Some m) _ => negb (String.eqb (m_type m) "register")
  | WsClose _ => false
  | _ => true
  end.

(** The data-path request an event carries, with its endpoint. *)
Definition data_path (ev : Event) : option (Request * Endpoint) :=
  match ev with
  | HttpDiscover rq => Some (rq, Discover)
  | HttpApi rq => Some (rq, Api)
  | _ => None
  end.

(** The HTTP request an event answers or parks. *)
Definition http_request (ev : Event) : option nat :=
  match ev with
  | HttpProxycheck rq | HttpDiscover rq | HttpApi rq => Some (req_id rq)
  | _ => None
  end.

(** Every HTTP request of the trace has an id of its own. *)
Definition distinct_requests (evs : list Event) : Prop :=
  NoDup (omap http_request evs).

(** The invariant behind "one reply per request", relative to the HTTP
    requests [seen] so far: only requests seen have been answered, none
    twice; the caller of a pending call has been seen and not answered;
    two pending calls have different callers. *)
Record ReplyInv (seen : list nat) (σ : State) : Prop := {
  ri_seen : ∀ rq, rq ∈ (replies σ).*1 → rq ∈ seen;
  ri_nodup : NoDup (replies σ).*1;
  ri_pending : ∀ n t, timers σ !! n = Some t →
    ∃ rq e, callers σ !! n = Some (rq, e)
            ∧ rq ∈ seen ∧ rq ∉ (replies σ).*1;
  ri_distinct : ∀ n n' t t' rq e e',
    timers σ !! n = Some t → timers σ !! n' = Some t' →
    callers σ !! n = Some (rq, e) → callers σ !! n' = Some (rq, e') →
    n = n'
}.

(** A tenant's [/api/*] request with its secret and a cookie. *)
Definition api_call : Request :=
  {| req_id := 9; req_method := "POST"; req_url := "/api/tok/auth";
     req_headers :=
       <["cookie" := "c=1"]> (<["onsongip" := "10.0.0.5"]>
         (<["x-auth" := "s1"]> (<["x-id" := "u1"]>
            {["referer" := "https://a.church.tools/"]})));
     req_body := "{}" |}.

End RelayMore.

(** ** The agent: definitions *)

Module Agent.

(** A service as the Bonjour browser reports it. *)
Record Service := {
  svc_name : string;
  svc_type : string;
  svc_host : string;
  svc_addresses : option (list string);
  svc_port : Z;
  svc_txt : option (gmap string string)
}.

(** A record of the device registry. *)
Record Device := {
  name : string;
  type : string;
  host : string;
  addresses : list string;
  port : Z;
  txt : gmap string string
}.

#[global] Instance Device_eq_dec : EqDecision Device.
Proof. solve_decision. Defined.

Inductive ReadyState := CONNECTING | OPEN | CLOSING | CLOSED.

#[global] Instance ReadyState_eq_dec : EqDecision ReadyState.
Proof. solve_decision. Defined.

(** The [state] field of an auto-request state: ['auth-retry'] or
    ['ping-keepalive']. *)
Inductive Phase := AuthRetry | PingKeepalive.

#[global] Instance Phase_eq_dec : EqDecision Phase.
Proof. solve_decision. Defined.

Record AutoRequestState := {
  deviceId : string;
  authToken : string;
  deviceIp : string;
  devicePort : Z;
  method : option string;
  body : option string;
  state : Phase;
  intervalTimer : option nat;
  timeoutTimer : option nat;
  startTime : Z
}.

#[global] Instance AutoRequestState_eq_dec : EqDecision AutoRequestState.
Proof. solve_decision. Defined.

(** What the closure of an auth-retry interval captures: the arguments
    of [startAuthRetry] and the two timers of its [state] object. *)
Record RetryClosure := {
  rc_deviceId : string;
  rc_authToken : string;
  rc_deviceIp : string;
  rc_devicePort : Z;
  rc_method : option string;
  rc_body : option string;
  rc_intervalTimer : option nat;
  rc_timeoutTimer : option nat
}.

#[global] Instance RetryClosure_eq_dec : EqDecision RetryClosure.
Proof. solve_decision. Defined.

(** The callbacks given to [setTimeout] and [setInterval]. *)
Inductive Callback :=
| RemoveDevice (deviceId : string)
| WatchdogCheck
| WatchdogReconnect
| CloseReconnect
| AuthRetryTick (c : RetryClosure)
| AuthRetryExpire (deviceId stateKey : string)
| PingTick (deviceId authToken deviceIp : string) (devicePort : Z)
| PingExpire (deviceId stateKey : string).

#[global] Instance Callback_eq_dec : EqDecision Callback.
Proof. solve_decision. Defined.

Record Timer := {
  delay : Z;
  repeating : bool;
  callback : Callback
}.

#[global] Instance Timer_eq_dec : EqDecision Timer.
Proof. solve_decision. Defined.

(** A message parsed from a frame of the relay. *)
Record Message := {
  m_type : string;
  m_requestId : option string;
  m_targetIp : option string;
  m_targetPort : option Z;
  m_method : option string;
  m_path : option string;
  m_body : option string
}.

(** What a call to a device came to: a response (of any status, as
    [validateStatus] accepts all) or a transport error.  It is also the
    result object of [makeDeviceRequest]: [success] is true for a
    response. *)
Inductive DeviceResult :=
| Success (statusCode : Z) (data : string)
| Failure (error : string).

#[global] Instance DeviceResult_eq_dec : EqDecision DeviceResult.
Proof. solve_decision. Defined.

(** What awaits a device call in flight. *)
Inductive Continuation :=
| AfterDeviceRequest (message : Message) (path : string)
| AfterAuthRetry (c : RetryClosure)
| AfterPing (deviceId : string).

Inductive Frame :=
| FRegister
| FDiscoverResponse (requestId : option string) (devices : list Device)
| FApiError (requestId : option string) (error : string)
| FApiResponse (requestId : option string) (result : DeviceResult)
| FPong.

Inductive Effect :=
| Created (sock : nat)
| Sent (sock : nat) (f : Frame)
| Terminated (sock : nat)
| Requested (id : nat) (method : option string) (url : string).

#[global] Instance Frame_eq_dec : EqDecision Frame.
Proof. solve_decision. Defined.

#[global] Instance Effect_eq_dec : EqDecision Effect.
Proof. solve_decision. Defined.

Record State := {
  (** the uplink socket, [None] for [null] *)
  ws : option nat;
  (** [readyState] of every socket created so far *)
  sockets : gmap nat ReadyState;
  next_socket : nat;
  reconnectTimer : option nat;
  isConnected : bool;
  lastPingTime : option Z;
  watchdogTimer : option nat;
  (** a [Map], in insertion order *)
  deviceRegistry : list (string * Device);
  deviceRemovalTimers : gmap string nat;
  autoRequestStates : gmap string AutoRequestState;
  (** the armed timers *)
  timers : gmap nat Timer;
  next_timer : nat;
  (** device calls in flight and what awaits each *)
  pendingHttp : gmap nat Continuation;
  next_http : nat;
  (** what the agent did to the outside, oldest first *)
  effects : list Effect;
  (** an exception escaped an event handler *)
  crashed : bool
}.

(** Field updates. *)
Definition set_ws (v : option nat) (σ : State) : State :=
  {| ws := v; sockets := sockets σ; next_socket := next_socket σ;
     reconnectTimer := reconnectTimer σ; isConnected := isConnected σ;
     lastPingTime := lastPingTime σ; watchdogTimer := watchdogTimer σ;
     deviceRegistry := deviceRegistry σ;
     deviceRemovalTimers := deviceRemovalTimers σ;
     autoRequestStates := autoRequestStates σ; timers := timers σ;
     next_timer := next_timer σ; pendingHttp := pendingHttp σ;
     next_http := next_http σ; effects := effects σ;
     crashed := crashed σ |}.

Definition set_sockets (v : gmap nat ReadyState) (σ : State) : State :=
  {| ws := ws σ; sockets := v; next_socket := next_socket σ;
     reconnectTimer := reconnectTimer σ; isConnected := isConnected σ;
     lastPingTime := lastPingTime σ; watchdogTimer := watchdogTimer σ;
     deviceRegistry := deviceRegistry σ;
     deviceRemovalTimers := deviceRemovalTimers σ;
     autoRequestStates := autoRequestStates σ; timers := timers σ;
     next_timer := next_timer σ; pendingHttp := pendingHttp σ;
     next_http := next_http σ; effects := effects σ;
     crashed := crashed σ |}.

Definition set_next_socket (v : nat) (σ : State) : State :=
  {| ws := ws σ; sockets := sockets σ; next_socket := v;
     reconnectTimer := reconnectTimer σ; isConnected := isConnected σ;
     lastPingTime := lastPingTime σ; watchdogTimer := watchdogTimer σ;
     deviceRegistry := deviceRegistry σ;
     deviceRemovalTimers := deviceRemovalTimers σ;
     autoRequestStates := autoRequestStates σ; timers := timers σ;
     next_timer := next_timer σ; pendingHttp := pendingHttp σ;
     next_http := next_http σ; effects := effects σ;
     crashed := crashed σ |}.

Definition set_reconnectTimer (v : option nat) (σ : State) : State :=
  {| ws := ws σ; sockets := sockets σ; next_socket := next_socket σ;
     reconnectTimer := v; isConnected := isConnected σ;
     lastPingTime := lastPingTime σ; watchdogTimer := watchdogTimer σ;
     deviceRegistry := deviceRegistry σ;
     deviceRemovalTimers := deviceRemovalTimers σ;
     autoRequestStates := autoRequestStates σ; timers := timers σ;
     next_timer := next_timer σ; pendingHttp := pendingHttp σ;
     next_http := next_http σ; effects := effects σ;
     crashed := crashed σ |}.

Definition set_isConnected (v : bool) (σ : State) : State :=
  {| ws := ws σ; sockets := sockets σ; next_socket := next_socket σ;
     reconnectTimer := reconnectTimer σ; isConnected := v;
     lastPingTime := lastPingTime σ; watchdogTimer := watchdogTimer σ;
     deviceRegistry := deviceRegistry σ;
     deviceRemovalTimers := deviceRemovalTimers σ;
     autoRequestStates := autoRequestStates σ; timers := timers σ;
     next_timer := next_timer σ; pendingHttp := pendingHttp σ;
     next_http := next_http σ; effects := effects σ;
     crashed := crashed σ |}.

Definition set_lastPingTime (v : option Z) (σ : State) : State :=
  {| ws := ws σ; sockets := sockets σ; next_socket := next_socket σ;
     reconnectTimer := reconnectTimer σ; isConnected := isConnected σ;
     lastPingTime := v; watchdogTimer := watchdogTimer σ;
     deviceRegistry := deviceRegistry σ;
     deviceRemovalTimers := deviceRemovalTimers σ;
     autoRequestStates := autoRequestStates σ; timers := timers σ;
     next_timer := next_timer σ; pendingHttp := pendingHttp σ;
     next_http := next_http σ; effects := effects σ;
     crashed := crashed σ |}.

Definition set_watchdogTimer (v : option nat) (σ : State) : State :=
  {| ws := ws σ; sockets := sockets σ; next_socket := next_socket σ;
     reconnectTimer := reconnectTimer σ; isConnected := isConnected σ;
     lastPingTime := lastPingTime σ; watchdogTimer := v;
     deviceRegistry := deviceRegistry σ;
     deviceRemovalTimers := deviceRemovalTimers σ;
     autoRequestStates := autoRequestStates σ; timers := timers σ;
     next_timer := next_timer σ; pendingHttp := pendingHttp σ;
     next_http := next_http σ; effects := effects σ;
     crashed := crashed σ |}.

Definition set_deviceRegistry (v : list (string * Device)) (σ : State) : State :=
  {| ws := ws σ; sockets := sockets σ; next_socket := next_socket σ;
     reconnectTimer := reconnectTimer σ; isConnected := isConnected σ;
     lastPingTime := lastPingTime σ; watchdogTimer := watchdogTimer σ;
     deviceRegistry := v; deviceRemovalTimers := deviceRemovalTimers σ;
     autoRequestStates := autoRequestStates σ; timers := timers σ;
     next_timer := next_timer σ; pendingHttp := pendingHttp σ;
     next_http := next_http σ; effects := effects σ;
     crashed := crashed σ |}.

Definition set_deviceRemovalTimers (v : gmap string nat) (σ : State) : State :=
  {| ws := ws σ; sockets := sockets σ; next_socket := next_socket σ;
     reconnectTimer := reconnectTimer σ; isConnected := isConnected σ;
     lastPingTime := lastPingTime σ; watchdogTimer := watchdogTimer σ;
     deviceRegistry := deviceRegistry σ; deviceRemovalTimers := v;
     autoRequestStates := autoRequestStates σ; timers := timers σ;
     next_timer := next_timer σ; pendingHttp := pendingHttp σ;
     next_http := next_http σ; effects := effects σ;
     crashed := crashed σ |}.

Definition set_autoRequestStates (v : gmap string AutoRequestState) (σ : State) : State :=
  {| ws := ws σ; sockets := sockets σ; next_socket := next_socket σ;
     reconnectTimer := reconnectTimer σ; isConnected := isConnected σ;
     lastPingTime := lastPingTime σ; watchdogTimer := watchdogTimer σ;
     deviceRegistry := deviceRegistry σ;
     deviceRemovalTimers := deviceRemovalTimers σ; autoRequestStates := v;
     timers := timers σ; next_timer := next_timer σ;
     pendingHttp := pendingHttp σ; next_http := next_http σ;
     effects := effects σ; crashed := crashed σ |}.

Definition set_timers (v : gmap nat Timer) (σ : State) : State :=
  {| ws := ws σ; sockets := sockets σ; next_socket := next_socket σ;
     reconnectTimer := reconnectTimer σ; isConnected := isConnected σ;
     lastPingTime := lastPingTime σ; watchdogTimer := watchdogTimer σ;
     deviceRegistry := deviceRegistry σ;
     deviceRemovalTimers := deviceRemovalTimers σ;
     autoRequestStates := autoRequestStates σ; timers := v;
     next_timer := next_timer σ; pendingHttp := pendingHttp σ;
     next_http := next_http σ; effects := effects σ;
     crashed := crashed σ |}.

Definition set_next_timer (v : nat) (σ : State) : State :=
  {| ws := ws σ; sockets := sockets σ; next_socket := next_socket σ;
     reconnectTimer := reconnectTimer σ; isConnected := isConnected σ;
     lastPingTime := lastPingTime σ; watchdogTimer := watchdogTimer σ;
     deviceRegistry := deviceRegistry σ;
     deviceRemovalTimers := deviceRemovalTimers σ;
     autoRequestStates := autoRequestStates σ; timers := timers σ;
     next_timer := v; pendingHttp := pendingHttp σ;
     next_http := next_http σ; effects := effects σ;
     crashed := crashed σ |}.

Definition set_pendingHttp (v : gmap nat Continuation) (σ : State) : State :=
  {| ws := ws σ; sockets := sockets σ; next_socket := next_socket σ;
     reconnectTimer := reconnectTimer σ; isConnected := isConnected σ;
     lastPingTime := lastPingTime σ; watchdogTimer := watchdogTimer σ;
     deviceRegistry := deviceRegistry σ;
     deviceRemovalTimers := deviceRemovalTimers σ;
     autoRequestStates := autoRequestStates σ; timers := timers σ;
     next_timer := next_timer σ; pendingHttp := v;
     next_http := next_http σ; effects := effects σ;
     crashed := crashed σ |}.

Definition set_next_http (v : nat) (σ : State) : State :=
  {| ws := ws σ; sockets := sockets σ; next_socket := next_socket σ;
     reconnectTimer := reconnectTimer σ; isConnected := isConnected σ;
     lastPingTime := lastPingTime σ; watchdogTimer := watchdogTimer σ;
     deviceRegistry := deviceRegistry σ;
     deviceRemovalTimers := deviceRemovalTimers σ;
     autoRequestStates := autoRequestStates σ; timers := timers σ;
     next_timer := next_timer σ; pendingHttp := pendingHttp σ;
     next_http := v; effects := effects σ; crashed := crashed σ |}.

Definition set_effects (v : list Effect) (σ : State) : State :=
  {| ws := ws σ; sockets := sockets σ; next_socket := next_socket σ;
     reconnectTimer := reconnectTimer σ; isConnected := isConnected σ;
     lastPingTime := lastPingTime σ; watchdogTimer := watchdogTimer σ;
     deviceRegistry := deviceRegistry σ;
     deviceRemovalTimers := deviceRemovalTimers σ;
     autoRequestStates := autoRequestStates σ; timers := timers σ;
     next_timer := next_timer σ; pendingHttp := pendingHttp σ;
     next_http := next_http σ; effects := v; crashed := crashed σ |}.

Definition set_crashed (v : bool) (σ : State) : State :=
  {| ws := ws σ; sockets := sockets σ; next_socket := next_socket σ;
     reconnectTimer := reconnectTimer σ; isConnected := isConnected σ;
     lastPingTime := lastPingTime σ; watchdogTimer := watchdogTimer σ;
     deviceRegistry := deviceRegistry σ;
     deviceRemovalTimers := deviceRemovalTimers σ;
     autoRequestStates := autoRequestStates σ; timers := timers σ;
     next_timer := next_timer σ; pendingHttp := pendingHttp σ;
     next_http := next_http σ; effects := effects σ; crashed := v |}.

Definition init : State :=
  {| ws := None; sockets := ∅; next_socket := 0%nat; reconnectTimer := None;
     isConnected := false; lastPingTime := None; watchdogTimer := None;
     deviceRegistry := []; deviceRemovalTimers := ∅; autoRequestStates := ∅;
     timers := ∅; next_timer := 0%nat; pendingHttp := ∅; next_http := 0%nat;
     effects := []; crashed := false |}.

Definition PING_TIMEOUT_MS : Z := 70000.
Definition AUTO_REQUEST_INTERVAL_MS : Z := 2000.
Definition AUTO_REQUEST_DURATION_MS : Z := 60000.

(** *** Timers *)

(** [setTimeout(cb, d)] and [setInterval(cb, d)]: the handle returned is
    [next_timer] of the state before. *)
Definition setTimeout (cb : Callback) (d : Z) (σ : State) : State :=
  set_next_timer (S (next_timer σ))
    (set_timers (<[next_timer σ := {| delay := d; repeating := false;
                                      callback := cb |}]> (timers σ)) σ).

Definition setInterval (cb : Callback) (d : Z) (σ : State) : State :=
  set_next_timer (S (next_timer σ))
    (set_timers (<[next_timer σ := {| delay := d; repeating := true;
                                      callback := cb |}]> (timers σ)) σ).

(** [clearTimeout(t)] and [clearInterval(t)]. *)
Definition clearTimer (t : nat) (σ : State) : State :=
  set_timers (delete t (timers σ)) σ.

(** [if (h) clearTimeout(h)] for a handle that may be [null]. *)
Definition clearTimer_opt (h : option nat) (σ : State) : State :=
  match h with
  | Some t => clearTimer t σ
  | None => σ
  end.

Definition log (e : Effect) (σ : State) : State :=
  set_effects (effects σ ++ [e]) σ.

(** *** The device registry, a [Map] in insertion order *)

Fixpoint registry_get (k : string) (l : list (string * Device))
    : option Device :=
  match l with
  | [] => None
  | (k', d) :: rest => if String.eqb k' k then Some d else registry_get k rest
  end.

Definition registry_has (k : string) (l : list (string * Device)) : bool :=
  match registry_get k l with Some _ => true | None => false end.

(** [Map.set]: an existing key keeps its place, a new key goes last. *)
Fixpoint registry_set (k : string) (d : Device) (l : list (string * Device))
    : list (string * Device) :=
  match l with
  | [] => [(k, d)]
  | (k', d') :: rest =>
    if String.eqb k' k then (k, d) :: rest
    else (k', d') :: registry_set k d rest
  end.

Fixpoint registry_delete (k : string) (l : list (string * Device))
    : list (string * Device) :=
  match l with
  | [] => []
  | (k', d') :: rest =>
    if String.eqb k' k then rest else (k', d') :: registry_delete k rest
  end.

(** [getDeviceId(service)]. *)
Definition getDeviceId (service : Service) : string :=
  match svc_txt service with
  | Some txt' =>
    if JS.truthy (txt' !! "deviceid") then JS.template (txt' !! "deviceid")
    else "unknown-device"
  | None => "unknown-device"
  end.

(** The record the up handler builds from a service. *)
Definition device_of (service : Service) : Device :=
  {| name := svc_name service; type := svc_type service;
     host := svc_host service;
     addresses := default [] (svc_addresses service);
     port := svc_port service;
     txt := default ∅ (svc_txt service) |}.

(** [device.addresses.find(addr => !addr.includes(':'))]. *)
Definition ipv4Address (d : Device) : option string :=
  List.find (λ addr, negb (JS.includes ":" addr)) (addresses d).

(** [browser.on('up')]. *)
Definition on_up (service : Service) (σ : State) : State :=
  let txt' := default ∅ (svc_txt service) in
  if negb (JS.strict_eq (txt' !! "role") "server")
     && negb (JS.strict_eq (txt' !! "role") "client")
  then σ else
  if negb (JS.truthy (txt' !! "deviceid")) then σ else
  let deviceId' := getDeviceId service in
  let σ1 :=
    match deviceRemovalTimers σ !! deviceId' with
    | Some t =>
      set_deviceRemovalTimers (delete deviceId' (deviceRemovalTimers σ))
        (clearTimer t σ)
    | None => σ
    end in
  let device := device_of service in
  let isNew := negb (registry_has deviceId' (deviceRegistry σ1)) in
  if isNew || JS.truthy (ipv4Address device)
  then set_deviceRegistry (registry_set deviceId' device (deviceRegistry σ1))
         σ1
  else σ1.

(** [browser.on('down')]. *)
Definition on_down (service : Service) (σ : State) : State :=
  let deviceId' := getDeviceId service in
  if negb (registry_has deviceId' (deviceRegistry σ)) then σ else
  let timerId := next_timer σ in
  set_deviceRemovalTimers
    (<[deviceId' := timerId]> (deviceRemovalTimers σ))
    (setTimeout (RemoveDevice deviceId') (1000 * 600) σ).

(** The callback of the removal timer. *)
Definition removeDevice (deviceId' : string) (σ : State) : State :=
  if registry_has deviceId' (deviceRegistry σ)
  then set_deviceRemovalTimers (delete deviceId' (deviceRemovalTimers σ))
         (set_deviceRegistry (registry_delete deviceId' (deviceRegistry σ)) σ)
  else σ.

(** [getDiscoveredDevices()]. *)
Definition getDiscoveredDevices (σ : State) : list Device :=
  (deviceRegistry σ).*2.

(** *** The uplink and its watchdog *)

(** [stopWatchdog()]. *)
Definition stopWatchdog (σ : State) : State :=
  let σ1 :=
    match watchdogTimer σ with
    | Some t => set_watchdogTimer None (clearTimer t σ)
    | None => σ
    end in
  set_lastPingTime None σ1.

(** [startWatchdog()] at time [now]. *)
Definition startWatchdog (now : Z) (σ : State) : State :=
  let σ1 := clearTimer_opt (watchdogTimer σ) σ in
  let σ2 := set_lastPingTime (Some now) σ1 in
  set_watchdogTimer (Some (next_timer σ2)) (setInterval WatchdogCheck 10000 σ2).

(** [resetWatchdog()] at time [now]. *)
Definition resetWatchdog (now : Z) (σ : State) : State :=
  set_lastPingTime (Some now) σ.

(** [ws.terminate()] on socket [s]. *)
Definition terminate (s : nat) (σ : State) : State :=
  log (Terminated s) (set_sockets (<[s := CLOSING]> (sockets σ)) σ).

(** The callback of the watchdog interval at time [now]; [Date.now() -
    null] is [Date.now()]. *)
Definition watchdogCheck (now : Z) (σ : State) : State :=
  let timeSinceLastPing := now - default 0 (lastPingTime σ) in
  if timeSinceLastPing >? PING_TIMEOUT_MS then
    let σ1 := stopWatchdog σ in
    let σ2 :=
      match ws σ1 with
      | Some s => set_ws None (terminate s σ1)
      | None => σ1
      end in
    let σ3 := set_isConnected false σ2 in
    setTimeout WatchdogReconnect 1000 σ3
  else σ.

(** [connect()]. *)
Definition connect (σ : State) : State :=
  let busy :=
    match ws σ with
    | Some s => bool_decide (sockets σ !! s = Some CONNECTING)
                || bool_decide (sockets σ !! s = Some OPEN)
    | None => false
    end in
  if busy then σ else
  let s := next_socket σ in
  log (Created s)
    (set_ws (Some s)
       (set_next_socket (S s) (set_sockets (<[s := CONNECTING]> (sockets σ)) σ))).

(** [ws.send(frame)] on the global [ws]: [None] when it throws, because
    [ws] is [null] or the socket is still connecting. *)
Definition send (f : Frame) (σ : State) : option State :=
  match ws σ with
  | Some s =>
    if bool_decide (sockets σ !! s = Some CONNECTING) then None
    else Some (log (Sent s f) σ)
  | None => None
  end.

(** [ws.on('open')] of socket [s] at time [now]; an exception in this
    handler is not caught. *)
Definition on_open (s : nat) (now : Z) (σ : State) : State :=
  let σ1 := set_isConnected true (set_sockets (<[s := OPEN]> (sockets σ)) σ) in
  match send FRegister σ1 with
  | None => set_crashed true σ1
  | Some σ2 =>
    let σ3 :=
      match reconnectTimer σ2 with
      | Some t => set_reconnectTimer None (clearTimer t σ2)
      | None => σ2
      end in
    startWatchdog now σ3
  end.

(** [ws.on('close')] of socket [s]. *)
Definition on_close (s : nat) (σ : State) : State :=
  let σ1 := set_sockets (<[s := CLOSED]> (sockets σ)) σ in
  let σ2 := set_ws None (set_isConnected false σ1) in
  let σ3 := stopWatchdog σ2 in
  match reconnectTimer σ3 with
  | None =>
    set_reconnectTimer (Some (next_timer σ3)) (setTimeout CloseReconnect 5000 σ3)
  | Some _ => σ3
  end.

(** *** Auto-requests *)

(** [getAutoRequestStateKey(deviceId, authToken)]. *)
Definition getAutoRequestStateKey (deviceId' authToken' : string) : string :=
  deviceId' +:+ ":" +:+ authToken'.

(** [cleanupAutoRequests(stateKey)]. *)
Definition cleanupAutoRequests (stateKey : string) (σ : State) : State :=
  match autoRequestStates σ !! stateKey with
  | None => σ
  | Some st =>
    let σ1 := clearTimer_opt (intervalTimer st) σ in
    let σ2 := clearTimer_opt (timeoutTimer st) σ1 in
    set_autoRequestStates (delete stateKey (autoRequestStates σ2)) σ2
  end.

(** [startPingKeepalive(deviceId, authToken, deviceIp, devicePort)] at
    time [now]. *)
Definition startPingKeepalive (deviceId' authToken' deviceIp' : string)
    (devicePort' : Z) (now : Z) (σ : State) : State :=
  let stateKey := getAutoRequestStateKey deviceId' authToken' in
  let σ1 := cleanupAutoRequests stateKey σ in
  let i := next_timer σ1 in
  let σ2 := setInterval (PingTick deviceId' authToken' deviceIp' devicePort')
              AUTO_REQUEST_INTERVAL_MS σ1 in
  let t := next_timer σ2 in
  let σ3 := setTimeout (PingExpire deviceId' stateKey)
              AUTO_REQUEST_DURATION_MS σ2 in
  set_autoRequestStates
    (<[stateKey := {| deviceId := deviceId'; authToken := authToken';
                      deviceIp := deviceIp'; devicePort := devicePort';
                      method := None; body := None;
                      state := PingKeepalive;
                      intervalTimer := Some i; timeoutTimer := Some t;
                      startTime := now |}]> (autoRequestStates σ3)) σ3.

(** [startAuthRetry(deviceId, authToken, deviceIp, devicePort, method,
    body)] at time [now]. *)
Definition startAuthRetry (deviceId' authToken' deviceIp' : string)
    (devicePort' : Z) (method' body' : option string) (now : Z)
    (σ : State) : State :=
  let stateKey := getAutoRequestStateKey deviceId' authToken' in
  let σ1 := cleanupAutoRequests stateKey σ in
  let i := next_timer σ1 in
  let t := S i in
  let σ2 := setInterval
              (AuthRetryTick {| rc_deviceId := deviceId';
                                rc_authToken := authToken';
                                rc_deviceIp := deviceIp';
                                rc_devicePort := devicePort';
                                rc_method := method'; rc_body := body';
                                rc_intervalTimer := Some i;
                                rc_timeoutTimer := Some t |})
              AUTO_REQUEST_INTERVAL_MS σ1 in
  let σ3 := setTimeout (AuthRetryExpire deviceId' stateKey)
              AUTO_REQUEST_DURATION_MS σ2 in
  set_autoRequestStates
    (<[stateKey := {| deviceId := deviceId'; authToken := authToken';
                      deviceIp := deviceIp'; devicePort := devicePort';
                      method := method'; body := body';
                      state := AuthRetry;
                      intervalTimer := Some i; timeoutTimer := Some t;
                      startTime := now |}]> (autoRequestStates σ3)) σ3.

(** A call to a device with axios: it is in flight until its result
    comes back, when [k] takes over. *)
Definition request (method' : option string) (url : string)
    (k : Continuation) (σ : State) : State :=
  set_next_http (S (next_http σ))
    (set_pendingHttp (<[next_http σ := k]> (pendingHttp σ))
       (log (Requested (next_http σ) method' url) σ)).

(** The interval callback of [startAuthRetry], up to its [await]. *)
Definition authRetryTick (c : RetryClosure) (σ : State) : State :=
  request (rc_method c)
    ("http://" +:+ rc_deviceIp c +:+ ":" +:+ pretty (rc_devicePort c)
     +:+ "/api/" +:+ rc_authToken c +:+ "/auth")
    (AfterAuthRetry c) σ.

(** The interval callback of [startAuthRetry], after its [await]. *)
Definition authRetryDone (c : RetryClosure) (r : DeviceResult) (now : Z)
    (σ : State) : State :=
  match r with
  | Success statusCode _ =>
    if statusCode =? 200 then
      let σ1 := clearTimer_opt (rc_intervalTimer c) σ in
      let σ2 := clearTimer_opt (rc_timeoutTimer c) σ1 in
      startPingKeepalive (rc_deviceId c) (rc_authToken c) (rc_deviceIp c)
        (rc_devicePort c) now σ2
    else σ
  | Failure _ => σ
  end.

(** The interval callback of [startPingKeepalive], up to its [await];
    nothing follows the [await]. *)
Definition pingTick (deviceId' authToken' deviceIp' : string)
    (devicePort' : Z) (σ : State) : State :=
  request (Some "GET")
    ("http://" +:+ deviceIp' +:+ ":" +:+ pretty devicePort'
     +:+ "/api/" +:+ authToken' +:+ "/ping?keepalive=60")
    (AfterPing deviceId') σ.

(** *** Messages of the relay *)

(** [path.match(/^\/api\/([^\/]+)\/auth$/)]: the captured token. *)
Definition authMatch (path : string) : option string :=
  let n := String.length path in
  if (11 <=? n)%nat && String.prefix "/api/" path
     && String.eqb (String.substring (n - 5) 5 path) "/auth"
  then
    let token := String.substring 5 (n - 10) path in
    if JS.includes "/" token then None else Some token
  else None.

(** The loop over [deviceRegistry.entries()] that looks for the device
    of [targetIp]: the first id, in insertion order, whose address list
    includes it. *)
Definition findDeviceId (targetIp : string) (l : list (string * Device))
    : option string :=
  fst <$> List.find (λ e, bool_decide (targetIp ∈ addresses e.2)) l.

(** [handleMessage] for an [api-request], after [await
    makeDeviceRequest(..)] gave [result]. *)
Definition apiRequestDone (message : Message) (path : string)
    (result : DeviceResult) (now : Z) (σ : State) : State :=
  let targetIp := JS.template (m_targetIp message) in
  let targetPort := default 80 (m_targetPort message) in
  let σ1 :=
    match authMatch path with
    | Some authToken' =>
      match findDeviceId targetIp (deviceRegistry σ) with
      | Some deviceId' =>
        if JS.truthy (Some deviceId') then
          match result with
          | Failure _ =>
            startAuthRetry deviceId' authToken' targetIp targetPort
              (m_method message) (m_body message) now σ
          | Success statusCode _ =>
            if statusCode >=? 400 then
              startAuthRetry deviceId' authToken' targetIp targetPort
                (m_method message) (m_body message) now σ
            else if statusCode =? 200 then
              startPingKeepalive deviceId' authToken' targetIp targetPort
                now σ
            else σ
          end
        else σ
      | None => σ
      end
    | None => σ
    end in
  default σ1 (send (FApiResponse (m_requestId message) result) σ1).

(** [handleMessage(data)] at time [now], up to its first [await];
    [data] is [None] when [JSON.parse] throws.  Every exception is
    caught and logged.  [makeDeviceRequest] catches its own: a missing
    [path] makes it return a failure, after which [path.match] throws;
    a missing [body] under a path ending in [/content] makes it return
    a failure without a call to the device. *)
Definition handleMessage (data : option Message) (now : Z) (σ : State)
    : State :=
  match data with
  | None => σ
  | Some message =>
    if String.eqb (m_type message) "discover" then
      default σ (send (FDiscoverResponse (m_requestId message)
                                         (getDiscoveredDevices σ)) σ)
    else if String.eqb (m_type message) "api-request" then
      if negb (JS.truthy (m_targetIp message)) then
        default σ (send (FApiError (m_requestId message) "Missing targetIp") σ)
      else
        match m_path message with
        | None => σ
        | Some path =>
          let url := "http://" +:+ JS.template (m_targetIp message) +:+ ":"
                     +:+ pretty (default 80 (m_targetPort message))
                     +:+ path in
          if JS.endsWith "/content" path
             && bool_decide (m_body message = None)
          then apiRequestDone message path
                 (Failure "Cannot read properties of undefined") now σ
          else request (m_method message) url
                 (AfterDeviceRequest message path) σ
        end
    else if String.eqb (m_type message) "ping" then
      match send FPong σ with
      | Some σ1 => resetWatchdog now σ1
      | None => σ
      end
    else σ
  end.

(** A device call comes back. *)
Definition httpDone (id : nat) (r : DeviceResult) (now : Z) (σ : State)
    : State :=
  match pendingHttp σ !! id with
  | None => σ
  | Some k =>
    let σ1 := set_pendingHttp (delete id (pendingHttp σ)) σ in
    match k with
    | AfterDeviceRequest message path => apiRequestDone message path r now σ1
    | AfterAuthRetry c => authRetryDone c r now σ1
    | AfterPing _ => σ1
    end
  end.

(** A timer fires at time [now]: a timeout is disarmed, an interval
    stays armed. *)
Definition timerFires (t : nat) (now : Z) (σ : State) : State :=
  match timers σ !! t with
  | None => σ
  | Some tm =>
    let σ1 := if repeating tm then σ else clearTimer t σ in
    match callback tm with
    | RemoveDevice d => removeDevice d σ1
    | WatchdogCheck => watchdogCheck now σ1
    | WatchdogReconnect => connect σ1
    | CloseReconnect => connect (set_reconnectTimer None σ1)
    | AuthRetryTick c => authRetryTick c σ1
    | AuthRetryExpire _ stateKey => cleanupAutoRequests stateKey σ1
    | PingTick d a ip p => pingTick d a ip p σ1
    | PingExpire _ stateKey => cleanupAutoRequests stateKey σ1
    end
  end.

(** The events of the agent's event loop. *)
Inductive Event :=
| Start
| BonjourUp (service : Service)
| BonjourDown (service : Service)
| WsOpen (s : nat) (now : Z)
| WsMessage (data : option Message) (now : Z)
| WsClose (s : nat)
| HttpDone (id : nat) (r : DeviceResult) (now : Z)
| TimerFires (t : nat) (now : Z).

(** After an uncaught exception the process is gone. *)
Definition step (σ : State) (ev : Event) : State :=
  if crashed σ then σ else
  match ev with
  | Start => connect σ
  | BonjourUp service => on_up service σ
  | BonjourDown service => on_down service σ
  | WsOpen s now => on_open s now σ
  | WsMessage data now => handleMessage data now σ
  | WsClose s => on_close s σ
  | HttpDone id r now => httpDone id r now σ
  | TimerFires t now => timerFires t now σ
  end.

Definition run (σ : State) (evs : list Event) : State :=
  fold_left step evs σ.

End Agent.

(** ** The agent: sample services and messages *)

Module AgentSample.

Import Agent.

(** An OnSong service with a role and a device id in its TXT record. *)
Definition onsong (role' id : string) (addrs : list string) : Service :=
  {| svc_name := "OnSong"; svc_type := "onsong"; svc_host := "ipad.local";
     svc_addresses := Some addrs; svc_port := 80;
     svc_txt := Some (<["role" := role']> {["deviceid" := id]}) |}.


Definition api_request (requestId targetIp path : string) : Message :=
  {| m_type := "api-request"; m_requestId := Some requestId;
     m_targetIp := Some targetIp; m_targetPort := None;
     m_method := Some "POST"; m_path := Some path;
     m_body := Some "{}" |}.

End AgentSample.

(** ** The agent: predicates and traces used in the statements *)

Module AgentSpec.

Import Agent.

(** The filter of the up handler: a recognised role and a device id. *)
Definition qualifies (service : Service) : bool :=
  let txt' := default ∅ (svc_txt service) in
  (JS.strict_eq (txt' !! "role") "server"
   || JS.strict_eq (txt' !! "role") "client")
  && JS.truthy (txt' !! "deviceid").

(** The trace at which a device that is up is removed: the device goes
    down twice (two of its services, or one service seen twice), comes
    back, and the timer of the first down fires after the grace
    period. *)
Definition down_twice : list Event :=
  [BonjourUp (AgentSample.onsong "server" "ipad-1" ["192.168.1.20"]);
   BonjourDown (AgentSample.onsong "server" "ipad-1" ["192.168.1.20"]);
   BonjourDown (AgentSample.onsong "server" "ipad-1" ["192.168.1.20"]);
   BonjourUp (AgentSample.onsong "server" "ipad-1" ["192.168.1.20"]);
   TimerFires 0 600000].

(** The removal timer of a device id. *)
Definition removal_timer (id : string) : Timer :=
  {| delay := 600000; repeating := false; callback := RemoveDevice id |}.

(** The watchdog's interval timer and the reconnect it schedules. *)
Definition watchdog_timer : Timer :=
  {| delay := 10000; repeating := true; callback := WatchdogCheck |}.





(** The state key an auto-request timer works for. *)
Definition timer_key (cb : Callback) : option string :=
  match cb with
  | AuthRetryTick c =>
    Some (getAutoRequestStateKey (rc_deviceId c) (rc_authToken c))
  | AuthRetryExpire _ stateKey => Some stateKey
  | PingTick d a _ _ => Some (getAutoRequestStateKey d a)
  | PingExpire _ stateKey => Some stateKey
  | _ => None
  end.

(** [t] is one of the two timers of the auto-request state [st]. *)
Definition timer_of (st : AutoRequestState) (t : nat) : Prop :=
  intervalTimer st = Some t ∨ timeoutTimer st = Some t.

(** The invariant of the auto-request map: an armed auto-request timer
    is one of the two timers of the state stored under its key, and the
    timers a stored state names were handed out before. *)
Record AutoInv (σ : State) : Prop := {
  auto_owned : ∀ t tm k,
    timers σ !! t = Some tm → timer_key (callback tm) = Some k →
    ∃ st, autoRequestStates σ !! k = Some st ∧ timer_of st t;
  auto_old : ∀ k st t,
    autoRequestStates σ !! k = Some st → timer_of st t →
    (t < next_timer σ)%nat
}.

(** A step that leaves the auto-request map alone, hands out timers in
    order, and arms no auto-request timer. *)
Definition benign (σ σ' : State) : Prop :=
  autoRequestStates σ' = autoRequestStates σ
  ∧ (next_timer σ ≤ next_timer σ')%nat
  ∧ ∀ t tm, timers σ' !! t = Some tm →
            timers σ !! t = Some tm ∨ timer_key (callback tm) = None.

(** A trace that leaves an auth-retry state behind: a device is
    discovered, the uplink opens, the relay asks for an auth call to the
    device, and the call fails. *)
Definition failed_auth : list Event :=
  [BonjourUp (AgentSample.onsong "server" "ipad-1" ["192.168.1.20"]);
   Start;
   WsOpen 0 0;
   WsMessage (Some (AgentSample.api_request "req-1" "192.168.1.20"
                                            "/api/tok/auth")) 100;
   HttpDone 0 (Failure "ECONNREFUSED") 200].

(** No device of the registry lists the address. *)
Definition unknown_address (ip : string) (σ : State) : Prop :=
  ∀ id d, (id, d) ∈ deviceRegistry σ → ip ∉ addresses d.

(** Reduce the field projections of a state built by the handlers. *)
Ltac fields :=
  cbn [ws sockets next_socket reconnectTimer isConnected lastPingTime
       watchdogTimer deviceRegistry deviceRemovalTimers autoRequestStates
       timers next_timer pendingHttp next_http effects crashed
       set_ws set_sockets set_next_socket set_reconnectTimer set_isConnected
       set_lastPingTime set_watchdogTimer set_deviceRegistry
       set_deviceRemovalTimers set_autoRequestStates set_timers
       set_next_timer set_pendingHttp set_next_http set_effects set_crashed
       setTimeout setInterval clearTimer clearTimer_opt log terminate
       request callback delay repeating] in *.

(** Show a step [benign] from the three fields it is about. *)
Ltac benign_step :=
  split_and!;
  [ reflexivity
  | fields; lia
  | let t := fresh "t" in
    let tm := fresh "tm" in
    let H := fresh "H" in
    intros t tm; fields;
    rewrite ?lookup_insert, ?lookup_delete;
    repeat case_decide; intros H; simplify_eq; auto ].

End AgentSpec.

(** ** The agent: predicates of the further properties *)

Module AgentMore.

Import Agent AgentSpec.

(** A registry entry is stored under the device id of its own TXT
    record, which is not empty, and has a recognised role. *)
Definition entry_ok (e : string * Device) : Prop :=
  e.1 ≠ ""
  ∧ txt e.2 !! "deviceid" = Some e.1
  ∧ (txt e.2 !! "role" = Some "server" ∨ txt e.2 !! "role" = Some "client").

Definition registry_ok (l : list (string * Device)) : Prop :=
  NoDup l.*1 ∧ Forall entry_ok l.

(** The delay and the kind the source gives the timer of each
    callback: [setTimeout] or [setInterval], and for how long. *)
Definition timer_shape (tm : Timer) : bool :=
  match callback tm with
  | RemoveDevice _ => (delay tm =? 600000) && negb (repeating tm)
  | WatchdogCheck => (delay tm =? 10000) && repeating tm
  | WatchdogReconnect => (delay tm =? 1000) && negb (repeating tm)
  | CloseReconnect => (delay tm =? 5000) && negb (repeating tm)
  | AuthRetryTick _ | PingTick _ _ _ _ => (delay tm =? 2000) && repeating tm
  | AuthRetryExpire _ _ | PingExpire _ _ =>
    (delay tm =? 60000) && negb (repeating tm)
  end.

(** The invariant of the timer table: every armed timer has the shape
    of its callback, an armed watchdog interval is the one
    [watchdogTimer] names, and an armed reconnect of the close handler
    is the one [reconnectTimer] names. *)
Record TimerInv (σ : State) : Prop := {
  ti_shape : ∀ t tm, timers σ !! t = Some tm → timer_shape tm = true;
  ti_watchdog : ∀ t tm,
    timers σ !! t = Some tm → callback tm = WatchdogCheck →
    watchdogTimer σ = Some t;
  ti_reconnect : ∀ t tm,
    timers σ !! t = Some tm → callback tm = CloseReconnect →
    reconnectTimer σ = Some t
}.

(** A callback of the uplink's two tracked timers. *)
Definition uplink_callback (cb : Callback) : bool :=
  match cb with
  | WatchdogCheck | CloseReconnect => true
  | _ => false
  end.

(** A step that leaves the two handles alone and arms no timer of the
    two kinds, and only timers of the right shape. *)
Definition calm (σ σ' : State) : Prop :=
  watchdogTimer σ' = watchdogTimer σ
  ∧ reconnectTimer σ' = reconnectTimer σ
  ∧ ∀ t tm, timers σ' !! t = Some tm →
            timers σ !! t = Some tm
            ∨ (uplink_callback (callback tm) = false
               ∧ timer_shape tm = true).

Ltac calm_step :=
  split_and!;
  [ reflexivity
  | reflexivity
  | let t := fresh "t" in
    let tm := fresh "tm" in
    let H := fresh "H" in
    intros t tm; fields;
    rewrite ?lookup_insert, ?lookup_delete;
    repeat case_decide; intros H; simplify_eq; auto ].

(** The close-reconnect timer of the close handler. *)
Definition close_reconnect : Timer :=
  {| delay := 5000; repeating := false; callback := CloseReconnect |}.

(** The device id a record of a discover response carries. *)
Definition device_id_of (d : Device) : option string := txt d !! "deviceid".

(** The two timers of a ping keep-alive started for the device and the
    token of a retry. *)
Definition ping_tick (c : RetryClosure) : Timer :=
  {| delay := 2000; repeating := true;
     callback := PingTick (rc_deviceId c) (rc_authToken c) (rc_deviceIp c)
                   (rc_devicePort c) |}.

Definition ping_expire (c : RetryClosure) : Timer :=
  {| delay := 60000; repeating := false;
     callback := PingExpire (rc_deviceId c)
                   (getAutoRequestStateKey (rc_deviceId c) (rc_authToken c)) |}.

(** A trace that leaves a retry in flight: after the failed auth call
    the retry interval fires once. *)
Definition retry_tick : list Event := failed_auth ++ [TimerFires 1 2200].

Definition retry_closure : RetryClosure :=
  {| rc_deviceId := "ipad-1"; rc_authToken := "tok";
     rc_deviceIp := "192.168.1.20"; rc_devicePort := 80;
     rc_method := Some "POST"; rc_body := Some "{}";
     rc_intervalTimer := Some 1%nat; rc_timeoutTimer := Some 2%nat |}.

Definition discover_request : Message :=
  {| m_type := "discover"; m_requestId := Some "req-7";
     m_targetIp := None; m_targetPort := None;
     m_method := None; m_path := None; m_body := None |}.


(** The callback of a removal timer. *)
Definition is_removal (cb : Callback) : bool :=
  match cb with RemoveDevice _ => true | _ => false end.

(** A step that leaves the table of removal timers alone and arms no
    removal timer. *)
Definition still (σ σ' : State) : Prop :=
  deviceRemovalTimers σ' = deviceRemovalTimers σ
  ∧ ∀ t tm, timers σ' !! t = Some tm →
            timers σ !! t = Some tm ∨ is_removal (callback tm) = false.

(** Show a step [still] from the two fields it is about. *)
Ltac still_step :=
  split;
  [ reflexivity
  | let t := fresh "t" in
    let tm := fresh "tm" in
    let H := fresh "H" in
    intros t tm; fields;
    rewrite ?lookup_insert, ?lookup_delete;
    repeat case_decide; intros H; simplify_eq; auto ].

(** Every armed removal timer is the one the table records for its
    device. *)
Definition tracked (σ : State) : Prop :=
  ∀ t tm d, timers σ !! t = Some tm → callback tm = RemoveDevice d →
            deviceRemovalTimers σ !! d = Some t.

(** No down event arrives for a device while the table records a
    removal for it. *)
Definition down_is_single (σ : State) (ev : Event) : bool :=
  match ev with
  | BonjourDown service =>
    bool_decide (deviceRemovalTimers σ !! getDeviceId service = None)
  | _ => true
  end.

Fixpoint single_downs_from (σ : State) (evs : list Event) : bool :=
  match evs with
  | [] => true
  | ev :: rest => down_is_single σ ev && single_downs_from (step σ ev) rest
  end.

Definition single_downs (evs : list Event) : bool :=
  single_downs_from init evs.

(** No removal timer is armed for the device. *)
Definition unarmed (d : string) (σ : State) : Prop :=
  ∀ t tm, timers σ !! t = Some tm → callback tm ≠ RemoveDevice d.

(** A step that arms no removal timer. *)
Definition arms_no_removal (σ σ' : State) : Prop :=
  ∀ t tm, timers σ' !! t = Some tm →
          timers σ !! t = Some tm ∨ is_removal (callback tm) = false.

(** No event of the trace is a down event of the device. *)
Definition not_down (d : string) (ev : Event) : bool :=
  match ev with
  | BonjourDown service => negb (String.eqb (getDeviceId service) d)
  | _ => true
  end.

Definition no_down (d : string) (evs : list Event) : bool :=
  forallb (not_down d) evs.

(** A device comes, goes, comes back and goes again. *)
Definition up_down_up : list Event :=
  [BonjourUp (AgentSample.onsong "server" "ipad-1" ["192.168.1.20"]);
   BonjourDown (AgentSample.onsong "server" "ipad-1" ["192.168.1.20"]);
   BonjourUp (AgentSample.onsong "server" "ipad-1" ["192.168.1.20"]);
   BonjourDown (AgentSample.onsong "server" "ipad-1" ["192.168.1.20"])].

End AgentMore.

(** ** The relay: properties *)

Module RelayFacts.

Import Relay RelaySpec.

Lemma truthy_Some_nonempty v :
  JS.truthy v = true ↔ ∃ s, v = Some s ∧ s ≠ "".
Proof.
  destruct v as [s|]; simpl.
  - rewrite negb_true_iff. split.
    + intros H. exists s. split; [done|]. intros ->. discriminate.
    + intros (s' & [= <-] & Hne). by apply String.eqb_neq.
  - split; [done | by intros (? & ? & _)].
Qed.

Lemma strict_eq_true v s : JS.strict_eq v s = true ↔ v = Some s.
Proof. unfold JS.strict_eq. by rewrite bool_decide_eq_true. Qed.

Lemma strict_eq_false v s : JS.strict_eq v s = false ↔ v ≠ Some s.
Proof. unfold JS.strict_eq. by rewrite bool_decide_eq_false. Qed.

(** *** Fields a handler leaves alone *)

Lemma settle_connections n o σ :
  connections (settle n o σ) = connections σ.
Proof.
  unfold settle. destruct (callers σ !! n) as [[rq e]|]; [|done].
  by case_bool_decide.
Qed.

Lemma sendToProxy_connections conn f d rq e σ :
  connections (sendToProxy conn f d rq e σ) = connections σ.
Proof. done. Qed.

Lemma invoke_connections h m σ : connections (invoke h m σ) = connections σ.
Proof. unfold invoke. by rewrite settle_connections. Qed.

Lemma on_timeout_connections n σ :
  connections (on_timeout n σ) = connections σ.
Proof.
  unfold on_timeout. destruct (timers σ !! n); [|done].
  by rewrite settle_connections.
Qed.

Lemma on_response_connections sock m σ :
  connections (on_response sock m σ) = connections σ.
Proof.
  unfold on_response.
  destruct (registeredKey σ !! sock); [|done].
  destruct (connections σ !! _); [|done].
  destruct (handlers_of σ _ !! _); [|done].
  apply invoke_connections.
Qed.


Lemma on_register_invalid sock m now σ :
  valid_registration m = false →
  connections (on_register sock m now σ) = connections σ.
Proof.
  unfold valid_registration, on_register. intros H.
  destruct (JS.truthy (m_churchToolsUrl m)), (JS.truthy (m_secret m)),
    (JS.truthy (m_uuid m)); simpl in *; done.
Qed.

Lemma on_register_valid sock m now σ :
  valid_registration m = true →
  ∃ s, connections (on_register sock m now σ) = <[key_of m := s]> (connections σ)
       ∧ secret s = JS.template (m_secret m)
       ∧ public s = default false (m_public m)
       ∧ ws s = sock
       ∧ requestHandlers s = next_table σ.
Proof.
  unfold valid_registration, on_register. intros H.
  destruct (JS.truthy (m_churchToolsUrl m)), (JS.truthy (m_secret m)),
    (JS.truthy (m_uuid m)); simpl in *; try done.
  eexists. split; [reflexivity|]. done.
Qed.


Section Reachable.

Variable url_hostname : string → option string.
Variable parseInt : string → option Z.

Abbreviation run := (run url_hostname parseInt).
Abbreviation step := (step url_hostname parseInt).
Abbreviation discover := (discover url_hostname).
Abbreviation api := (api url_hostname parseInt).
Abbreviation proxycheck := (proxycheck url_hostname).

Lemma run_snoc σ evs ev : run σ (evs ++ [ev]) = step (run σ evs) ev.
Proof. unfold Relay.run. by rewrite fold_left_app. Qed.

Lemma run_invariant (P : State → Prop) :
  P init → (∀ σ ev, P σ → P (step σ ev)) → ∀ evs, P (run init evs).
Proof.
  intros H0 Hstep evs. induction evs as [|ev evs IH] using rev_ind; [done|].
  rewrite run_snoc. by apply Hstep.
Qed.

Lemma discover_connections rq σ :
  connections (discover rq σ) = connections σ.
Proof.
  unfold Relay.discover.
  repeat (case_match; try done).
Qed.

Lemma api_connections rq σ : connections (api rq σ) = connections σ.
Proof.
  unfold Relay.api.
  repeat (case_match; try done).
Qed.

Lemma step_secrets_nonempty σ ev :
  secrets_nonempty σ → secrets_nonempty (step σ ev).
Proof.
  intros Hσ. unfold secrets_nonempty.
  destruct ev as [rq|rq|rq|sock data now|sock|n]; cbn [Relay.step].
  - done.
  - intros k s. rewrite discover_connections. apply Hσ.
  - intros k s. rewrite api_connections. apply Hσ.
  - destruct data as [m|]; cbn [on_message]; [|done].
    destruct (String.eqb (m_type m) "register").
    + destruct (valid_registration m) eqn:Hv.
      * destruct (on_register_valid sock m now σ Hv) as (s' & -> & Hs & _).
        intros k s. rewrite lookup_insert. case_decide.
        -- intros [= <-]. rewrite Hs.
           unfold valid_registration in Hv.
           apply andb_prop in Hv as [Hv _]. apply andb_prop in Hv as [_ Hv].
           apply truthy_Some_nonempty in Hv as (x & -> & Hx). done.
        -- apply Hσ.
      * intros k s. rewrite on_register_invalid by done. apply Hσ.
    + destruct (_ || _); [|done].
      intros k s. rewrite on_response_connections. apply Hσ.
  - unfold on_close. destruct (registeredKey σ !! sock) as [key|]; [|done].
    intros k s. simpl. rewrite lookup_delete. case_decide; [done|]. apply Hσ.
  - intros k s. rewrite on_timeout_connections. apply Hσ.
Qed.

Lemma reachable_secrets_nonempty evs : secrets_nonempty (run init evs).
Proof. apply run_invariant; [done | apply step_secrets_nonempty]. Qed.

(** C2.  On a reachable state of the relay, once the Session [s] of the
    identity is found, [findAndAuthenticateConnection] accepts (returns
    that Session) exactly when [s] is public or the presented secret is
    exactly [s]'s secret; a non-public Session rejects an absent and an
    empty presented secret with "Invalid secret" 403, and a public one
    accepts whatever is presented, also nothing. *)
Theorem C2_data_path_authentication
    (evs : list Event) (host : string) (u x : option string) (s : Session) :
  JS.truthy u = true →
  connections (run init evs) !! connectionKey host (JS.template u) = Some s →
  (findAndAuthenticateConnection (run init evs) host x u = AuthConn s
     ↔ public s = true ∨ x = Some (secret s))
  ∧ (public s = false →
       findAndAuthenticateConnection (run init evs) host None u
         = AuthError "Invalid secret" 403
       ∧ findAndAuthenticateConnection (run init evs) host (Some "") u
         = AuthError "Invalid secret" 403)
  ∧ (public s = true →
       ∀ y, findAndAuthenticateConnection (run init evs) host y u
            = AuthConn s).
Proof.
  intros Hu Hs.
  pose proof (reachable_secrets_nonempty evs _ _ Hs) as Hne.
  unfold findAndAuthenticateConnection. rewrite Hu, Hs. simpl.
  split; [|split].
  - destruct (public s); simpl.
    + split; [by left | done].
    + destruct (JS.strict_eq x (secret s)) eqn:Hx; simpl.
      * apply strict_eq_true in Hx. split; [by right | done].
      * apply strict_eq_false in Hx. split; [done | intros [?|?]; done].
  - intros ->. simpl. split.
    + done.
    + assert (JS.strict_eq (Some "") (secret s) = false) as ->; [|done].
      apply strict_eq_false. intros [= H]. by rewrite <- H in Hne.
  - intros -> y. done.
Qed.

End Reachable.

(** C2 at a registration of a private proxy and the matching secret. *)
Lemma C2_data_path_authentication_witness :
  let evs := [WsMessage 1 (Some (Sample.register "a.church.tools" "s1" "u1"
                                                 false)) 0] in
  let s := {| churchToolsUrl := "a.church.tools"; secret := "s1";
              uuid := "u1"; location := ""; public := false; ws := 1%nat;
              requestHandlers := 0%nat; registeredAt := 0;
              proxyVersion := "2.0.0" |} in
  (findAndAuthenticateConnection (Sample.run evs) "a.church.tools"
     (Some "s1") (Some "u1") = AuthConn s
     ↔ public s = true ∨ Some "s1" = Some (secret s))
  ∧ (public s = false →
       findAndAuthenticateConnection (Sample.run evs) "a.church.tools"
         None (Some "u1") = AuthError "Invalid secret" 403
       ∧ findAndAuthenticateConnection (Sample.run evs) "a.church.tools"
         (Some "") (Some "u1") = AuthError "Invalid secret" 403)
  ∧ (public s = true →
       ∀ y, findAndAuthenticateConnection (Sample.run evs) "a.church.tools"
              y (Some "u1") = AuthConn s).
Proof.
  intros evs s.
  apply (C2_data_path_authentication Sample.https_hostname Sample.parseInt
           evs "a.church.tools" (Some "u1") (Some "s1") s).
  - reflexivity.
  - vm_compute. reflexivity.
Defined.

Section Presence.

Variable url_hostname : string → option string.

Abbreviation proxycheck := (proxycheck url_hostname).
Abbreviation getChurchToolsUrl := (getChurchToolsUrl url_hostname).


(** C9.  [/proxycheck] answers [registered: true] only when the request
    names a Session (by the referrer's hostname and [X-ID]) and presents
    exactly that Session's secret, and then the data-path check accepts
    the same credentials; a public Session presented with another secret
    is reported as not registered although the data-path check accepts
    it, so the presence check is strictly stronger. *)
Theorem C9_proxycheck_requires_secret (σ : State) (rq : Request) :
  (body (proxycheck rq σ) = BRegistered true →
     ∃ host u x s,
       getChurchToolsUrl (referrer_of rq) = Some host
       ∧ req_headers rq !! "x-id" = Some u
       ∧ req_headers rq !! "x-auth" = Some x
       ∧ connections σ !! connectionKey host u = Some s
       ∧ x = secret s
       ∧ findAndAuthenticateConnection σ host (Some x) (Some u) = AuthConn s)
  ∧ (∀ host u x s,
       getChurchToolsUrl (referrer_of rq) = Some host → host ≠ "" →
       req_headers rq !! "x-id" = Some u → u ≠ "" →
       req_headers rq !! "x-auth" = Some x → x ≠ "" →
       connections σ !! connectionKey host u = Some s →
       public s = true → x ≠ secret s →
       proxycheck rq σ = reply 200 (BRegistered false)
       ∧ findAndAuthenticateConnection σ host (Some x) (Some u) = AuthConn s).
Proof.
  split.
  - unfold Relay.proxycheck. fold (referrer_of rq).
    destruct (JS.truthy (req_headers rq !! "x-id")) eqn:Hu; [|done].
    destruct (JS.truthy (req_headers rq !! "x-auth")) eqn:Hx; [|done].
    destruct (JS.truthy (getChurchToolsUrl (referrer_of rq))) eqn:Hh; [|done].
    simpl.
    apply truthy_Some_nonempty in Hu as (u & Hu & Hune).
    apply truthy_Some_nonempty in Hx as (x & Hx & Hxne).
    apply truthy_Some_nonempty in Hh as (host & Hh & Hhne).
    rewrite Hu, Hx, Hh. simpl.
    destruct (connections σ !! connectionKey host u) as [s|] eqn:Hs; [|done].
    destruct (JS.strict_eq (Some x) (secret s)) eqn:Heq; [|done].
    intros _. apply strict_eq_true in Heq as [= ->].
    exists host, u, (secret s), s. repeat split; try done.
    unfold findAndAuthenticateConnection. simpl.
    assert (negb (String.eqb u "") = true) as ->.
    { apply negb_true_iff. by apply String.eqb_neq. }
    simpl. rewrite Hs.
    assert (JS.strict_eq (Some (secret s)) (secret s) = true) as ->.
    { by apply strict_eq_true. }
    by rewrite andb_false_r.
  - intros host u x s Hh Hhne Hu Hune Hx Hxne Hs Hpub Hneq.
    assert (∀ a, a ≠ "" → negb (String.eqb a "") = true) as Hnz.
    { intros a Ha. apply negb_true_iff. by apply String.eqb_neq. }
    split.
    + unfold Relay.proxycheck. fold (referrer_of rq).
      rewrite Hu, Hx, Hh. simpl. rewrite !Hnz by done. simpl. rewrite Hs.
      assert (JS.strict_eq (Some x) (secret s) = false) as ->; [|done].
      apply strict_eq_false. congruence.
    + unfold findAndAuthenticateConnection. simpl.
      rewrite Hnz by done. simpl. by rewrite Hs, Hpub.
Qed.

End Presence.

(** C9 at a public proxy and a tenant presenting another secret. *)
Lemma C9_proxycheck_requires_secret_witness :
  let σ := Sample.run
             [WsMessage 1 (Some (Sample.register "a.church.tools" "s1" "u1"
                                                 true)) 0] in
  let rq := Sample.tenant_request 7 "/proxycheck" "https://a.church.tools/"
              (Some "guess") "u1" in
  let s := {| churchToolsUrl := "a.church.tools"; secret := "s1";
              uuid := "u1"; location := ""; public := true; ws := 1%nat;
              requestHandlers := 0%nat; registeredAt := 0;
              proxyVersion := "2.0.0" |} in
  Relay.proxycheck Sample.https_hostname rq σ = reply 200 (BRegistered false)
  ∧ findAndAuthenticateConnection σ "a.church.tools" (Some "guess")
      (Some "u1") = AuthConn s.
Proof.
  intros σ rq s.
  apply (proj2 (C9_proxycheck_requires_secret Sample.https_hostname σ rq)
           "a.church.tools" "u1" "guess" s);
    try (vm_compute; reflexivity); try discriminate.
Defined.

(** *** Status codes of the two failure kinds *)

(** C4, as the code has it.  A rejected promise (the correlator's
    timeout) is answered with 504 by both data-path endpoints; a response
    with a false [success] is answered with 502 by [/api/*] and with 500
    by [/discover]; so on each endpoint the two failure kinds have
    different status codes.  The same at the events: the firing of the
    timer of a pending call and the response with a false [success]
    append exactly that reply for the awaiting HTTP request. *)
Theorem C4_failure_status_codes :
  (∀ e msg, status (http_reply e (Rejected msg)) = 504)
  ∧ (∀ r, m_success r = false →
          status (http_reply Api (Resolved r)) = 502
          ∧ status (http_reply Discover (Resolved r)) = 500)
  ∧ (∀ e r msg, m_success r = false →
          status (http_reply e (Resolved r))
          ≠ status (http_reply e (Rejected msg)))
  ∧ (∀ σ n t rq e,
       timers σ !! n = Some t → callers σ !! n = Some (rq, e) →
       n ∉ (settled σ).*1 →
       replies (on_timeout n σ)
       = replies σ ++ [(rq, reply 504 (BErrorMessage "Gateway timeout"
                                                     "Request timeout"))])
  ∧ (∀ σ h r rq e,
       callers σ !! h_call h = Some (rq, e) → h_call h ∉ (settled σ).*1 →
       m_success r = false →
       replies (invoke h r σ)
       = replies σ ++
         [(rq, match e with
               | Api => reply 502 (BErrorMessage "Bad Gateway" (m_error r))
               | Discover =>
                 reply 500 (BErrorMessage "Discovery failed" (m_error r))
               end)]).
Proof.
  split; [by intros [] msg|].
  split; [by intros r Hr; simpl; rewrite Hr|].
  split; [by intros [] r msg Hr; simpl; rewrite Hr|].
  split.
  - intros σ n t rq e Ht Hc Hn. unfold on_timeout, settle. rewrite Ht.
    cbn. rewrite Hc. rewrite bool_decide_eq_false_2 by done.
    by destruct e.
  - intros σ h r rq e Hc Hn Hr. unfold invoke, settle. cbn.
    rewrite Hc. rewrite bool_decide_eq_false_2 by done.
    cbn. destruct e; simpl; by rewrite Hr.
Qed.


(** The agent-reported failure of a [/discover] call is answered with
    500, not 502. *)
Lemma C4_counterexample :
  replies (Sample.run failed_discovery)
  = [(7%nat, reply 500 (BErrorMessage "Discovery failed" "scan failed"))]
  ∧ ¬ (∀ e r, m_success r = false →
              status (http_reply e (Resolved r)) = 502).
Proof.
  split; [vm_compute; reflexivity|].
  intros H.
  specialize (H Discover (Sample.response "discover-response" "req-1" false
                                          None "" "scan failed") eq_refl).
  discriminate H.
Qed.

(** C4 at a pending [/api/*] call whose timer fires. *)
Lemma C4_failure_status_codes_witness :
  let σ := Sample.run
    [WsMessage 1 (Some (Sample.register "a.church.tools" "s1" "u1" false)) 0;
     HttpApi {| req_id := 9; req_method := "GET"; req_url := "/api/t/ping";
                req_headers :=
                  <["onsongip" := "10.0.0.5"]> (<["x-auth" := "s1"]>
                    (<["x-id" := "u1"]>
                       {["referer" := "https://a.church.tools/"]}));
                req_body := "" |}] in
  replies (on_timeout 1 σ)
  = replies σ ++ [(9%nat, reply 504 (BErrorMessage "Gateway timeout"
                                                   "Request timeout"))].
Proof.
  intros σ.
  apply (proj1 (proj2 (proj2 (proj2 C4_failure_status_codes))) σ 1%nat
           {| t_table := 0; t_requestId := "req-1"; t_delay := 30000 |}
           9%nat Api).
  - vm_compute. reflexivity.
  - vm_compute. reflexivity.
  - vm_compute. intros H. inversion H.
Defined.

(** *** The correlator's invariant *)

Lemma settle_fields n o σ :
  timers (settle n o σ) = timers σ
  ∧ tables (settle n o σ) = tables σ
  ∧ requestIdCounter (settle n o σ) = requestIdCounter σ
  ∧ next_table (settle n o σ) = next_table σ
  ∧ registeredKey (settle n o σ) = registeredKey σ
  ∧ settled (settle n o σ) = settled σ ++ [(n, o)].
Proof.
  unfold settle. destruct (callers σ !! n) as [[rq e]|]; [|done].
  by case_bool_decide.
Qed.

Lemma handlers_of_ext σ σ' tb :
  tables σ' = tables σ → handlers_of σ' tb = handlers_of σ tb.
Proof. unfold handlers_of. by intros ->. Qed.

Lemma handlers_of_delete_handler σ tb rid tb' :
  handlers_of (delete_handler tb rid σ) tb'
  = if decide (tb' = tb) then delete rid (handlers_of σ tb)
    else handlers_of σ tb'.
Proof.
  unfold handlers_of, delete_handler. cbn.
  destruct (tables σ !! tb) as [hs|] eqn:Htb.
  - case_decide as Heq.
    + subst tb'. by rewrite lookup_insert_eq.
    + by rewrite lookup_insert_ne.
  - case_decide as Heq; [|done].
    subst tb'. rewrite Htb. simpl. by rewrite delete_empty.
Qed.

Lemma tables_delete_handler_dom σ tb rid tb' :
  is_Some (tables (delete_handler tb rid σ) !! tb')
  ↔ is_Some (tables σ !! tb').
Proof.
  unfold delete_handler. cbn.
  destruct (tables σ !! tb) as [hs|] eqn:Htb; [|done].
  destruct (decide (tb' = tb)) as [->|Hne].
  - rewrite lookup_insert_eq, Htb. split; eauto.
  - by rewrite lookup_insert_ne.
Qed.

Lemma finish_fields n tb rid o σ :
  timers (finish n tb rid o σ) = delete n (timers σ)
  ∧ (∀ tb', handlers_of (finish n tb rid o σ) tb'
            = if decide (tb' = tb) then delete rid (handlers_of σ tb)
              else handlers_of σ tb')
  ∧ (∀ tb', is_Some (tables (finish n tb rid o σ) !! tb')
            ↔ is_Some (tables σ !! tb'))
  ∧ requestIdCounter (finish n tb rid o σ) = requestIdCounter σ
  ∧ next_table (finish n tb rid o σ) = next_table σ
  ∧ connections (finish n tb rid o σ) = connections σ
  ∧ registeredKey (finish n tb rid o σ) = registeredKey σ
  ∧ settled (finish n tb rid o σ) = settled σ ++ [(n, o)].
Proof.
  unfold finish.
  destruct (settle_fields n o
              (delete_handler tb rid (set_timers (delete n) σ)))
    as (Ht & Htb & Hc & Hn & Hk & Hs).
  rewrite Ht, Hc, Hn, Hk, Hs, settle_connections.
  split_and!; try done.
  - intros tb'. rewrite (handlers_of_ext _ _ _ Htb).
    rewrite handlers_of_delete_handler. case_decide; reflexivity.
  - intros tb'. rewrite Htb.
    apply (tables_delete_handler_dom (set_timers (delete n) σ)).
Qed.

Lemma req_id_of_inj n m : req_id_of n = req_id_of m → n = m.
Proof.
  unfold req_id_of. intros H. injection H as H.
  change (pretty n = pretty m) in H. by apply (inj pretty) in H.
Qed.

Lemma fmap_fst_snoc (l : list (nat * Outcome)) n o :
  (l ++ [(n, o)]).*1 = l.*1 ++ [n].
Proof. by rewrite fmap_app. Qed.

(** Settling a pending call, by its handler or by its timer, keeps the
    invariant. *)
Lemma Inv_finish σ n t o :
  Inv σ → timers σ !! n = Some t →
  Inv (finish n (t_table t) (t_requestId t) o σ).
Proof.
  intros HI Ht.
  destruct (finish_fields n (t_table t) (t_requestId t) o σ)
    as (Et & Eh & Edom & Ec & En & Econn & _ & Es).
  destruct (inv_timer σ HI n t Ht) as (Hbound & Hrid & Hh & Hfresh).
  split.
  - intros m t'. rewrite Et, Ec, Es, fmap_fst_snoc, Eh.
    rewrite lookup_delete. case_decide as Hmn; [done|].
    intros Hm.
    destruct (inv_timer σ HI m t' Hm) as (Hb' & Hrid' & Hh' & Hf').
    split; [lia|]. split; [done|]. split.
    + case_decide as Htb; [|done].
      rewrite lookup_delete. case_decide as Hr.
      * exfalso. rewrite Htb, <- Hr, Hh in Hh'. congruence.
      * by rewrite <- Htb.
    + rewrite elem_of_app, list_elem_of_singleton. intros [?|?]; congruence.
  - intros tb rid h. rewrite Eh, Et.
    intros Hl.
    assert (handlers_of σ tb !! rid = Some h
            ∧ ¬ (tb = t_table t ∧ rid = t_requestId t)) as [Hl' Hne].
    { case_decide as Htb.
      - subst tb. rewrite lookup_delete in Hl.
        case_decide; [done|]. split; [done|]. intros [_ ?]; congruence.
      - split; [done|]. intros [? _]; congruence. }
    clear Hl.
    destruct (inv_handler σ HI tb rid h Hl') as (H1 & H2 & t' & Ht' & H3 & H4).
    repeat split; try done.
    exists t'. split; [|done].
    rewrite lookup_delete. case_decide as Hcall; [|done].
    exfalso. apply Hne. rewrite <- Hcall, Ht in Ht'. by injection Ht' as <-.
  - intros m. rewrite Ec, Et, Es, fmap_fst_snoc, elem_of_app,
      list_elem_of_singleton.
    intros Hb. rewrite lookup_delete. case_decide as Hmn; [by right|].
    intros Hm. left. by apply (inv_done σ HI).
  - rewrite Es, fmap_fst_snoc. apply NoDup_app. split; [apply HI|].
    split; [|apply NoDup_singleton].
    intros x Hx ->%list_elem_of_singleton. done.
  - intros m. rewrite Es, Ec, fmap_fst_snoc, elem_of_app,
      list_elem_of_singleton.
    intros [Hm| ->]; [by apply (inv_settled_bound σ HI)|lia].
  - intros tb hs Htb. rewrite En.
    assert (is_Some (tables σ !! tb)) as [hs' Hs'].
    { apply Edom. eauto. }
    by apply (inv_tables σ HI tb hs').
  - intros k s. rewrite Econn, En. apply HI.
Qed.

Lemma Inv_invoke σ tb rid h m :
  Inv σ → handlers_of σ tb !! rid = Some h → Inv (invoke h m σ).
Proof.
  intros HI Hh.
  destruct (inv_handler σ HI tb rid h Hh) as (H1 & H2 & t & Ht & H3 & H4).
  change (invoke h m σ)
    with (finish (h_call h) (h_table h) (h_requestId h) (Resolved m) σ).
  rewrite H1, H2, <- H3, <- H4. by apply Inv_finish.
Qed.

Lemma Inv_on_timeout σ n : Inv σ → Inv (on_timeout n σ).
Proof.
  intros HI. unfold on_timeout.
  destruct (timers σ !! n) as [t|] eqn:Ht; [|done].
  by apply (Inv_finish σ n t).
Qed.

Lemma Inv_on_response σ sock m : Inv σ → Inv (on_response sock m σ).
Proof.
  intros HI. unfold on_response.
  destruct (registeredKey σ !! sock) as [key|]; [|done].
  destruct (connections σ !! key) as [conn|]; [|done].
  destruct (handlers_of σ (requestHandlers conn) !! m_requestId m)
    as [h|] eqn:Hh; [|done].
  by eapply Inv_invoke.
Qed.

(** A state that differs only in the replies, the frames sent, the
    sockets being closed and the awaiting callers keeps the invariant. *)
Lemma Inv_frame σ σ' :
  timers σ' = timers σ → tables σ' = tables σ →
  requestIdCounter σ' = requestIdCounter σ → next_table σ' = next_table σ →
  settled σ' = settled σ → connections σ' = connections σ →
  Inv σ → Inv σ'.
Proof.
  intros Et Etb Ec En Es Econn HI.
  split.
  - intros n t. rewrite Et, Ec, Es, (handlers_of_ext _ _ _ Etb). apply HI.
  - intros tb rid h. rewrite Et, (handlers_of_ext _ _ _ Etb). apply HI.
  - intros n. rewrite Et, Ec, Es. apply HI.
  - rewrite Es. apply HI.
  - intros n. rewrite Ec, Es. apply HI.
  - intros tb hs. rewrite Etb, En. apply HI.
  - intros k s. rewrite Econn, En. apply HI.
Qed.

Lemma Inv_respond σ rq r : Inv σ → Inv (respond rq r σ).
Proof. by apply Inv_frame. Qed.

Lemma Inv_sendToProxy σ conn f d rq e :
  Inv σ → (requestHandlers conn < next_table σ)%nat →
  Inv (sendToProxy conn f d rq e σ).
Proof.
  intros HI Hconn.
  set (n := S (requestIdCounter σ)).
  set (tb := requestHandlers conn).
  assert (∀ tb', handlers_of (sendToProxy conn f d rq e σ) tb'
                 = if decide (tb' = tb)
                   then <[req_id_of n := {| h_call := n; h_table := tb;
                                            h_requestId := req_id_of n |}]>
                          (handlers_of σ tb)
                   else handlers_of σ tb') as Eh.
  { intros tb'. unfold handlers_of at 1. cbn.
    case_decide as Htb.
    - subst tb'. by rewrite lookup_insert_eq.
    - by rewrite lookup_insert_ne. }
  assert (timers (sendToProxy conn f d rq e σ)
          = <[n := {| t_table := tb; t_requestId := req_id_of n;
                      t_delay := d |}]> (timers σ)) as Et by done.
  assert (requestIdCounter (sendToProxy conn f d rq e σ) = n) as Ec by done.
  assert (settled (sendToProxy conn f d rq e σ) = settled σ) as Es by done.
  assert (n ∉ (settled σ).*1) as Hfresh.
  { intros Hn. apply (inv_settled_bound σ HI) in Hn. lia. }
  split.
  - intros m t. rewrite Et, Ec, Es, Eh. rewrite lookup_insert.
    case_decide as Hnm.
    + intros [= <-]. subst m. cbn.
      rewrite decide_True by done. rewrite lookup_insert_eq.
      split; [lia|]. done.
    + intros Hm.
      destruct (inv_timer σ HI m t Hm) as (Hb & Hrid & Hh & Hf).
      split; [lia|]. split; [done|]. split; [|done].
      case_decide as Htb; [|done].
      rewrite lookup_insert_ne; [by rewrite <- Htb|].
      rewrite Hrid. intros ?%req_id_of_inj. done.
  - intros tb' rid h. rewrite Eh, Et.
    case_decide as Htb.
    + rewrite lookup_insert. case_decide as Hr.
      * intros [= <-]. cbn. repeat split; try done.
        eexists. rewrite lookup_insert_eq. done.
      * intros Hl. rewrite <- Htb in Hl.
        destruct (inv_handler σ HI tb' rid h Hl)
          as (H1 & H2 & t & Ht & H3 & H4).
        repeat split; try done. exists t. split; [|done].
        rewrite lookup_insert_ne; [done|].
        destruct (inv_timer σ HI _ _ Ht) as (Hb & _). lia.
    + intros Hl.
      destruct (inv_handler σ HI tb' rid h Hl)
        as (H1 & H2 & t & Ht & H3 & H4).
      repeat split; try done. exists t. split; [|done].
      rewrite lookup_insert_ne; [done|].
      destruct (inv_timer σ HI _ _ Ht) as (Hb & _). lia.
  - intros m. rewrite Ec, Et, Es. intros Hb.
    rewrite lookup_insert. case_decide as Hnm; [done|].
    intros Hm. apply (inv_done σ HI); [lia|done].
  - rewrite Es. apply HI.
  - intros m. rewrite Es, Ec. intros Hm.
    apply (inv_settled_bound σ HI) in Hm. lia.
  - intros tb' hs. cbn. rewrite lookup_insert.
    case_decide as Htb; [intros _; by subst tb'|]. apply HI.
  - intros k s. cbn. apply HI.
Qed.

Lemma on_register_fields sock m now σ :
  valid_registration m = true →
  ∃ s, connections (on_register sock m now σ)
       = <[key_of m := s]> (connections σ)
     ∧ ws s = sock ∧ requestHandlers s = next_table σ
     ∧ registeredKey (on_register sock m now σ)
       = <[sock := key_of m]> (registeredKey σ)
     ∧ tables (on_register sock m now σ) = <[next_table σ := ∅]> (tables σ)
     ∧ next_table (on_register sock m now σ) = S (next_table σ)
     ∧ timers (on_register sock m now σ) = timers σ
     ∧ requestIdCounter (on_register sock m now σ) = requestIdCounter σ
     ∧ settled (on_register sock m now σ) = settled σ.
Proof.
  unfold valid_registration, on_register. intros H.
  destruct (JS.truthy (m_churchToolsUrl m)), (JS.truthy (m_secret m)),
    (JS.truthy (m_uuid m)); simpl in *; try done.
  eexists. split; [reflexivity|]. done.
Qed.

Lemma on_register_invalid_fields sock m now σ :
  valid_registration m = false →
  on_register sock m now σ
  = close sock (send sock (FError "Missing churchToolsUrl, secret, or uuid") σ).
Proof.
  unfold valid_registration, on_register. intros H.
  destruct (JS.truthy (m_churchToolsUrl m)), (JS.truthy (m_secret m)),
    (JS.truthy (m_uuid m)); simpl in *; done.
Qed.

Lemma Inv_on_register σ sock m now : Inv σ → Inv (on_register sock m now σ).
Proof.
  intros HI.
  destruct (valid_registration m) eqn:Hv.
  2:{ rewrite on_register_invalid_fields by done. by apply (Inv_frame σ). }
  destruct (on_register_fields sock m now σ Hv)
    as (s & Econn & _ & Hs & _ & Etb & En & Et & Ec & Es).
  assert (tables σ !! next_table σ = None) as Hfree.
  { destruct (tables σ !! next_table σ) as [hs|] eqn:Hhs; [|done].
    apply (inv_tables σ HI) in Hhs. lia. }
  assert (∀ tb, handlers_of (on_register sock m now σ) tb = handlers_of σ tb)
    as Eh.
  { intros tb. unfold handlers_of. rewrite Etb.
    destruct (decide (tb = next_table σ)) as [->|Hne].
    - by rewrite lookup_insert_eq, Hfree.
    - by rewrite lookup_insert_ne. }
  split.
  - intros n t. rewrite Et, Ec, Es, Eh. apply HI.
  - intros tb rid h. rewrite Et, Eh. apply HI.
  - intros n. rewrite Et, Ec, Es. apply HI.
  - rewrite Es. apply HI.
  - intros n. rewrite Ec, Es. apply HI.
  - intros tb hs. rewrite Etb, En, lookup_insert. case_decide; [lia|].
    intros H'%(inv_tables σ HI). lia.
  - intros k s'. rewrite Econn, En, lookup_insert. case_decide.
    + intros [= <-]. lia.
    + intros H'%(inv_sessions σ HI). lia.
Qed.

Lemma Inv_on_close σ sock : Inv σ → Inv (on_close sock σ).
Proof.
  intros HI. unfold on_close.
  destruct (registeredKey σ !! sock) as [key|]; [|done].
  split; try apply HI.
  intros k s. cbn. rewrite lookup_delete. case_decide; [done|]. apply HI.
Qed.

Lemma Inv_init : Inv init.
Proof.
  split; cbn; try done.
  - intros n. lia.
  - apply NoDup_nil_2.
  - intros n Hn. by apply elem_of_nil in Hn.
Qed.

Lemma findAndAuthenticateConnection_conn σ host x u conn :
  findAndAuthenticateConnection σ host x u = AuthConn conn →
  connections σ !! connectionKey host (JS.template u) = Some conn.
Proof.
  unfold findAndAuthenticateConnection.
  destruct (negb (JS.truthy u)); [done|].
  destruct (connections σ !! _) as [s|]; [|done].
  destruct (_ && _); [done|]. by intros [= ->].
Qed.

Lemma is_response_not_register m :
  is_response m = true → String.eqb (m_type m) "register" = false.
Proof.
  unfold is_response. intros [H|H]%orb_prop; apply String.eqb_eq in H;
    by rewrite H.
Qed.

Section Correlator.

Variable url_hostname : string → option string.
Variable parseInt : string → option Z.

Abbreviation run := (run url_hostname parseInt).
Abbreviation step := (step url_hostname parseInt).

Lemma Inv_step σ ev : Inv σ → Inv (step σ ev).
Proof.
  intros HI. destruct ev as [rq|rq|rq|sock data now|sock|n]; cbn [Relay.step].
  - by apply Inv_respond.
  - unfold discover.
    repeat (case_match; try by apply Inv_respond).
    apply Inv_sendToProxy; [done|].
    eapply inv_sessions; [done|].
    by eapply findAndAuthenticateConnection_conn.
  - unfold api.
    repeat (case_match; try by apply Inv_respond);
      (apply Inv_sendToProxy; [done|];
       eapply inv_sessions; [done|];
       by eapply findAndAuthenticateConnection_conn).
  - destruct data as [m|]; cbn [on_message]; [|done].
    destruct (String.eqb (m_type m) "register");
      [by apply Inv_on_register|].
    destruct (_ || _); [by apply Inv_on_response | done].
  - by apply Inv_on_close.
  - by apply Inv_on_timeout.
Qed.

Lemma Inv_reachable evs : Inv (run init evs).
Proof.
  apply (run_invariant url_hostname parseInt); [apply Inv_init|].
  apply Inv_step.
Qed.

(** C1, as the code has it.  On every reachable state of the relay:
    - a response that arrives on a socket whose [registeredKey] names a
      Session holding a pending entry under the response's [requestId]
      finds the entry's timer armed, cancels it, removes the entry and
      resolves the caller with that response;
    - an armed timer that fires finds its entry pending, removes it and
      rejects the caller with "Request timeout";
    - a response that finds no entry in the table of the Session named
      by the socket's [registeredKey] (or no such Session) leaves the
      state as it is, and so does the firing of a timer that is not
      armed;
    - no call is settled twice, and every call issued so far is either
      pending (entry and armed timer, not settled) or settled (neither
      entry nor timer). *)
Theorem C1_pending_entry_destroyed_once (evs : list Event) :
  (∀ sock key conn h m now,
     registeredKey (run init evs) !! sock = Some key →
     connections (run init evs) !! key = Some conn →
     handlers_of (run init evs) (requestHandlers conn) !! m_requestId m
       = Some h →
     is_response m = true →
     is_Some (timers (run init evs) !! h_call h)
     ∧ timers (step (run init evs) (WsMessage sock (Some m) now)) !! h_call h
       = None
     ∧ handlers_of (step (run init evs) (WsMessage sock (Some m) now))
         (requestHandlers conn) !! m_requestId m = None
     ∧ settled (step (run init evs) (WsMessage sock (Some m) now))
       = settled (run init evs) ++ [(h_call h, Resolved m)])
  ∧ (∀ n t,
     timers (run init evs) !! n = Some t →
     is_Some (handlers_of (run init evs) (t_table t) !! t_requestId t)
     ∧ timers (step (run init evs) (TimerFires n)) !! n = None
     ∧ handlers_of (step (run init evs) (TimerFires n)) (t_table t)
         !! t_requestId t = None
     ∧ settled (step (run init evs) (TimerFires n))
       = settled (run init evs) ++ [(n, Rejected "Request timeout")])
  ∧ (∀ sock m now,
     is_response m = true →
     (∀ key conn,
        registeredKey (run init evs) !! sock = Some key →
        connections (run init evs) !! key = Some conn →
        handlers_of (run init evs) (requestHandlers conn) !! m_requestId m
          = None) →
     step (run init evs) (WsMessage sock (Some m) now) = run init evs)
  ∧ (∀ n, timers (run init evs) !! n = None →
          step (run init evs) (TimerFires n) = run init evs)
  ∧ NoDup (settled (run init evs)).*1
  ∧ (∀ n, (1 ≤ n ≤ requestIdCounter (run init evs))%nat →
       (is_Some (timers (run init evs) !! n)
        ∧ (∃ tb, is_Some (handlers_of (run init evs) tb !! req_id_of n))
        ∧ n ∉ (settled (run init evs)).*1)
       ∨ (timers (run init evs) !! n = None
          ∧ (∀ tb rid h, handlers_of (run init evs) tb !! rid = Some h →
                         h_call h ≠ n)
          ∧ n ∈ (settled (run init evs)).*1)).
Proof.
  pose proof (Inv_reachable evs) as HI.
  set (σ := run init evs) in *.
  split_and!.
  - intros sock key conn h m now Hk Hc Hh Hm.
    destruct (inv_handler σ HI _ _ _ Hh) as (H1 & H2 & t & Ht & H3 & H4).
    cbn [Relay.step on_message].
    rewrite (is_response_not_register m Hm).
    unfold is_response in Hm. rewrite Hm.
    unfold on_response. rewrite Hk, Hc, Hh.
    change (invoke h m σ)
      with (finish (h_call h) (h_table h) (h_requestId h) (Resolved m) σ).
    destruct (finish_fields (h_call h) (h_table h) (h_requestId h)
                (Resolved m) σ) as (Et & Eh & _ & _ & _ & _ & _ & Es).
    rewrite Et, Eh, Es, H1, H2.
    split_and!; [by eexists | by rewrite lookup_delete_eq | | done].
    rewrite decide_True by done. by rewrite lookup_delete_eq.
  - intros n t Ht.
    destruct (inv_timer σ HI _ _ Ht) as (_ & _ & Hh & _).
    cbn [Relay.step]. unfold on_timeout. rewrite Ht.
    change (settle n ?o (delete_handler ?tb ?rid (set_timers (delete n) σ)))
      with (finish n tb rid o σ).
    destruct (finish_fields n (t_table t) (t_requestId t)
                (Rejected "Request timeout") σ)
      as (Et & Eh & _ & _ & _ & _ & _ & Es).
    rewrite Et, Eh, Es.
    split_and!; [by eexists | by rewrite lookup_delete_eq | | done].
    rewrite decide_True by done. by rewrite lookup_delete_eq.
  - intros sock m now Hm Hnone.
    cbn [Relay.step on_message].
    rewrite (is_response_not_register m Hm).
    unfold is_response in Hm. rewrite Hm.
    unfold on_response.
    destruct (registeredKey σ !! sock) as [key|] eqn:Hk; [|done].
    destruct (connections σ !! key) as [conn|] eqn:Hc; [|done].
    by rewrite (Hnone key conn eq_refl Hc).
  - intros n Hn. cbn [Relay.step]. unfold on_timeout. by rewrite Hn.
  - apply HI.
  - intros n Hn.
    destruct (timers σ !! n) as [t|] eqn:Ht.
    + left. destruct (inv_timer σ HI _ _ Ht) as (_ & Hrid & Hh & Hf).
      split_and!; [by eexists | | done].
      exists (t_table t). rewrite <- Hrid. by eexists.
    + right. split_and!; [done | | by apply (inv_done σ HI)].
      intros tb rid h Hh Hcall.
      destruct (inv_handler σ HI _ _ _ Hh) as (_ & _ & t & Ht' & _).
      congruence.
Qed.

End Correlator.

(** C1 at a pending [/discover] call answered by the registered proxy. *)
Lemma C1_pending_entry_destroyed_once_witness :
  let evs :=
    [WsMessage 1 (Some (Sample.register "a.church.tools" "s1" "u1" false)) 0;
     HttpDiscover (Sample.tenant_request 7 "/discover"
                     "https://a.church.tools/" (Some "s1") "u1")] in
  let m := Sample.response "discover-response" "req-1" true None "[]" "" in
  is_Some (timers (Sample.run evs) !! 1%nat)
  ∧ timers (Relay.step Sample.https_hostname Sample.parseInt
              (Sample.run evs) (WsMessage 1 (Some m) 5)) !! 1%nat = None
  ∧ handlers_of (Relay.step Sample.https_hostname Sample.parseInt
                   (Sample.run evs) (WsMessage 1 (Some m) 5)) 0 !! "req-1"
    = None
  ∧ settled (Relay.step Sample.https_hostname Sample.parseInt
               (Sample.run evs) (WsMessage 1 (Some m) 5))
    = settled (Sample.run evs) ++ [(1%nat, Resolved m)].
Proof.
  intros evs m.
  apply (proj1 (C1_pending_entry_destroyed_once Sample.https_hostname
                  Sample.parseInt evs)
           1%nat "a.church.tools:u1"
           {| churchToolsUrl := "a.church.tools"; secret := "s1";
              uuid := "u1"; location := ""; public := false; ws := 1%nat;
              requestHandlers := 0%nat; registeredAt := 0;
              proxyVersion := "2.0.0" |}
           {| h_call := 1; h_table := 0; h_requestId := "req-1" |} m 5);
    vm_compute; reflexivity.
Defined.

(** The counterexample to C1 as stated.  After the proxy registered
    again on socket 2, call 1 is still pending (its timer is armed, its
    entry sits in the table of the replaced Session), and the response
    carrying [req-1] that arrives then, before the timeout, is dropped:
    nobody is settled, the timer stays armed, the entry stays. *)
Lemma C1_counterexample :
  let before := Sample.run (take 3 answered_after_reregistration) in
  let after := Sample.run answered_after_reregistration in
  timers before !! 1%nat
    = Some {| t_table := 0; t_requestId := "req-1"; t_delay := 30000 |}
  ∧ handlers_of before 0 !! "req-1"
    = Some {| h_call := 1; h_table := 0; h_requestId := "req-1" |}
  ∧ settled after = []
  ∧ timers after !! 1%nat
    = Some {| t_table := 0; t_requestId := "req-1"; t_delay := 30000 |}
  ∧ handlers_of after 0 !! "req-1"
    = Some {| h_call := 1; h_table := 0; h_requestId := "req-1" |}
  ∧ settled (Relay.on_timeout 1 after)
    = [(1%nat, Rejected "Request timeout")].
Proof. vm_compute. repeat split; reflexivity. Qed.

(** *** The registry *)

(** A valid registration installs, under its key, a Session of the
    registering socket with a fresh, empty table of pending requests,
    and leaves every other key as it was. *)
Lemma register_installs_session σ sock m now :
  Inv σ → valid_registration m = true →
  ∃ s, connections (on_register sock m now σ) !! key_of m = Some s
       ∧ ws s = sock
       ∧ handlers_of (on_register sock m now σ) (requestHandlers s) = ∅
       ∧ (∀ k' s', connections σ !! k' = Some s' →
                   requestHandlers s' ≠ requestHandlers s)
       ∧ (∀ k', k' ≠ key_of m →
                connections (on_register sock m now σ) !! k'
                = connections σ !! k').
Proof.
  intros HI Hv.
  destruct (on_register_fields sock m now σ Hv)
    as (s & Econn & Hws & Hs & _ & Etb & _).
  exists s. rewrite Econn. split_and!.
  - by rewrite lookup_insert_eq.
  - done.
  - unfold handlers_of. by rewrite Etb, Hs, lookup_insert_eq.
  - intros k' s' Hk'. apply (inv_sessions σ HI) in Hk'. lia.
  - intros k' Hne. by rewrite lookup_insert_ne.
Qed.

(** The registry entry of a key changes only by a valid registration
    for that key or by the close of a socket whose latest registration
    was for that key. *)
Lemma lookup_stable url_hostname parseInt σ ev k :
  (∀ sock m now, ev = WsMessage sock (Some m) now →
                 String.eqb (m_type m) "register" = true →
                 valid_registration m = true → key_of m ≠ k) →
  (∀ sock, ev = WsClose sock → registeredKey σ !! sock ≠ Some k) →
  connections (Relay.step url_hostname parseInt σ ev) !! k
  = connections σ !! k.
Proof.
  intros Hreg Hclose.
  destruct ev as [rq|rq|rq|sock data now|sock|n]; cbn [Relay.step].
  - done.
  - by rewrite discover_connections.
  - by rewrite api_connections.
  - destruct data as [m|]; cbn [on_message]; [|done].
    destruct (String.eqb (m_type m) "register") eqn:Ht.
    + destruct (valid_registration m) eqn:Hv.
      * destruct (on_register_fields sock m now σ Hv) as (s & -> & _).
        rewrite lookup_insert_ne; [done|]. by eapply Hreg.
      * by rewrite on_register_invalid.
    + destruct (_ || _); [|done]. by rewrite on_response_connections.
  - unfold on_close.
    destruct (registeredKey σ !! sock) as [key|] eqn:Hk; [|done].
    cbn. rewrite lookup_delete_ne; [done|].
    intros ->. by eapply Hclose.
  - by rewrite on_timeout_connections.
Qed.

(** C3 at its failing input.  The proxy registered on socket 1 and
    again, after a reconnect, on socket 2: the registry holds the
    Session of socket 2.  When socket 1 closes, the close handler deletes
    the entry of its [registeredKey], which is the Session of socket 2:
    the lookup finds nothing although socket 2 is open and no later
    registration replaced its Session. *)
Theorem C3_stale_close_removes_live_session :
  connections (Sample.run (take 2 stale_close)) !! "a.church.tools:u1"
  = Some {| churchToolsUrl := "a.church.tools"; secret := "s1";
            uuid := "u1"; location := ""; public := false; ws := 2%nat;
            requestHandlers := 1%nat; registeredAt := 3;
            proxyVersion := "2.0.0" |}
  ∧ connections (Sample.run stale_close) !! "a.church.tools:u1" = None.
Proof. vm_compute. split; reflexivity. Qed.

End RelayFacts.
(** ** The relay: further properties *)

Module RelayMoreFacts.

Import Relay RelaySpec RelayMore RelayFacts.

(** *** Registration *)

(** X1.  A register message that lacks a churchToolsUrl, a secret or a
    uuid (absent or empty) is answered with an error frame and the
    socket is closed; the registry, the socket's registered key and the
    pending-request tables stay as they were, so a socket that had
    registered before keeps its Session until its close event. *)
Theorem X1_invalid_registration_rejected
    (σ : State) (sock : nat) (m : Message) (now : Z) :
  m_type m = "register" → valid_registration m = false →
  connections (on_message sock (Some m) now σ) = connections σ
  ∧ registeredKey (on_message sock (Some m) now σ) = registeredKey σ
  ∧ tables (on_message sock (Some m) now σ) = tables σ
  ∧ outbox (on_message sock (Some m) now σ)
    = outbox σ ++ [(sock, FError "Missing churchToolsUrl, secret, or uuid")]
  ∧ closing (on_message sock (Some m) now σ) = closing σ ++ [sock].
Proof.
  intros Hty Hv. cbn [on_message]. rewrite Hty. cbn.
  by rewrite on_register_invalid_fields.
Qed.

(** X1 at a register message without a secret. *)
Lemma X1_invalid_registration_rejected_witness :
  let m := {| m_type := "register"; m_requestId := "undefined";
              m_churchToolsUrl := Some "a.church.tools"; m_secret := None;
              m_uuid := Some "u1"; m_location := None; m_public := None;
              m_proxyVersion := None; m_success := false;
              m_statusCode := None; m_headers := []; m_payload := "";
              m_error := "" |} in
  connections (on_message 4 (Some m) 0 init) = connections init
  ∧ registeredKey (on_message 4 (Some m) 0 init) = registeredKey init
  ∧ tables (on_message 4 (Some m) 0 init) = tables init
  ∧ outbox (on_message 4 (Some m) 0 init)
    = outbox init ++ [(4%nat, FError "Missing churchToolsUrl, secret, or uuid")]
  ∧ closing (on_message 4 (Some m) 0 init) = closing init ++ [4%nat].
Proof.
  intros m.
  apply (X1_invalid_registration_rejected init 4 m 0); reflexivity.
Defined.

Section Registry.

Variable url_hostname : string → option string.
Variable parseInt : string → option Z.

Abbreviation run := (Relay.run url_hostname parseInt).
Abbreviation step := (Relay.step url_hostname parseInt).

Lemma step_register σ sock m now :
  m_type m = "register" →
  step σ (WsMessage sock (Some m) now) = on_register sock m now σ.
Proof. intros Hty. cbn [Relay.step on_message]. by rewrite Hty. Qed.

(** X2.  On a reachable state, a register message with the three
    required fields stores, under the key built from its churchToolsUrl
    and uuid, a Session of the registering socket that carries the
    message's secret, is public only if the message says so, and has a
    table of pending requests that is empty and shared with no Session
    stored before; the socket's registered key becomes that key, the
    socket is told "registered", and every other key keeps its entry. *)
Theorem X2_registration_installs_session
    (evs : list Event) (sock : nat) (m : Message) (now : Z) :
  m_type m = "register" → valid_registration m = true →
  ∃ s,
    connections (step (run init evs) (WsMessage sock (Some m) now))
      !! key_of m = Some s
    ∧ ws s = sock
    ∧ Some (secret s) = m_secret m
    ∧ public s = default false (m_public m)
    ∧ handlers_of (step (run init evs) (WsMessage sock (Some m) now))
        (requestHandlers s) = ∅
    ∧ (∀ k' s', connections (run init evs) !! k' = Some s' →
                requestHandlers s' ≠ requestHandlers s)
    ∧ registeredKey (step (run init evs) (WsMessage sock (Some m) now))
        !! sock = Some (key_of m)
    ∧ outbox (step (run init evs) (WsMessage sock (Some m) now))
      = outbox (run init evs)
        ++ [(sock, FRegistered "Successfully registered")]
    ∧ ∀ k', k' ≠ key_of m →
            connections (step (run init evs) (WsMessage sock (Some m) now))
              !! k'
            = connections (run init evs) !! k'.
Proof.
  intros Hty Hv.
  pose proof (Inv_reachable url_hostname parseInt evs) as HI.
  set (σ := run init evs) in *.
  rewrite (step_register σ sock m now Hty).
  destruct (register_installs_session σ sock m now HI Hv)
    as (s & Hs & Hws & Hh & Hfresh & Hother).
  exists s. split_and!; try done.
  - pose proof Hv as Hv'. unfold valid_registration in Hv'.
    apply andb_prop in Hv' as [Hv' _]. apply andb_prop in Hv' as [_ Hsec].
    apply truthy_Some_nonempty in Hsec as (x & Hx & _).
    destruct (on_register_valid sock m now σ Hv) as (s' & E & Hsec' & _).
    rewrite E, lookup_insert_eq in Hs. injection Hs as <-.
    by rewrite Hsec', Hx.
  - destruct (on_register_valid sock m now σ Hv) as (s' & E & _ & Hp & _).
    rewrite E, lookup_insert_eq in Hs. by injection Hs as <-.
  - destruct (on_register_fields sock m now σ Hv)
      as (s' & _ & _ & _ & -> & _).
    by rewrite lookup_insert_eq.
  - unfold on_register. unfold valid_registration in Hv.
    destruct (JS.truthy (m_churchToolsUrl m)), (JS.truthy (m_secret m)),
      (JS.truthy (m_uuid m)); simpl in *; done.
Qed.

(** X3.  Only a register message and a close event change the registry
    or a socket's registered key: an HTTP request, a response or any
    other message of a proxy, an unparsable frame and a timeout leave
    both as they are. *)
Theorem X3_registry_changes_only_by_register_or_close
    (σ : State) (ev : Event) :
  leaves_registry ev = true →
  connections (step σ ev) = connections σ
  ∧ registeredKey (step σ ev) = registeredKey σ.
Proof.
  intros Hev.
  destruct ev as [rq|rq|rq|sock data now|sock|n]; cbn [Relay.step].
  - done.
  - split; [apply discover_connections|].
    unfold discover. by repeat case_match.
  - split; [apply api_connections|].
    unfold api. by repeat case_match.
  - destruct data as [m|]; cbn [on_message]; [|done].
    cbn in Hev. apply negb_true_iff in Hev. rewrite Hev.
    destruct (_ || _); [|done].
    split; [apply on_response_connections|].
    unfold on_response. repeat case_match; try done.
    unfold invoke. by destruct (settle_fields (h_call h) (Resolved m)
      (delete_handler (h_table h) (h_requestId h)
         (clearTimeout (h_call h) σ))) as (_ & _ & _ & _ & -> & _).
  - done.
  - split; [apply on_timeout_connections|].
    unfold on_timeout. case_match; [|done].
    by destruct (settle_fields n (Rejected "Request timeout")
      (delete_handler (t_table t) (t_requestId t)
         (set_timers (delete n) σ))) as (_ & _ & _ & _ & -> & _).
Qed.

End Registry.

(** *** The data path *)

Lemma auth_cases σ host x u :
  (∃ e st, findAndAuthenticateConnection σ host x u = AuthError e st
           ∧ (st = 401 ∨ st = 403))
  ∨ (∃ conn, findAndAuthenticateConnection σ host x u = AuthConn conn
             ∧ connections σ !! connectionKey host (JS.template u) = Some conn
             ∧ (public conn = true ∨ x = Some (secret conn))).
Proof.
  unfold findAndAuthenticateConnection.
  destruct (negb (JS.truthy u)); [left; eauto|].
  destruct (connections σ !! _) as [conn|]; [|left; eauto 6].
  destruct (public conn) eqn:Hp; cbn.
  - right. exists conn. eauto.
  - destruct (JS.strict_eq x (secret conn)) eqn:Hx; cbn.
    + right. exists conn. apply strict_eq_true in Hx. eauto.
    + left. eauto 6.
Qed.

Section DataPath.

Variable url_hostname : string → option string.
Variable parseInt : string → option Z.

Abbreviation step := (Relay.step url_hostname parseInt).
Abbreviation run := (Relay.run url_hostname parseInt).

(** The two ways a data-path request goes, with all the handlers leave
    behind. *)
Lemma data_path_cases (σ : State) (ev : Event) (rq : Request) (e : Endpoint) :
  data_path ev = Some (rq, e) →
  (∃ r, step σ ev = respond (req_id rq) r σ
        ∧ (status r = 400 ∨ status r = 401 ∨ status r = 403))
  ∨ (∃ k conn frame,
       connections σ !! k = Some conn
       ∧ (public conn = true
          ∨ req_headers rq !! "x-auth" = Some (secret conn))
       ∧ sent_id (ws conn, frame (req_id_of (S (requestIdCounter σ))))
         = Some (req_id_of (S (requestIdCounter σ)))
       ∧ step σ ev = sendToProxy conn frame 30000 (req_id rq) e σ).
Proof.
  intros Hev.
  destruct ev as [rq'|rq'|rq'|sock data now|sock|n]; try done;
    injection Hev as -> <-; cbn [Relay.step].
  - unfold discover.
    destruct (negb (JS.truthy (req_headers rq !! "x-id")));
      [left; eexists; split; [reflexivity|]; auto|].
    destruct (negb (JS.truthy (getChurchToolsUrl url_hostname _)));
      [left; eexists; split; [reflexivity|]; auto|].
    match goal with
    | |- context [findAndAuthenticateConnection ?s ?h ?x ?u] =>
      destruct (auth_cases s h x u)
        as [(err & st & -> & Hst)|(conn & -> & Hk & Hok)]
    end.
    + left. eexists. split; [reflexivity|].
      cbn. destruct Hst as [->| ->]; auto.
    + right. eexists _, conn, _. split; [exact Hk|]. split; [exact Hok|].
      split; [|reflexivity]. done.
  - unfold api.
    destruct (negb (JS.truthy (req_headers rq !! "x-id")));
      [left; eexists; split; [reflexivity|]; auto|].
    destruct (negb (JS.truthy (req_headers rq !! "onsongip")));
      [left; eexists; split; [reflexivity|]; auto|].
    destruct (negb (JS.truthy (getChurchToolsUrl url_hostname _)));
      [left; eexists; split; [reflexivity|]; auto|].
    match goal with
    | |- context [findAndAuthenticateConnection ?s ?h ?x ?u] =>
      destruct (auth_cases s h x u)
        as [(err & st & -> & Hst)|(conn & -> & Hk & Hok)]
    end.
    + left. eexists. split; [reflexivity|].
      cbn. destruct Hst as [->| ->]; auto.
    + right. eexists _, conn, _. split; [exact Hk|]. split; [exact Hok|].
      split; [|reflexivity]. done.
Qed.

(** X4.  A [/discover] or [/api/*] request is either answered at once
    with 400, 401 or 403, and then nothing is sent to any proxy and no
    pending entry, timer or request id is spent; or it passed the
    authentication check of a registered Session (public, or the
    presented secret is the Session's), and then it is not answered
    yet: exactly one frame goes to that Session's socket, carrying a
    request id not used before, a timer of 30 seconds is armed for it,
    and the request is parked as the caller of that call. *)
Theorem X4_rejected_request_reaches_no_proxy
    (σ : State) (ev : Event) (rq : Request) (e : Endpoint) :
  data_path ev = Some (rq, e) →
  (∃ r, replies (step σ ev) = replies σ ++ [(req_id rq, r)]
        ∧ (status r = 400 ∨ status r = 401 ∨ status r = 403)
        ∧ untouched σ (step σ ev))
  ∨ (∃ k conn frame,
       connections σ !! k = Some conn
       ∧ (public conn = true
          ∨ req_headers rq !! "x-auth" = Some (secret conn))
       ∧ replies (step σ ev) = replies σ
       ∧ outbox (step σ ev) = outbox σ ++ [(ws conn, frame)]
       ∧ sent_id (ws conn, frame)
         = Some (req_id_of (S (requestIdCounter σ)))
       ∧ requestIdCounter (step σ ev) = S (requestIdCounter σ)
       ∧ timers (step σ ev)
         = <[S (requestIdCounter σ) :=
               {| t_table := requestHandlers conn;
                  t_requestId := req_id_of (S (requestIdCounter σ));
                  t_delay := 30000 |}]> (timers σ)
       ∧ callers (step σ ev) !! S (requestIdCounter σ)
         = Some (req_id rq, e)).
Proof.
  intros Hev.
  destruct (data_path_cases σ ev rq e Hev)
    as [(r & -> & Hst)|(k & conn & frame & Hk & Hok & Hid & ->)].
  - left. exists r. done.
  - right. exists k, conn, (frame (req_id_of (S (requestIdCounter σ)))).
    split_and!; try done. cbn. by rewrite lookup_insert_eq.
Qed.

(** X5.  The frame [/api/*] sends to the proxy carries the request's
    method and URL, the [ONSONGIP] header as target address, port 80
    when there is no [ONSONGPORT] header, and the request's headers
    without [x-auth], [onsongip], [host], [referer] and [referrer]:
    the tenant's secret never travels to the proxy, every other header
    (also [x-id] and [onsongport]) does. *)
Theorem X5_api_frame_strips_credentials
    (σ : State) (rq : Request) (sock : nat) (data : ApiData)
    (requestId : string) :
  outbox (step σ (HttpApi rq))
  = outbox σ ++ [(sock, FApiRequest data requestId)] →
  method data = req_method rq
  ∧ path data = req_url rq
  ∧ api_body data = req_body rq
  ∧ req_headers rq !! "onsongip" = Some (targetIp data)
  ∧ (req_headers rq !! "onsongport" = None → targetPort data = Some 80)
  ∧ (∀ p, req_headers rq !! "onsongport" = Some p → p ≠ "" →
          targetPort data = parseInt p)
  ∧ (∀ h, h ∈ ["x-auth"; "onsongip"; "host"; "referer"; "referrer"] →
          fwd_headers data !! h = None)
  ∧ (∀ h, h ∉ ["x-auth"; "onsongip"; "host"; "referer"; "referrer"] →
          fwd_headers data !! h = req_headers rq !! h).
Proof.
  cbn [Relay.step]. unfold api.
  assert (∀ (l : list (nat * Frame)) x, l = l ++ [x] → False) as Hno.
  { intros l x H. apply (f_equal length) in H.
    rewrite length_app in H. cbn in H. lia. }
  destruct (negb (JS.truthy (req_headers rq !! "x-id")));
    [by intros ?%Hno|].
  destruct (JS.truthy (req_headers rq !! "onsongip")) eqn:Hip; cbn [negb];
    [|by intros ?%Hno].
  destruct (negb (JS.truthy (getChurchToolsUrl url_hostname _)));
    [by intros ?%Hno|].
  destruct (findAndAuthenticateConnection σ _ _ _) as [err st|conn];
    [by intros ?%Hno|].
  cbn. intros H. apply app_inv_head in H. injection H as _ <-.
  apply truthy_Some_nonempty in Hip as (ip & Hip & _).
  cbn. split_and!; try done.
  - by rewrite Hip.
  - by intros ->.
  - intros p -> Hp.
    assert (negb (String.eqb p "") = true) as ->; [|done].
    apply negb_true_iff. by apply String.eqb_neq.
  - intros h Hh. repeat (apply elem_of_cons in Hh as [->|Hh]);
      [..|by apply elem_of_nil in Hh];
      rewrite ?lookup_delete_eq;
      repeat (rewrite lookup_delete_ne by done; rewrite ?lookup_delete_eq);
      done.
  - intros h Hh.
    rewrite !lookup_delete_ne; [done|..];
      intros <-; apply Hh; repeat constructor.
Qed.

Lemma sent_ids_snoc σ σ' x :
  outbox σ' = outbox σ ++ [x] →
  sent_ids σ' = sent_ids σ ++ from_option (λ i, [i]) [] (sent_id x).
Proof.
  unfold sent_ids. intros ->. rewrite omap_app. cbn.
  by destruct (sent_id x).
Qed.

(** X6.  On every reachable state the request ids of the frames sent
    to proxies are, in order, [req-1], [req-2], ... up to the request
    counter: no request id is ever used twice, on one connection or
    across connections. *)
Theorem X6_request_ids_never_reused (evs : list Event) :
  sent_ids (run init evs)
  = req_id_of <$> seq 1 (requestIdCounter (run init evs))
  ∧ NoDup (sent_ids (run init evs)).
Proof.
  assert (sent_ids (run init evs)
          = req_id_of <$> seq 1 (requestIdCounter (run init evs))) as E.
  { induction evs as [|ev evs IH] using rev_ind; [done|].
    rewrite (run_snoc url_hostname parseInt).
    set (σ := run init evs) in *.
    assert (∀ σ', outbox σ' = outbox σ →
                  requestIdCounter σ' = requestIdCounter σ →
                  sent_ids σ' = req_id_of <$> seq 1 (requestIdCounter σ'))
      as Hsame.
    { intros σ' Ho Hc. unfold sent_ids in *. by rewrite Ho, Hc. }
    assert (∀ σ' sock f, outbox σ' = outbox σ ++ [(sock, f)] →
                  sent_id (sock, f) = None →
                  requestIdCounter σ' = requestIdCounter σ →
                  sent_ids σ' = req_id_of <$> seq 1 (requestIdCounter σ'))
      as Hplain.
    { intros σ' sock f Ho Hf Hc.
      rewrite (sent_ids_snoc σ σ' _ Ho), Hf, Hc. cbn.
      by rewrite app_nil_r. }
    destruct (data_path ev) as [[rq e]|] eqn:Hdp.
    - destruct (data_path_cases σ ev rq e Hdp)
        as [(r & -> & _)|(k & conn & frame & _ & _ & Hid & ->)].
      + by apply Hsame.
      + rewrite (sent_ids_snoc σ _ (ws conn,
                   frame (req_id_of (S (requestIdCounter σ))))) by done.
        rewrite Hid, IH.
        change (requestIdCounter (sendToProxy conn frame 30000 (req_id rq) e
                                    σ)) with (S (requestIdCounter σ)).
        by rewrite seq_S, fmap_app.
    - destruct ev as [rq|rq|rq|sock data now|sock|n]; try done;
        cbn [Relay.step].
      + destruct data as [m|]; cbn [on_message]; [|done].
        destruct (String.eqb (m_type m) "register").
        * destruct (valid_registration m) eqn:Hv.
          -- apply (Hplain _ sock (FRegistered "Successfully registered"));
               [|done|].
             ++ unfold on_register. unfold valid_registration in Hv.
                destruct (JS.truthy (m_churchToolsUrl m)),
                  (JS.truthy (m_secret m)), (JS.truthy (m_uuid m));
                  simpl in *; done.
             ++ by destruct (on_register_fields sock m now σ Hv)
                  as (s & _ & _ & _ & _ & _ & _ & _ & -> & _).
          -- rewrite on_register_invalid_fields by done.
             by apply (Hplain _ sock (FError
                         "Missing churchToolsUrl, secret, or uuid")).
        * destruct (_ || _); [|done].
          unfold on_response. repeat case_match; try done.
          apply Hsame; unfold invoke, settle; by repeat case_match.
      + unfold on_close. case_match; [|done]. by apply Hsame.
      + unfold on_timeout. case_match; [|done].
        apply Hsame; unfold settle; by repeat case_match. }
  split; [done|]. rewrite E.
  apply NoDup_fmap_2; [|apply NoDup_seq].
  intros a b. apply req_id_of_inj.
Qed.

Lemma finish_replies σ n tb rid o :
  callers (finish n tb rid o σ) = callers σ
  ∧ replies (finish n tb rid o σ)
    = match callers σ !! n with
      | Some (rq, e) =>
        if bool_decide (n ∈ (settled σ).*1) then replies σ
        else replies σ ++ [(rq, http_reply e o)]
      | None => replies σ
      end.
Proof.
  unfold finish, settle. cbn.
  destruct (callers σ !! n) as [[rq e]|]; [|done].
  by case_bool_decide.
Qed.


(** X9.  A socket's close removes only the key of the socket's latest
    registration: when a socket registers under one key and then under
    another, its close deletes the second entry, and the Session under
    the first key stays in the registry with the closed socket. *)
Theorem X9_close_forgets_earlier_registrations
    (σ : State) (sock : nat) (m1 m2 : Message) (now1 now2 : Z) :
  m_type m1 = "register" → valid_registration m1 = true →
  m_type m2 = "register" → valid_registration m2 = true →
  key_of m1 ≠ key_of m2 →
  (∃ s, connections
          (run σ [WsMessage sock (Some m1) now1;
                  WsMessage sock (Some m2) now2; WsClose sock])
          !! key_of m1 = Some s
        ∧ ws s = sock)
  ∧ connections
      (run σ [WsMessage sock (Some m1) now1;
              WsMessage sock (Some m2) now2; WsClose sock])
      !! key_of m2 = None.
Proof.
  intros Ht1 Hv1 Ht2 Hv2 Hne. cbn [Relay.run fold_left].
  rewrite (step_register url_hostname parseInt σ sock m1 now1 Ht1).
  rewrite (step_register url_hostname parseInt _ sock m2 now2 Ht2).
  set (σ1 := on_register sock m1 now1 σ).
  destruct (on_register_fields sock m1 now1 σ Hv1)
    as (s1 & E1 & Hws1 & _).
  destruct (on_register_fields sock m2 now2 σ1 Hv2)
    as (s2 & E2 & _ & _ & K2 & _).
  cbn [Relay.step]. unfold on_close. rewrite K2, lookup_insert_eq.
  cbn [connections set_connections]. rewrite E2. split.
  - exists s1. rewrite lookup_delete_ne, lookup_insert_ne by done.
    subst σ1. by rewrite E1, lookup_insert_eq.
  - by rewrite lookup_delete_eq.
Qed.

(** *** One reply per request *)

Lemma ReplyInv_frame seen σ σ' :
  replies σ' = replies σ → timers σ' = timers σ → callers σ' = callers σ →
  ReplyInv seen σ → ReplyInv seen σ'.
Proof.
  intros Er Et Ec [H1 H2 H3 H4]. split.
  - intros rq. rewrite Er. apply H1.
  - by rewrite Er.
  - intros n t. rewrite Et, Ec, Er. apply H3.
  - intros n n' t t' rq e e'. rewrite Et, Ec. apply H4.
Qed.

Lemma ReplyInv_respond seen σ rq r :
  rq ∉ seen → ReplyInv seen σ → ReplyInv (seen ++ [rq]) (respond rq r σ).
Proof.
  intros Hnew [H1 H2 H3 H4]. split; cbn.
  - intros rq'. rewrite fmap_app, !elem_of_app. cbn.
    intros [?|?]; [left; auto | by right].
  - rewrite fmap_app. apply NoDup_app. split; [done|].
    split; [|apply NoDup_singleton].
    intros x Hx ->%list_elem_of_singleton. auto.
  - intros n t Ht. destruct (H3 n t Ht) as (rq' & e & Hc & Hs & Hr).
    exists rq', e. split_and!; [done | apply elem_of_app; by left |].
    rewrite fmap_app, elem_of_app. cbn.
    intros [?| ->%list_elem_of_singleton]; done.
  - apply H4.
Qed.

Lemma ReplyInv_park seen σ conn fr d rq e :
  rq ∉ seen → Inv σ → ReplyInv seen σ →
  ReplyInv (seen ++ [rq]) (sendToProxy conn fr d rq e σ).
Proof.
  intros Hnew HI [H1 H2 H3 H4].
  assert (timers σ !! S (requestIdCounter σ) = None) as Hfree.
  { destruct (timers σ !! S (requestIdCounter σ)) as [t|] eqn:Ht; [|done].
    destruct (inv_timer σ HI _ t Ht) as ([_ Hb] & _). lia. }
  split; cbn.
  - intros rq' Hin. apply elem_of_app. left. auto.
  - done.
  - intros n t. rewrite !lookup_insert. case_decide as Hn.
    + intros _. exists rq, e. split_and!; [done | |].
      * apply elem_of_app. right. by apply list_elem_of_singleton.
      * intros Hin. auto.
    + intros Ht. destruct (H3 n t Ht) as (rq' & e' & Hc & Hs & Hr).
      exists rq', e'. split_and!; [done | apply elem_of_app; by left | done].
  - intros n n' t t' rq' e1 e2. rewrite !lookup_insert.
    repeat case_decide; subst; try done.
    + intros _ Ht' [= <- <-] Hc'.
      destruct (H3 n' t' Ht') as (rq' & e' & Hc & Hs & _).
      rewrite Hc in Hc'. by injection Hc' as -> _.
    + intros Ht _ Hc' [= <- <-].
      destruct (H3 n t Ht) as (rq' & e' & Hc & Hs & _).
      rewrite Hc in Hc'. by injection Hc' as -> _.
    + apply H4.
Qed.

Lemma ReplyInv_finish seen σ n t o :
  Inv σ → ReplyInv seen σ → timers σ !! n = Some t →
  ReplyInv seen (finish n (t_table t) (t_requestId t) o σ).
Proof.
  intros HI [H1 H2 H3 H4] Ht.
  destruct (finish_fields n (t_table t) (t_requestId t) o σ)
    as (Et & _).
  destruct (finish_replies σ n (t_table t) (t_requestId t) o) as (Ec & Er).
  destruct (H3 n t Ht) as (rq & e & Hc & Hs & Hr).
  destruct (inv_timer σ HI n t Ht) as (_ & _ & _ & Hns).
  rewrite Hc, bool_decide_eq_false_2 in Er by done.
  split.
  - intros rq'. rewrite Er, fmap_app, elem_of_app. cbn.
    intros [?| ->%list_elem_of_singleton]; auto.
  - rewrite Er, fmap_app. apply NoDup_app. split; [done|].
    split; [|apply NoDup_singleton].
    intros x Hx ->%list_elem_of_singleton. auto.
  - intros n' t'. rewrite Et, Ec, Er, lookup_delete.
    case_decide as Hn; [done|]. intros Ht'.
    destruct (H3 n' t' Ht') as (rq' & e' & Hc' & Hs' & Hr').
    exists rq', e'. split_and!; try done.
    rewrite fmap_app, elem_of_app. cbn.
    intros [?| ->%list_elem_of_singleton]; [done|].
    apply Hn. by eapply (H4 n n' t t').
  - intros n1 n2 t1 t2 rq' e1 e2. rewrite Et, Ec, !lookup_delete.
    repeat case_decide; try done. apply H4.
Qed.

Lemma ReplyInv_step_request seen σ ev rq :
  http_request ev = Some rq → rq ∉ seen →
  Inv σ → ReplyInv seen σ → ReplyInv (seen ++ [rq]) (step σ ev).
Proof.
  intros Hev Hnew HI HR.
  destruct (data_path ev) as [[rq' e]|] eqn:Hdp.
  - assert (req_id rq' = rq) as Hrq.
    { destruct ev; try done; cbn in *; congruence. }
    destruct (data_path_cases σ ev rq' e Hdp)
      as [(r & -> & _)|(k & conn & frame & _ & _ & _ & ->)]; rewrite Hrq.
    + by apply ReplyInv_respond.
    + by apply ReplyInv_park.
  - destruct ev; try done. cbn in Hev. injection Hev as <-.
    cbn [Relay.step]. by apply ReplyInv_respond.
Qed.

Lemma ReplyInv_step_other seen σ ev :
  http_request ev = None →
  Inv σ → ReplyInv seen σ → ReplyInv seen (step σ ev).
Proof.
  intros Hev HI HR.
  destruct ev as [rq|rq|rq|sock data now|sock|n]; try done;
    cbn [Relay.step].
  - destruct data as [m|]; cbn [on_message]; [|done].
    destruct (String.eqb (m_type m) "register").
    + apply (ReplyInv_frame seen σ); try done;
        unfold on_register; by repeat case_match.
    + destruct (_ || _); [|done].
      unfold on_response.
      destruct (registeredKey σ !! sock) as [key|]; [|done].
      destruct (connections σ !! key) as [conn|]; [|done].
      destruct (handlers_of σ (requestHandlers conn) !! m_requestId m)
        as [h|] eqn:Hh; [|done].
      destruct (inv_handler σ HI _ _ _ Hh) as (H1 & H2 & t & Ht & H3 & H4).
      change (invoke h m σ)
        with (finish (h_call h) (h_table h) (h_requestId h) (Resolved m) σ).
      rewrite H1, H2, <- H3, <- H4. by apply ReplyInv_finish.
  - unfold on_close. case_match; [|done].
    by apply (ReplyInv_frame seen σ).
  - unfold on_timeout.
    destruct (timers σ !! n) as [t|] eqn:Ht; [|done].
    by apply (ReplyInv_finish seen σ n t).
Qed.

Lemma ReplyInv_reachable evs :
  distinct_requests evs → ReplyInv (omap http_request evs) (run init evs).
Proof.
  induction evs as [|ev evs IH] using rev_ind; intros Hd.
  - split; cbn; try done; apply NoDup_nil_2.
  - unfold distinct_requests in *. rewrite omap_app in Hd.
    apply NoDup_app in Hd as (Hd1 & Hd2 & _).
    rewrite (run_snoc url_hostname parseInt), omap_app. cbn.
    pose proof (Inv_reachable url_hostname parseInt evs) as HI.
    destruct (http_request ev) as [rq|] eqn:Hev; cbn.
    + apply ReplyInv_step_request; auto.
      intros Hin. apply (Hd2 rq Hin). cbn. rewrite Hev. cbn.
      by apply list_elem_of_singleton.
    + rewrite app_nil_r. apply ReplyInv_step_other; auto.
Qed.

(** X8.  Over any sequence of events in which every HTTP request has an
    id of its own, no HTTP request is answered twice, and only requests
    that were received are answered: an immediate rejection, a response
    of the proxy and a timeout exclude one another for each request. *)
Theorem X8_one_reply_per_request (evs : list Event) :
  distinct_requests evs →
  NoDup (replies (run init evs)).*1
  ∧ ∀ rq, rq ∈ (replies (run init evs)).*1 → rq ∈ omap http_request evs.
Proof.
  intros Hd. destruct (ReplyInv_reachable evs Hd) as [H1 H2 _ _]. done.
Qed.

End DataPath.

(** *** CORS *)

Lemma prefix_app n b : String.prefix n (n +:+ b) = true.
Proof.
  induction n as [|c n IH]; [by destruct b|].
  change (String c n +:+ b) with (String c (n +:+ b)).
  cbn [String.prefix].
  destruct (Ascii.ascii_dec c c); [exact IH | done].
Qed.

Lemma includes_prefix n h : String.prefix n h = true → JS.includes n h = true.
Proof. destruct h; cbn [JS.includes]; by intros ->. Qed.

Lemma includes_app a n b : JS.includes n (a +:+ n +:+ b) = true.
Proof.
  induction a as [|c a IH].
  - change ("" +:+ n +:+ b) with (n +:+ b).
    apply includes_prefix, prefix_app.
  - change (String c a +:+ n +:+ b) with (String c (a +:+ n +:+ b)).
    cbn [JS.includes]. rewrite IH. apply orb_true_r.
Qed.

Lemma length_app_string a b :
  String.length (a +:+ b) = (String.length a + String.length b)%nat.
Proof.
  induction a as [|c a IH]; [done|].
  change (String c a +:+ b) with (String c (a +:+ b)).
  cbn [String.length]. by rewrite IH.
Qed.

Lemma substring_all s : String.substring 0 (String.length s) s = s.
Proof. induction s as [|c s IH]; cbn; [done | by rewrite IH]. Qed.

Lemma substring_app a s :
  String.substring (String.length a) (String.length s) (a +:+ s) = s.
Proof.
  induction a as [|c a IH]; [apply substring_all|].
  change (String c a +:+ s) with (String c (a +:+ s)).
  cbn [String.length String.substring]. exact IH.
Qed.

Lemma endsWith_app a s : JS.endsWith s (a +:+ s) = true.
Proof.
  unfold JS.endsWith. rewrite length_app_string.
  replace (String.length a + String.length s - String.length s)%nat
    with (String.length a) by lia.
  rewrite substring_app, String.eqb_refl, andb_true_r.
  apply Nat.leb_le. lia.
Qed.

(** X10.  The CORS middleware answers with an
    [Access-Control-Allow-Origin] header only to echo the request's own,
    non-empty [Origin], and only when that origin passes its test; the
    test is on the text of the origin: an origin that ends in
    [.church.tools] or [.krz.tools], or that contains [localhost],
    [127.0.0.1] or [.test] anywhere, passes, whatever its host is.  The
    three other CORS headers are set on every response. *)
Theorem X10_cors_origin_test (rq : Request) :
  (∀ o, ("Access-Control-Allow-Origin", o) ∈ cors_headers rq →
        req_headers rq !! "origin" = Some o ∧ o ≠ ""
        ∧ origin_allowed o = true)
  ∧ (∀ o, req_headers rq !! "origin" = Some o → o ≠ "" →
          origin_allowed o = true →
          ("Access-Control-Allow-Origin", o) ∈ cors_headers rq)
  ∧ (∀ a sfx, sfx ∈ [".church.tools"; ".krz.tools"] →
              origin_allowed (a +:+ sfx) = true)
  ∧ (∀ a needle b, needle ∈ ["localhost"; "127.0.0.1"; ".test"] →
                   origin_allowed (a +:+ needle +:+ b) = true)
  ∧ [("Access-Control-Allow-Methods", "GET, POST, PUT, DELETE, OPTIONS");
     ("Access-Control-Allow-Headers",
      "Content-Type, X-AUTH, X-ID, ONSONGIP, ONSONGPORT");
     ("Access-Control-Allow-Credentials", "true")] ⊆ cors_headers rq.
Proof.
  split_and!.
  - intros o. unfold cors_headers. rewrite elem_of_app.
    intros [Hin|Hin].
    + destruct (req_headers rq !! "origin") as [o'|]; [|by apply elem_of_nil in Hin].
      destruct (JS.truthy (Some o')) eqn:Ht; cbn in Hin;
        [|by apply elem_of_nil in Hin].
      destruct (origin_allowed o') eqn:Ha; cbn in Hin;
        [|by apply elem_of_nil in Hin].
      apply list_elem_of_singleton in Hin. injection Hin as ->.
      apply truthy_Some_nonempty in Ht as (x & [= <-] & Hx). done.
    + repeat (apply elem_of_cons in Hin as [Hin|Hin]; [discriminate Hin|]).
      by apply elem_of_nil in Hin.
  - intros o Ho Hne Ha. unfold cors_headers. rewrite Ho.
    assert (JS.truthy (Some o) = true) as ->.
    { cbn. apply negb_true_iff. by apply String.eqb_neq. }
    rewrite Ha. cbn. by left.
  - intros a sfx Hs. unfold origin_allowed.
    repeat (apply elem_of_cons in Hs as [->|Hs]);
      [..|by apply elem_of_nil in Hs]; rewrite endsWith_app;
      by rewrite ?orb_true_r.
  - intros a needle b Hn. unfold origin_allowed.
    repeat (apply elem_of_cons in Hn as [->|Hn]);
      [..|by apply elem_of_nil in Hn]; rewrite includes_app;
      by rewrite ?orb_true_r.
  - unfold cors_headers. intros x Hx. apply elem_of_app. by right.
Qed.

(** X10 at an origin whose host is not local but whose text contains
    [localhost]. *)
Lemma X10_cors_origin_test_witness :
  origin_allowed ("https://" +:+ "localhost" +:+ ".attacker.example") = true.
Proof.
  apply (proj1 (proj2 (proj2 (proj2
           (X10_cors_origin_test (Sample.tenant_request 1 "/" "" None ""))))))
    with (a := "https://") (needle := "localhost") (b := ".attacker.example").
  by left.
Defined.

(** *** Download *)



(** *** The properties above at sample inputs *)

(** X2 at the first registration of a proxy. *)
Lemma X2_registration_installs_session_witness :
  ∃ s, connections
         (Relay.step Sample.https_hostname Sample.parseInt (Sample.run [])
            (WsMessage 1 (Some (Sample.register "a.church.tools" "s1" "u1"
                                                false)) 0))
         !! "a.church.tools:u1" = Some s
       ∧ ws s = 1%nat.
Proof.
  destruct (X2_registration_installs_session Sample.https_hostname
              Sample.parseInt [] 1
              (Sample.register "a.church.tools" "s1" "u1" false) 0
              eq_refl eq_refl) as (s & H1 & H2 & _).
  exists s. split; assumption.
Defined.

(** X3 at a timer that fires. *)
Lemma X3_registry_changes_only_by_register_or_close_witness :
  connections (Relay.step Sample.https_hostname Sample.parseInt
                 (Sample.run RelaySpec.stale_close) (TimerFires 3))
  = connections (Sample.run RelaySpec.stale_close)
  ∧ registeredKey (Relay.step Sample.https_hostname Sample.parseInt
                     (Sample.run RelaySpec.stale_close) (TimerFires 3))
    = registeredKey (Sample.run RelaySpec.stale_close).
Proof.
  apply (X3_registry_changes_only_by_register_or_close
           Sample.https_hostname Sample.parseInt
           (Sample.run RelaySpec.stale_close) (TimerFires 3)).
  reflexivity.
Defined.

(** X4 at a [/discover] request while no proxy is registered. *)
Lemma X4_rejected_request_reaches_no_proxy_witness :
  let rq := Sample.tenant_request 7 "/discover" "https://a.church.tools/"
              (Some "s1") "u1" in
  let step := Relay.step Sample.https_hostname Sample.parseInt in
  (∃ r, replies (step init (HttpDiscover rq)) = replies init ++ [(req_id rq, r)]
        ∧ (status r = 400 ∨ status r = 401 ∨ status r = 403)
        ∧ untouched init (step init (HttpDiscover rq)))
  ∨ (∃ k conn frame,
       connections init !! k = Some conn
       ∧ (public conn = true
          ∨ req_headers rq !! "x-auth" = Some (secret conn))
       ∧ replies (step init (HttpDiscover rq)) = replies init
       ∧ outbox (step init (HttpDiscover rq))
         = outbox init ++ [(ws conn, frame)]
       ∧ sent_id (ws conn, frame)
         = Some (req_id_of (S (requestIdCounter init)))
       ∧ requestIdCounter (step init (HttpDiscover rq))
         = S (requestIdCounter init)
       ∧ timers (step init (HttpDiscover rq))
         = <[S (requestIdCounter init) :=
               {| t_table := requestHandlers conn;
                  t_requestId := req_id_of (S (requestIdCounter init));
                  t_delay := 30000 |}]> (timers init)
       ∧ callers (step init (HttpDiscover rq)) !! S (requestIdCounter init)
         = Some (req_id rq, Discover)).
Proof.
  intros rq step.
  apply (X4_rejected_request_reaches_no_proxy Sample.https_hostname
           Sample.parseInt init (HttpDiscover rq) rq Discover).
  reflexivity.
Defined.

(** X5 at that request, relayed to a registered proxy. *)
Lemma X5_api_frame_strips_credentials_witness :
  let data := {| targetIp := "10.0.0.5"; targetPort := Some 80;
                 method := "POST"; path := "/api/tok/auth";
                 fwd_headers := <["cookie" := "c=1"]> {["x-id" := "u1"]};
                 api_body := "{}" |} in
  fwd_headers data !! "x-auth" = None
  ∧ fwd_headers data !! "cookie" = req_headers api_call !! "cookie".
Proof.
  intros data.
  destruct (X5_api_frame_strips_credentials Sample.https_hostname
              Sample.parseInt
              (Sample.run [WsMessage 1 (Some (Sample.register
                             "a.church.tools" "s1" "u1" false)) 0])
              api_call 1 data "req-1")
    as (_ & _ & _ & _ & _ & _ & Hout & Hin).
  - vm_compute. reflexivity.
  - split.
    + apply Hout. by left.
    + apply Hin. intros H.
      repeat (apply elem_of_cons in H as [H|H]; [discriminate H|]).
      by apply elem_of_nil in H.
Defined.


(** X8 at a rejected request followed by a relayed one that times out. *)
Lemma X8_one_reply_per_request_witness :
  let evs :=
    [HttpDiscover (Sample.tenant_request 7 "/discover"
                     "https://a.church.tools/" (Some "s1") "u1");
     WsMessage 1 (Some (Sample.register "a.church.tools" "s1" "u1" false)) 0;
     HttpDiscover (Sample.tenant_request 8 "/discover"
                     "https://a.church.tools/" (Some "s1") "u1");
     TimerFires 1] in
  NoDup (replies (Sample.run evs)).*1.
Proof.
  intros evs.
  apply (X8_one_reply_per_request Sample.https_hostname Sample.parseInt evs).
  unfold distinct_requests. cbn.
  apply NoDup_cons. split; [|apply NoDup_singleton].
  intros H%list_elem_of_singleton. discriminate H.
Defined.

(** X9 at a socket that registers two proxies and closes. *)
Lemma X9_close_forgets_earlier_registrations_witness :
  ∃ s, connections
         (Relay.run Sample.https_hostname Sample.parseInt init
            [WsMessage 1 (Some (Sample.register "a.church.tools" "s1" "u1"
                                                false)) 0;
             WsMessage 1 (Some (Sample.register "a.church.tools" "s1" "u2"
                                                false)) 1;
             WsClose 1])
         !! "a.church.tools:u1" = Some s
       ∧ ws s = 1%nat.
Proof.
  apply (X9_close_forgets_earlier_registrations Sample.https_hostname
           Sample.parseInt init 1
           (Sample.register "a.church.tools" "s1" "u1" false)
           (Sample.register "a.church.tools" "s1" "u2" false) 0 1);
    try reflexivity.
  vm_compute. discriminate.
Defined.

End RelayMoreFacts.
(** ** The agent: properties *)

Module AgentFacts.

Import Agent AgentSpec.

(** *** The device registry *)

Lemma registry_get_set k d l : registry_get k (registry_set k d l) = Some d.
Proof.
  induction l as [|[k' d'] l IH]; simpl.
  - by rewrite String.eqb_refl.
  - destruct (String.eqb k' k) eqn:E; simpl.
    + by rewrite String.eqb_refl.
    + by rewrite E.
Qed.

Lemma registry_get_set_ne k k' d l :
  k ≠ k' → registry_get k' (registry_set k d l) = registry_get k' l.
Proof.
  intros Hne. induction l as [|[k0 d0] l IH]; simpl.
  - by apply String.eqb_neq in Hne as ->.
  - destruct (String.eqb k0 k) eqn:E; simpl.
    + apply String.eqb_eq in E as ->.
      by apply String.eqb_neq in Hne as ->.
    + by rewrite IH.
Qed.

(** Keys stay unique: [Map.set] never duplicates one. *)
Lemma registry_set_NoDup k d l : NoDup l.*1 → NoDup (registry_set k d l).*1.
Proof.
  induction l as [|[k0 d0] l IH]; simpl; intros Hnd.
  - apply NoDup_singleton.
  - destruct (String.eqb k0 k) eqn:E; simpl.
    + by apply String.eqb_eq in E as ->.
    + apply NoDup_cons in Hnd as [Hk0 Hnd]. apply NoDup_cons. split; [|auto].
      intros Hin. apply Hk0. clear -Hin E.
      induction l as [|[k1 d1] l IH]; simpl in *.
      * apply list_elem_of_singleton in Hin as ->.
        by rewrite String.eqb_refl in E.
      * destruct (String.eqb k1 k) eqn:E1; simpl in *.
        -- apply String.eqb_eq in E1 as ->.
           apply elem_of_cons in Hin as [->|Hin];
             [by rewrite String.eqb_refl in E|].
           by apply elem_of_cons; right.
        -- apply elem_of_cons in Hin as [->|Hin]; apply elem_of_cons;
             [by left | right; auto].
Qed.

Lemma ipv4Address_none d :
  (∀ addr, addr ∈ addresses d → JS.includes ":" addr = true) →
  ipv4Address d = None.
Proof.
  intros H. unfold ipv4Address.
  induction (addresses d) as [|a l IH]; simpl; [done|].
  rewrite (H a) by (by left). simpl. apply IH.
  intros addr Hin. apply H. by right.
Qed.

Lemma ipv4Address_some d a :
  ipv4Address d = Some a → a ∈ addresses d ∧ JS.includes ":" a = false.
Proof.
  unfold ipv4Address. intros [Hin Hc]%List.find_some.
  split; [by apply list_elem_of_In|]. by apply negb_true_iff.
Qed.

(** What the up handler does to the registry; its removal-timer
    bookkeeping does not touch it. *)
Lemma on_up_registry service σ :
  deviceRegistry (on_up service σ)
  = if qualifies service
       && (negb (registry_has (getDeviceId service) (deviceRegistry σ))
           || JS.truthy (ipv4Address (device_of service)))
    then registry_set (getDeviceId service) (device_of service)
           (deviceRegistry σ)
    else deviceRegistry σ.
Proof.
  unfold on_up, qualifies.
  set (txt' := default ∅ (svc_txt service)).
  destruct (negb (JS.strict_eq (txt' !! "role") "server")
            && negb (JS.strict_eq (txt' !! "role") "client")) eqn:Hrole.
  { by destruct (JS.strict_eq _ "server"), (JS.strict_eq _ "client"). }
  assert (JS.strict_eq (txt' !! "role") "server"
          || JS.strict_eq (txt' !! "role") "client" = true) as ->.
  { by destruct (JS.strict_eq _ "server"), (JS.strict_eq _ "client"). }
  destruct (JS.truthy (txt' !! "deviceid")) eqn:Hid; cbn [negb andb];
    [|done].
  set (σ1 := match deviceRemovalTimers σ !! getDeviceId service with
             | Some t => _
             | None => σ
             end).
  assert (deviceRegistry σ1 = deviceRegistry σ) as E1.
  { subst σ1. by destruct (deviceRemovalTimers σ !! getDeviceId service). }
  rewrite E1.
  by destruct (negb _ || _).
Qed.

(** C8.  For an up event and the device id it names: when the id is in
    the registry and every address of the incoming record contains a
    colon (only IPv6-style addresses, or none at all), the registry is
    left as it is, so a stored record is overwritten only when the
    incoming list has an address without a colon; when the event passes
    the handler's filter and the id is not in the registry, the incoming
    record is stored under it; and a record that passes the filter and
    whose first colon-free address is non-empty is stored in any case. *)
Theorem C8_up_overwrites_only_with_ipv4 (service : Service) (σ : State) :
  (registry_has (getDeviceId service) (deviceRegistry σ) = true →
   (∀ addr, addr ∈ default [] (svc_addresses service) →
            JS.includes ":" addr = true) →
   deviceRegistry (on_up service σ) = deviceRegistry σ)
  ∧ (registry_has (getDeviceId service) (deviceRegistry σ) = true →
     deviceRegistry (on_up service σ) ≠ deviceRegistry σ →
     ∃ addr, addr ∈ default [] (svc_addresses service)
             ∧ JS.includes ":" addr = false)
  ∧ (qualifies service = true →
     registry_has (getDeviceId service) (deviceRegistry σ) = false →
     registry_get (getDeviceId service) (deviceRegistry (on_up service σ))
     = Some (device_of service))
  ∧ (qualifies service = true →
     ∀ a, ipv4Address (device_of service) = Some a → a ≠ "" →
     registry_get (getDeviceId service) (deviceRegistry (on_up service σ))
     = Some (device_of service)).
Proof.
  rewrite on_up_registry. split_and!.
  - intros -> Hall. rewrite ipv4Address_none by done.
    by rewrite andb_false_r.
  - intros -> Hchg.
    destruct (ipv4Address (device_of service)) as [a|] eqn:Ha.
    + apply ipv4Address_some in Ha as [Hin Hc]. by exists a.
    + by rewrite andb_false_r in Hchg.
  - intros -> ->. cbn. apply registry_get_set.
  - intros -> a -> Hne.
    assert (JS.truthy (Some a) = true) as ->.
    { simpl. apply negb_true_iff. by apply String.eqb_neq. }
    rewrite orb_true_r. cbn. apply registry_get_set.
Qed.

(** C8 at a known device that comes up with an IPv6 address only. *)
Lemma C8_up_overwrites_only_with_ipv4_witness :
  let σ := run init
             [BonjourUp (AgentSample.onsong "server" "ipad-1"
                                            ["192.168.1.20"])] in
  deviceRegistry (on_up (AgentSample.onsong "server" "ipad-1" ["fe80::1"]) σ)
  = deviceRegistry σ.
Proof.
  intros σ.
  apply (proj1 (C8_up_overwrites_only_with_ipv4
                  (AgentSample.onsong "server" "ipad-1" ["fe80::1"]) σ)).
  - vm_compute. reflexivity.
  - intros addr Hin. apply list_elem_of_singleton in Hin as ->.
    vm_compute. reflexivity.
Defined.

(** *** Debounced removal *)

(** A down event for a device in the registry arms one removal timer of
    600 seconds and records it; for an unknown device it does nothing. *)
Lemma on_down_known service σ :
  registry_has (getDeviceId service) (deviceRegistry σ) = true →
  timers (on_down service σ)
  = <[next_timer σ := removal_timer (getDeviceId service)]> (timers σ)
  ∧ deviceRemovalTimers (on_down service σ)
    = <[getDeviceId service := next_timer σ]> (deviceRemovalTimers σ)
  ∧ deviceRegistry (on_down service σ) = deviceRegistry σ.
Proof. intros H. unfold on_down. by rewrite H. Qed.

Lemma on_down_unknown service σ :
  registry_has (getDeviceId service) (deviceRegistry σ) = false →
  on_down service σ = σ.
Proof. intros H. unfold on_down. by rewrite H. Qed.

(** An up event that passes the filter cancels the removal timer the
    table records for its device. *)
Lemma on_up_cancels service σ t :
  qualifies service = true →
  deviceRemovalTimers σ !! getDeviceId service = Some t →
  timers (on_up service σ) = delete t (timers σ)
  ∧ deviceRemovalTimers (on_up service σ) !! getDeviceId service = None.
Proof.
  intros Hq Ht. unfold on_up.
  unfold qualifies in Hq. apply andb_prop in Hq as [Hrole Hid].
  assert (negb (JS.strict_eq (default ∅ (svc_txt service) !! "role")
                  "server")
          && negb (JS.strict_eq (default ∅ (svc_txt service) !! "role")
                     "client") = false) as ->.
  { by destruct (JS.strict_eq _ "server"), (JS.strict_eq _ "client"). }
  rewrite Hid, Ht. cbn [negb].
  match goal with |- context [if ?b then _ else _] => destruct b end;
    (split; [reflexivity | apply lookup_delete_eq]).
Qed.

Lemma registry_has_set k d l : registry_has k (registry_set k d l) = true.
Proof. unfold registry_has. by rewrite registry_get_set. Qed.

(** What the up handler does to the timers and to the table of removal
    timers, for an event that passes the filter. *)
Lemma on_up_timers service σ :
  qualifies service = true →
  deviceRemovalTimers (on_up service σ) !! getDeviceId service = None
  ∧ timers (on_up service σ)
    = match deviceRemovalTimers σ !! getDeviceId service with
      | Some t => delete t (timers σ)
      | None => timers σ
      end.
Proof.
  intros Hq. unfold on_up.
  unfold qualifies in Hq. apply andb_prop in Hq as [Hrole Hid].
  assert (negb (JS.strict_eq (default ∅ (svc_txt service) !! "role")
                  "server")
          && negb (JS.strict_eq (default ∅ (svc_txt service) !! "role")
                     "client") = false) as ->.
  { by destruct (JS.strict_eq _ "server"), (JS.strict_eq _ "client"). }
  rewrite Hid. cbn [negb].
  destruct (deviceRemovalTimers σ !! getDeviceId service) as [t|] eqn:Ht;
    match goal with |- context [if ?b then _ else _] => destruct b end;
    (split; [first [apply lookup_delete_eq | exact Ht] | reflexivity]).
Qed.

(** From a state in which no removal timer is armed for the device, an
    up, a down and an up leave the device in the registry and no removal
    timer armed for it: the single down's timer is the one the table
    records, and the second up cancels it. *)
Lemma up_down_up_keeps_device service σ :
  qualifies service = true →
  (∀ t tm, timers σ !! t = Some tm →
           callback tm ≠ RemoveDevice (getDeviceId service)) →
  registry_has (getDeviceId service)
    (deviceRegistry (on_up service (on_down service (on_up service σ))))
  = true
  ∧ ∀ t tm,
      timers (on_up service (on_down service (on_up service σ))) !! t
        = Some tm →
      callback tm ≠ RemoveDevice (getDeviceId service).
Proof.
  intros Hq Hclean.
  set (id := getDeviceId service).
  set (σ1 := on_up service σ).
  assert (registry_has id (deviceRegistry σ1) = true) as Hhas1.
  { subst σ1. rewrite on_up_registry, Hq. cbn [andb]. fold id.
    destruct (registry_has id (deviceRegistry σ)) eqn:Hh; cbn [negb orb].
    - destruct (JS.truthy _); [apply registry_has_set | done].
    - apply registry_has_set. }
  assert (∀ t tm, timers σ1 !! t = Some tm → callback tm ≠ RemoveDevice id)
    as Hclean1.
  { intros t tm. subst σ1.
    rewrite (proj2 (on_up_timers service σ Hq)).
    destruct (deviceRemovalTimers σ !! getDeviceId service) as [t'|].
    - rewrite lookup_delete. case_decide; [done|]. apply Hclean.
    - apply Hclean. }
  destruct (on_down_known service σ1 Hhas1) as (T2 & R2 & D2).
  set (σ2 := on_down service σ1) in *.
  split.
  - rewrite on_up_registry, Hq. cbn [andb]. fold id. rewrite D2, Hhas1.
    cbn [negb orb]. destruct (JS.truthy _); [apply registry_has_set | done].
  - intros t tm.
    rewrite (proj2 (on_up_timers service σ2 Hq)). fold id.
    rewrite R2, lookup_insert_eq, T2.
    rewrite lookup_delete. case_decide; [done|].
    rewrite lookup_insert_ne by done. apply Hclean1.
Qed.

(** C6 at its failing input.  After up, down, down, up the device is in
    the registry and the table of removal timers is empty, but the timer
    of the first down (timer 0) is still armed: the second down
    overwrote its entry in the table, so the up cancelled only the
    second timer.  When timer 0 fires the device is deleted, although an
    up event arrived before it fired. *)
Theorem C6_second_down_leaks_removal_timer :
  registry_has "ipad-1" (deviceRegistry (run init (take 4 down_twice))) = true
  ∧ timers (run init (take 4 down_twice)) !! 0%nat
    = Some (removal_timer "ipad-1")
  ∧ deviceRemovalTimers (run init (take 4 down_twice)) = ∅
  ∧ deviceRegistry (run init down_twice) = [].
Proof. vm_compute. repeat split; reflexivity. Qed.

(** *** The watchdog *)

Lemma agent_run_cons σ ev evs : run σ (ev :: evs) = run (step σ ev) evs.
Proof. done. Qed.

Lemma agent_run_snoc σ evs ev : run σ (evs ++ [ev]) = step (run σ evs) ev.
Proof. unfold run. by rewrite fold_left_app. Qed.

Lemma send_ok f σ s :
  ws σ = Some s → sockets σ !! s ≠ Some CONNECTING →
  send f σ = Some (log (Sent s f) σ).
Proof.
  intros Hws Hs. unfold send. rewrite Hws.
  by rewrite bool_decide_eq_false_2.
Qed.








(** *** Auto-requests: steps that arm no auto-request timer *)

Lemma benign_refl σ : benign σ σ.
Proof. split_and!; [done | lia | by left]. Qed.

Lemma benign_trans σ1 σ2 σ3 : benign σ1 σ2 → benign σ2 σ3 → benign σ1 σ3.
Proof.
  intros (E1 & N1 & T1) (E2 & N2 & T2).
  split_and!; [congruence | lia |].
  intros t tm Ht. apply T2 in Ht as [Ht|Ht]; [|by right]. by apply T1.
Qed.

Lemma benign_clearTimer t σ : benign σ (clearTimer t σ).
Proof. benign_step. Qed.

Lemma benign_clearTimer_opt h σ : benign σ (clearTimer_opt h σ).
Proof. destruct h; [apply benign_clearTimer | apply benign_refl]. Qed.

Lemma benign_setTimeout cb d σ :
  timer_key cb = None → benign σ (setTimeout cb d σ).
Proof. intros Hcb. benign_step. Qed.

Lemma benign_setInterval cb d σ :
  timer_key cb = None → benign σ (setInterval cb d σ).
Proof. intros Hcb. benign_step. Qed.

(** A state that agrees on the three fields is as good. *)
Lemma benign_fields σ σ' σ'' :
  benign σ σ' →
  autoRequestStates σ'' = autoRequestStates σ' →
  next_timer σ'' = next_timer σ' → timers σ'' = timers σ' →
  benign σ σ''.
Proof.
  intros (E & N & T) E' N' T'. split_and!; [congruence | lia |].
  intros t tm. rewrite T'. apply T.
Qed.

Lemma benign_connect σ : benign σ (connect σ).
Proof. unfold connect. case_match; [apply benign_refl | benign_step]. Qed.

Lemma benign_on_up service σ : benign σ (on_up service σ).
Proof.
  unfold on_up.
  repeat (case_match; try apply benign_refl); benign_step.
Qed.

Lemma benign_on_down service σ : benign σ (on_down service σ).
Proof.
  unfold on_down. case_match; [apply benign_refl | benign_step].
Qed.

Lemma benign_removeDevice d σ : benign σ (removeDevice d σ).
Proof.
  unfold removeDevice. case_match; [benign_step | apply benign_refl].
Qed.

Lemma benign_stopWatchdog σ : benign σ (stopWatchdog σ).
Proof. unfold stopWatchdog. case_match; benign_step. Qed.

Lemma benign_startWatchdog now σ : benign σ (startWatchdog now σ).
Proof.
  unfold startWatchdog. destruct (watchdogTimer σ); benign_step.
Qed.

Lemma benign_watchdogCheck now σ : benign σ (watchdogCheck now σ).
Proof.
  unfold watchdogCheck. case_match; [|apply benign_refl].
  eapply benign_trans; [apply benign_stopWatchdog|].
  case_match; benign_step.
Qed.

Lemma benign_send f σ σ' : send f σ = Some σ' → benign σ σ'.
Proof.
  unfold send. repeat case_match; try done. intros [= <-]. benign_step.
Qed.

Lemma benign_on_open s now σ : benign σ (on_open s now σ).
Proof.
  unfold on_open. set (σ1 := set_isConnected true _).
  destruct (send FRegister σ1) as [σ2|] eqn:Hsend.
  - assert (benign σ σ2) as H2.
    { eapply benign_trans; [|eapply benign_send; exact Hsend].
      subst σ1. benign_step. }
    eapply benign_trans; [|apply benign_startWatchdog].
    eapply benign_trans; [done|]. case_match; benign_step.
  - subst σ1. benign_step.
Qed.

Lemma benign_on_close s σ : benign σ (on_close s σ).
Proof.
  unfold on_close.
  set (σ2 := set_ws None _).
  assert (benign σ σ2) as H2 by (subst σ2; benign_step).
  assert (benign σ (stopWatchdog σ2)) as H3.
  { eapply benign_trans; [done | apply benign_stopWatchdog]. }
  case_match; [done|].
  eapply benign_trans; [done|]. benign_step.
Qed.

Lemma benign_request m url k σ : benign σ (request m url k σ).
Proof. benign_step. Qed.

(** *** Auto-requests: the invariant *)

Lemma AutoInv_benign σ σ' : benign σ σ' → AutoInv σ → AutoInv σ'.
Proof.
  intros (E & N & T) [Hown Hold]. split.
  - intros t tm k Ht Hk. rewrite E.
    apply T in Ht as [Ht|Ht]; [by eapply Hown | congruence].
  - intros k st t. rewrite E. intros Hst Ht.
    specialize (Hold k st t Hst Ht). lia.
Qed.

Lemma AutoInv_init : AutoInv init.
Proof. split; intros *; cbn; by rewrite lookup_empty. Qed.

Lemma clearTimer_opt_lookup h σ t :
  timers (clearTimer_opt h σ) !! t
  = if decide (h = Some t) then None else timers σ !! t.
Proof.
  destruct h as [t'|]; cbn.
  - rewrite lookup_delete. repeat case_decide; congruence.
  - by rewrite decide_False.
Qed.

(** What [cleanupAutoRequests] leaves: the state is gone from the map,
    and its two timers are disarmed. *)
Lemma cleanupAutoRequests_fields k σ :
  autoRequestStates (cleanupAutoRequests k σ) = delete k (autoRequestStates σ)
  ∧ next_timer (cleanupAutoRequests k σ) = next_timer σ
  ∧ deviceRegistry (cleanupAutoRequests k σ) = deviceRegistry σ
  ∧ ∀ t, timers (cleanupAutoRequests k σ) !! t
         = match autoRequestStates σ !! k with
           | Some st =>
             if decide (intervalTimer st = Some t) then None
             else if decide (timeoutTimer st = Some t) then None
             else timers σ !! t
           | None => timers σ !! t
           end.
Proof.
  unfold cleanupAutoRequests.
  destruct (autoRequestStates σ !! k) as [st|] eqn:Hst.
  - split_and!.
    + by destruct (intervalTimer st), (timeoutTimer st).
    + by destruct (intervalTimer st), (timeoutTimer st).
    + by destruct (intervalTimer st), (timeoutTimer st).
    + intros t.
      transitivity (timers (clearTimer_opt (timeoutTimer st)
                              (clearTimer_opt (intervalTimer st) σ)) !! t);
        [done|].
      rewrite !clearTimer_opt_lookup. repeat case_decide; done.
  - split; [by rewrite delete_id|]. done.
Qed.

Lemma AutoInv_cleanup k σ :
  AutoInv σ →
  AutoInv (cleanupAutoRequests k σ)
  ∧ ∀ t tm, timers (cleanupAutoRequests k σ) !! t = Some tm →
            timer_key (callback tm) ≠ Some k.
Proof.
  intros [Hown Hold].
  destruct (cleanupAutoRequests_fields k σ) as (E & N & _ & T).
  assert (∀ t tm, timers (cleanupAutoRequests k σ) !! t = Some tm →
                  timers σ !! t = Some tm
                  ∧ ∀ st, autoRequestStates σ !! k = Some st → ¬ timer_of st t)
    as Hsub.
  { intros t tm. rewrite T.
    destruct (autoRequestStates σ !! k) as [st|]; [|done].
    repeat case_decide; try done.
    intros Ht. split; [done|]. intros st' [= <-] [?|?]; done. }
  split; [split|].
  - intros t tm k' Ht Hk'. rewrite E.
    apply Hsub in Ht as [Ht Hnot].
    destruct (Hown t tm k' Ht Hk') as (st & Hst & Hof).
    exists st. split; [|done].
    rewrite lookup_delete_ne; [done|].
    intros <-. by apply (Hnot st).
  - intros k' st t. rewrite E, N. rewrite lookup_delete.
    case_decide; [done|]. apply Hold.
  - intros t tm Ht Hk.
    apply Hsub in Ht as [Ht Hnot].
    destruct (Hown t tm k Ht Hk) as (st & Hst & Hof).
    by apply (Hnot st).
Qed.

(** What the two start functions leave: the new state under the key,
    with its interval and its timeout armed under the next two handles,
    on top of what [cleanupAutoRequests] left. *)
Lemma startPingKeepalive_fields d a ip p now σ :
  let k := getAutoRequestStateKey d a in
  let i := next_timer σ in
  ∃ st, autoRequestStates (startPingKeepalive d a ip p now σ)
        = <[k := st]> (autoRequestStates (cleanupAutoRequests k σ))
      ∧ state st = PingKeepalive
      ∧ intervalTimer st = Some i ∧ timeoutTimer st = Some (S i)
      ∧ next_timer (startPingKeepalive d a ip p now σ) = S (S i)
      ∧ timers (startPingKeepalive d a ip p now σ)
        = <[S i := {| delay := AUTO_REQUEST_DURATION_MS; repeating := false;
                      callback := PingExpire d k |}]>
            (<[i := {| delay := AUTO_REQUEST_INTERVAL_MS; repeating := true;
                       callback := PingTick d a ip p |}]>
               (timers (cleanupAutoRequests k σ))).
Proof.
  intros k i.
  destruct (cleanupAutoRequests_fields k σ) as (_ & N & _).
  unfold startPingKeepalive. fold k. fields. rewrite N. fold i.
  eexists. split; [reflexivity|]. done.
Qed.

Lemma startAuthRetry_fields d a ip p m b now σ :
  let k := getAutoRequestStateKey d a in
  let i := next_timer σ in
  ∃ st c, autoRequestStates (startAuthRetry d a ip p m b now σ)
          = <[k := st]> (autoRequestStates (cleanupAutoRequests k σ))
      ∧ state st = AuthRetry
      ∧ intervalTimer st = Some i ∧ timeoutTimer st = Some (S i)
      ∧ rc_deviceId c = d ∧ rc_authToken c = a
      ∧ rc_intervalTimer c = Some i ∧ rc_timeoutTimer c = Some (S i)
      ∧ next_timer (startAuthRetry d a ip p m b now σ) = S (S i)
      ∧ timers (startAuthRetry d a ip p m b now σ)
        = <[S i := {| delay := AUTO_REQUEST_DURATION_MS; repeating := false;
                      callback := AuthRetryExpire d k |}]>
            (<[i := {| delay := AUTO_REQUEST_INTERVAL_MS; repeating := true;
                       callback := AuthRetryTick c |}]>
               (timers (cleanupAutoRequests k σ))).
Proof.
  intros k i.
  destruct (cleanupAutoRequests_fields k σ) as (_ & N & _).
  unfold startAuthRetry. fold k. fields. rewrite N. fold i.
  eexists.
  exists {| rc_deviceId := d; rc_authToken := a; rc_deviceIp := ip;
            rc_devicePort := p; rc_method := m; rc_body := b;
            rc_intervalTimer := Some i; rc_timeoutTimer := Some (S i) |}.
  split; [reflexivity|]. done.
Qed.

(** The invariant after a start, from the fields above. *)
Lemma AutoInv_start σ σ' k st cbi cbt di dt ri rt :
  AutoInv σ →
  timer_key cbi = Some k → timer_key cbt = Some k →
  intervalTimer st = Some (next_timer σ) →
  timeoutTimer st = Some (S (next_timer σ)) →
  autoRequestStates σ'
  = <[k := st]> (autoRequestStates (cleanupAutoRequests k σ)) →
  next_timer σ' = S (S (next_timer σ)) →
  timers σ'
  = <[S (next_timer σ) := {| delay := dt; repeating := rt; callback := cbt |}]>
      (<[next_timer σ := {| delay := di; repeating := ri; callback := cbi |}]>
         (timers (cleanupAutoRequests k σ))) →
  AutoInv σ'.
Proof.
  intros HI Hcbi Hcbt Hi Ht E N T.
  destruct (AutoInv_cleanup k σ HI) as [[Hown Hold] Hnone].
  destruct (cleanupAutoRequests_fields k σ) as (_ & N1 & _).
  split.
  - intros t tm k' Htm Hk'. rewrite E. rewrite T in Htm.
    rewrite lookup_insert in Htm. case_decide as H1.
    { injection Htm as <-. cbn in Hk'. simplify_eq.
      exists st. rewrite lookup_insert_eq. split; [done | by right]. }
    rewrite lookup_insert in Htm. case_decide as H2.
    { injection Htm as <-. cbn in Hk'. simplify_eq.
      exists st. rewrite lookup_insert_eq. split; [done | by left]. }
    destruct (Hown t tm k' Htm Hk') as (st' & Hst' & Hof).
    exists st'. split; [|done].
    rewrite lookup_insert_ne; [done|].
    intros <-. by apply (Hnone t tm).
  - intros k' st' t. rewrite E, N, lookup_insert. case_decide.
    + intros [= <-] [Hof|Hof]; rewrite ?Hi, ?Ht in Hof; simplify_eq; lia.
    + intros Hst' Hof. specialize (Hold k' st' t Hst' Hof). lia.
Qed.

Lemma AutoInv_startPingKeepalive d a ip p now σ :
  AutoInv σ → AutoInv (startPingKeepalive d a ip p now σ).
Proof.
  intros HI.
  destruct (startPingKeepalive_fields d a ip p now σ)
    as (st & E & _ & Hi & Ht & N & T).
  by eapply (AutoInv_start σ _ _ st); [done | | | done | done | done | done
                                       | exact T].
Qed.

Lemma AutoInv_startAuthRetry d a ip p m b now σ :
  AutoInv σ → AutoInv (startAuthRetry d a ip p m b now σ).
Proof.
  intros HI.
  destruct (startAuthRetry_fields d a ip p m b now σ)
    as (st & c & E & _ & Hi & Ht & Hd & Ha & _ & _ & N & T).
  eapply (AutoInv_start σ _ _ st); [done | | | done | done | done | done
                                    | exact T].
  - cbn. by rewrite Hd, Ha.
  - done.
Qed.

Lemma AutoInv_authRetryDone c r now σ :
  AutoInv σ → AutoInv (authRetryDone c r now σ).
Proof.
  intros HI. unfold authRetryDone.
  destruct r as [statusCode data|err]; [|done].
  case_match; [|done].
  apply AutoInv_startPingKeepalive.
  eapply AutoInv_benign; [|done].
  eapply benign_trans; apply benign_clearTimer_opt.
Qed.

Lemma AutoInv_send f σ : AutoInv σ → AutoInv (default σ (send f σ)).
Proof.
  intros HI. destruct (send f σ) as [σ'|] eqn:Hs; [|done].
  cbn. eapply AutoInv_benign; [by eapply benign_send | done].
Qed.

Lemma AutoInv_apiRequestDone message path result now σ :
  AutoInv σ → AutoInv (apiRequestDone message path result now σ).
Proof.
  intros HI. unfold apiRequestDone. apply AutoInv_send.
  repeat case_match; try done;
    by (apply AutoInv_startAuthRetry || apply AutoInv_startPingKeepalive).
Qed.

Lemma AutoInv_handleMessage data now σ :
  AutoInv σ → AutoInv (handleMessage data now σ).
Proof.
  intros HI. unfold handleMessage.
  destruct data as [message|]; [|done].
  repeat case_match; try done;
    try (by apply AutoInv_send);
    try (by apply AutoInv_apiRequestDone).
  - eapply AutoInv_benign; [apply benign_request | done].
  - eapply AutoInv_benign; [|done].
    eapply benign_trans; [by eapply benign_send|]. unfold resetWatchdog.
    benign_step.
Qed.

Lemma AutoInv_httpDone id r now σ :
  AutoInv σ → AutoInv (httpDone id r now σ).
Proof.
  intros HI. unfold httpDone.
  destruct (pendingHttp σ !! id) as [k|]; [|done].
  assert (AutoInv (set_pendingHttp (delete id (pendingHttp σ)) σ)) as HI'.
  { eapply AutoInv_benign; [|done]. benign_step. }
  destruct k; [by apply AutoInv_apiRequestDone | by apply AutoInv_authRetryDone
               | done].
Qed.

Lemma AutoInv_timerFires t now σ :
  AutoInv σ → AutoInv (timerFires t now σ).
Proof.
  intros HI. unfold timerFires.
  destruct (timers σ !! t) as [tm|]; [|done].
  set (σ1 := if repeating tm then σ else clearTimer t σ).
  assert (AutoInv σ1) as HI1.
  { subst σ1. destruct (repeating tm); [done|].
    eapply AutoInv_benign; [apply benign_clearTimer | done]. }
  destruct (callback tm).
  - eapply AutoInv_benign; [apply benign_removeDevice | done].
  - eapply AutoInv_benign; [apply benign_watchdogCheck | done].
  - eapply AutoInv_benign; [apply benign_connect | done].
  - eapply AutoInv_benign; [|done].
    eapply benign_trans; [|apply benign_connect]. benign_step.
  - eapply AutoInv_benign; [apply benign_request | done].
  - by apply AutoInv_cleanup.
  - eapply AutoInv_benign; [apply benign_request | done].
  - by apply AutoInv_cleanup.
Qed.

Lemma AutoInv_step σ ev : AutoInv σ → AutoInv (step σ ev).
Proof.
  intros HI. unfold step. destruct (crashed σ); [done|].
  destruct ev.
  - eapply AutoInv_benign; [apply benign_connect | done].
  - eapply AutoInv_benign; [apply benign_on_up | done].
  - eapply AutoInv_benign; [apply benign_on_down | done].
  - eapply AutoInv_benign; [apply benign_on_open | done].
  - by apply AutoInv_handleMessage.
  - eapply AutoInv_benign; [apply benign_on_close | done].
  - by apply AutoInv_httpDone.
  - by apply AutoInv_timerFires.
Qed.

Lemma AutoInv_reachable evs : AutoInv (run init evs).
Proof.
  induction evs as [|ev evs IH] using rev_ind; [apply AutoInv_init|].
  rewrite agent_run_snoc. by apply AutoInv_step.
Qed.

(** A start on a key that has a state disarms the two timers of that
    state: [cleanupAutoRequests] clears them, and the two new handles
    are new. *)
Lemma start_disarms_old σ σ' k st_old ti tt :
  AutoInv σ →
  autoRequestStates σ !! k = Some st_old →
  timers σ'
  = <[S (next_timer σ) := tt]>
      (<[next_timer σ := ti]> (timers (cleanupAutoRequests k σ))) →
  ∀ t, timer_of st_old t → timers σ' !! t = None.
Proof.
  intros HI Hold T t Hof.
  pose proof (auto_old σ HI k st_old t Hold Hof) as Hlt.
  destruct (cleanupAutoRequests_fields k σ) as (_ & _ & _ & Tc).
  rewrite T, !lookup_insert_ne by lia. rewrite Tc, Hold.
  destruct Hof as [Hof|Hof].
  - by rewrite decide_True.
  - case_decide; [done|]. by rewrite decide_True.
Qed.

(** C5.  On every reachable state of the agent, an armed auto-request
    timer is one of the two timers of the state stored under its key, so
    the timers armed for a key are at most one interval and one timeout:
    those of the one state the map holds for it.  [startAuthRetry] and
    [startPingKeepalive] on a key that has a state leave the two timers
    of that state disarmed and store a new state, in the phase they
    start, whose interval (2 seconds) and timeout (60 seconds) are armed
    under two new handles; every timer then armed for the key is one of
    these two. *)
Theorem C5_one_timer_set_per_key (evs : list Event) :
  (∀ t tm k,
     timers (run init evs) !! t = Some tm →
     timer_key (callback tm) = Some k →
     ∃ st, autoRequestStates (run init evs) !! k = Some st ∧ timer_of st t)
  ∧ (∀ d a ip p m b now st_old,
     autoRequestStates (run init evs) !! getAutoRequestStateKey d a
       = Some st_old →
     (∀ t, timer_of st_old t →
           timers (startAuthRetry d a ip p m b now (run init evs)) !! t
           = None)
     ∧ ∃ st ti,
         autoRequestStates (startAuthRetry d a ip p m b now (run init evs))
           !! getAutoRequestStateKey d a = Some st
         ∧ state st = AuthRetry
         ∧ intervalTimer st = Some (next_timer (run init evs))
         ∧ timeoutTimer st = Some (S (next_timer (run init evs)))
         ∧ timers (startAuthRetry d a ip p m b now (run init evs))
             !! next_timer (run init evs) = Some ti
         ∧ delay ti = 2000 ∧ repeating ti = true
         ∧ timers (startAuthRetry d a ip p m b now (run init evs))
             !! S (next_timer (run init evs))
           = Some {| delay := 60000; repeating := false;
                     callback :=
                       AuthRetryExpire d (getAutoRequestStateKey d a) |}
         ∧ ∀ t tm,
             timers (startAuthRetry d a ip p m b now (run init evs)) !! t
               = Some tm →
             timer_key (callback tm) = Some (getAutoRequestStateKey d a) →
             timer_of st t)
  ∧ (∀ d a ip p now st_old,
     autoRequestStates (run init evs) !! getAutoRequestStateKey d a
       = Some st_old →
     (∀ t, timer_of st_old t →
           timers (startPingKeepalive d a ip p now (run init evs)) !! t
           = None)
     ∧ ∃ st,
         autoRequestStates (startPingKeepalive d a ip p now (run init evs))
           !! getAutoRequestStateKey d a = Some st
         ∧ state st = PingKeepalive
         ∧ intervalTimer st = Some (next_timer (run init evs))
         ∧ timeoutTimer st = Some (S (next_timer (run init evs)))
         ∧ timers (startPingKeepalive d a ip p now (run init evs))
             !! next_timer (run init evs)
           = Some {| delay := 2000; repeating := true;
                     callback := PingTick d a ip p |}
         ∧ timers (startPingKeepalive d a ip p now (run init evs))
             !! S (next_timer (run init evs))
           = Some {| delay := 60000; repeating := false;
                     callback := PingExpire d (getAutoRequestStateKey d a) |}
         ∧ ∀ t tm,
             timers (startPingKeepalive d a ip p now (run init evs)) !! t
               = Some tm →
             timer_key (callback tm) = Some (getAutoRequestStateKey d a) →
             timer_of st t).
Proof.
  pose proof (AutoInv_reachable evs) as HI.
  set (σ := run init evs) in *.
  split_and!.
  - apply (auto_owned σ HI).
  - intros d a ip p m b now st_old Hold.
    destruct (startAuthRetry_fields d a ip p m b now σ)
      as (st & c & E & Hph & Hi & Ht & _ & _ & _ & _ & N & T).
    split; [by eapply start_disarms_old|].
    exists st. eexists. rewrite E, T.
    rewrite lookup_insert_eq.
    rewrite lookup_insert_ne, !lookup_insert_eq by lia.
    split_and!; try done.
    intros t tm Htm Hk.
    destruct (auto_owned _ (AutoInv_startAuthRetry d a ip p m b now σ HI)
                t tm _ ltac:(by rewrite T) Hk) as (st' & Hst' & Hof).
    rewrite E, lookup_insert_eq in Hst'. by injection Hst' as <-.
  - intros d a ip p now st_old Hold.
    destruct (startPingKeepalive_fields d a ip p now σ)
      as (st & E & Hph & Hi & Ht & N & T).
    split; [by eapply start_disarms_old|].
    exists st. rewrite E, T.
    rewrite lookup_insert_eq.
    rewrite lookup_insert_ne, !lookup_insert_eq by lia.
    split_and!; try done.
    intros t tm Htm Hk.
    destruct (auto_owned _ (AutoInv_startPingKeepalive d a ip p now σ HI)
                t tm _ ltac:(by rewrite T) Hk) as (st' & Hst' & Hof).
    rewrite E, lookup_insert_eq in Hst'. by injection Hst' as <-.
Qed.

(** C5 at a second [startAuthRetry] for a key that is retrying: the
    interval of the first (timer 1) is disarmed. *)
Lemma C5_one_timer_set_per_key_witness :
  timers (startAuthRetry "ipad-1" "tok" "192.168.1.20" 80 (Some "POST")
            (Some "{}") 5000 (run init failed_auth)) !! 1%nat = None.
Proof.
  apply (proj1 (proj1 (proj2 (C5_one_timer_set_per_key failed_auth))
                  "ipad-1" "tok" "192.168.1.20" 80 (Some "POST") (Some "{}")
                  5000
                  {| deviceId := "ipad-1"; authToken := "tok";
                     deviceIp := "192.168.1.20"; devicePort := 80;
                     method := Some "POST"; body := Some "{}";
                     state := AuthRetry; intervalTimer := Some 1%nat;
                     timeoutTimer := Some 2%nat; startTime := 200 |}
                  ltac:(vm_compute; reflexivity))).
  left. reflexivity.
Defined.

(** *** The auth trigger *)

Lemma findDeviceId_some ip l id :
  findDeviceId ip l = Some id → ∃ d, (id, d) ∈ l ∧ ip ∈ addresses d.
Proof.
  unfold findDeviceId.
  destruct (List.find _ l) as [[id' d]|] eqn:Hf; [|done].
  intros [= <-]. apply List.find_some in Hf as [Hin Hb].
  exists d. split; [by apply list_elem_of_In|].
  by apply bool_decide_eq_true in Hb.
Qed.

Lemma findDeviceId_none ip l :
  (∀ id d, (id, d) ∈ l → ip ∉ addresses d) → findDeviceId ip l = None.
Proof.
  intros H. destruct (findDeviceId ip l) as [id|] eqn:Hf; [|done].
  apply findDeviceId_some in Hf as (d & Hin & Hip). by destruct (H id d).
Qed.

Lemma send_fields f σ :
  autoRequestStates (default σ (send f σ)) = autoRequestStates σ
  ∧ timers (default σ (send f σ)) = timers σ
  ∧ next_timer (default σ (send f σ)) = next_timer σ.
Proof. unfold send. by repeat case_match. Qed.

(** C10.  When no device of the registry lists the request's
    [targetIp], the code that follows the device call of an [api-request]
    leaves the map of auto-request states and the timers as they are,
    whatever the path and whatever the call came to, and so does the
    part of [handleMessage] before the call; and a state that the code
    after the call stores under a key is stored for a device of the
    registry that lists [targetIp], with a path of the form
    [/api/{token}/auth]. *)
Theorem C10_auto_request_needs_known_device
    (message : Message) (now : Z) (σ : State) :
  (unknown_address (JS.template (m_targetIp message)) σ →
   ∀ path result,
     autoRequestStates (apiRequestDone message path result now σ)
     = autoRequestStates σ
     ∧ timers (apiRequestDone message path result now σ) = timers σ)
  ∧ (unknown_address (JS.template (m_targetIp message)) σ →
     m_type message = "api-request" →
     autoRequestStates (handleMessage (Some message) now σ)
     = autoRequestStates σ
     ∧ timers (handleMessage (Some message) now σ) = timers σ)
  ∧ (∀ path result,
       autoRequestStates (apiRequestDone message path result now σ)
       ≠ autoRequestStates σ →
       ∃ token id d,
         authMatch path = Some token
         ∧ (id, d) ∈ deviceRegistry σ
         ∧ JS.template (m_targetIp message) ∈ addresses d
         ∧ is_Some (autoRequestStates
                      (apiRequestDone message path result now σ)
                    !! getAutoRequestStateKey id token)).
Proof.
  assert (unknown_address (JS.template (m_targetIp message)) σ →
          ∀ path result,
            autoRequestStates (apiRequestDone message path result now σ)
            = autoRequestStates σ
            ∧ timers (apiRequestDone message path result now σ) = timers σ)
    as Hdone.
  { intros Hun path result. unfold apiRequestDone.
    rewrite (findDeviceId_none _ _ Hun).
    destruct (send_fields (FApiResponse (m_requestId message) result) σ)
      as (E & T & _).
    by destruct (authMatch path). }
  split_and!.
  - done.
  - intros Hun Hty. unfold handleMessage. rewrite Hty. cbn.
    case_match.
    { by destruct (send_fields (FApiError (m_requestId message)
                                          "Missing targetIp") σ)
        as (E & T & _). }
    destruct (m_path message) as [path|]; [|done].
    case_match; [by apply Hdone | done].
  - intros path result Hchg.
    unfold apiRequestDone in *.
    destruct (authMatch path) as [token|] eqn:Hm.
    2:{ by destruct (send_fields (FApiResponse (m_requestId message) result)
                       σ) as (E & _). }
    destruct (findDeviceId (JS.template (m_targetIp message))
                (deviceRegistry σ)) as [id|] eqn:Hf.
    2:{ by destruct (send_fields (FApiResponse (m_requestId message) result)
                       σ) as (E & _). }
    apply findDeviceId_some in Hf as (d & Hin & Hip).
    exists token, id, d. split_and!; try done.
    match goal with
    | |- context [send ?f ?σ1] =>
      destruct (send_fields f σ1) as (E & _); rewrite E; rewrite E in Hchg
    end.
    destruct (JS.truthy (Some id)); [|done].
    destruct result as [statusCode data|err].
    + destruct (statusCode >=? 400).
      * destruct (startAuthRetry_fields id token
                    (JS.template (m_targetIp message))
                    (default 80 (m_targetPort message)) (m_method message)
                    (m_body message) now σ) as (st & c & -> & _).
        rewrite lookup_insert_eq. by eexists.
      * destruct (statusCode =? 200); [|done].
        destruct (startPingKeepalive_fields id token
                    (JS.template (m_targetIp message))
                    (default 80 (m_targetPort message)) now σ)
          as (st & -> & _).
        rewrite lookup_insert_eq. by eexists.
    + destruct (startAuthRetry_fields id token
                  (JS.template (m_targetIp message))
                  (default 80 (m_targetPort message)) (m_method message)
                  (m_body message) now σ) as (st & c & -> & _).
      rewrite lookup_insert_eq. by eexists.
Qed.

(** C10 at an auth call to an address no discovered device lists. *)
Lemma C10_auto_request_needs_known_device_witness :
  let σ := run init (take 3 failed_auth) in
  let message := AgentSample.api_request "req-2" "10.0.0.9" "/api/tok/auth" in
  autoRequestStates (apiRequestDone message "/api/tok/auth"
                       (Failure "ECONNREFUSED") 300 σ)
  = autoRequestStates σ
  ∧ timers (apiRequestDone message "/api/tok/auth"
              (Failure "ECONNREFUSED") 300 σ) = timers σ.
Proof.
  intros σ message.
  apply (proj1 (C10_auto_request_needs_known_device message 300 σ)).
  intros id d Hin.
  assert (deviceRegistry σ
          = [("ipad-1",
              device_of (AgentSample.onsong "server" "ipad-1"
                                            ["192.168.1.20"]))]) as E.
  { vm_compute. reflexivity. }
  rewrite E in Hin. apply list_elem_of_singleton in Hin as [= -> ->].
  cbn. intros [=]%list_elem_of_singleton.
Defined.

End AgentFacts.
(** ** The agent: further properties *)

Module AgentMoreFacts.

Import Agent AgentSpec AgentMore AgentFacts.

(** *** The registry holds qualifying devices, each once *)

Lemma registry_set_Forall (P : string * Device → Prop) k d l :
  P (k, d) → Forall P l → Forall P (registry_set k d l).
Proof.
  intros Hk. induction 1 as [|[k' d'] l Hx Hl IH]; cbn.
  - by constructor.
  - destruct (String.eqb k' k); by constructor.
Qed.

Lemma registry_delete_subseteq k l : registry_delete k l ⊆ l.
Proof.
  induction l as [|[k' d'] l IH]; cbn; [done|].
  destruct (String.eqb k' k).
  - intros x Hx. by right.
  - intros x [->|Hx]%elem_of_cons; [by left | right; auto].
Qed.

Lemma registry_delete_ok k l : registry_ok l → registry_ok (registry_delete k l).
Proof.
  intros [Hnd Hall]. split.
  - induction l as [|[k' d'] l IH]; cbn; [done|].
    cbn in Hnd. apply NoDup_cons in Hnd as [Hk' Hnd].
    apply Forall_cons in Hall as [_ Hall].
    destruct (String.eqb k' k); [done|].
    cbn. apply NoDup_cons. split; [|auto].
    intros Hin. apply Hk'.
    apply list_elem_of_fmap in Hin as (x & -> & Hx).
    apply list_elem_of_fmap. exists x. split; [done|].
    by apply registry_delete_subseteq in Hx.
  - apply Forall_forall. intros x Hx%registry_delete_subseteq.
    by eapply Forall_forall in Hall.
Qed.

Lemma qualifies_entry service :
  qualifies service = true → entry_ok (getDeviceId service, device_of service).
Proof.
  unfold qualifies, entry_ok, getDeviceId, device_of. cbn.
  destruct (svc_txt service) as [t|]; cbn.
  2:{ rewrite !lookup_empty. intros [_ H]%andb_prop. discriminate H. }
  intros [Hrole Hid]%andb_prop. rewrite Hid.
  apply RelayFacts.truthy_Some_nonempty in Hid as (id & Hid & Hne).
  rewrite Hid. cbn. split_and!; try done.
  apply orb_prop in Hrole as [H|H];
    apply RelayFacts.strict_eq_true in H; auto.
Qed.

Lemma on_up_registry_ok service σ :
  registry_ok (deviceRegistry σ) → registry_ok (deviceRegistry (on_up service σ)).
Proof.
  intros [Hnd Hall]. rewrite on_up_registry.
  destruct (qualifies service) eqn:Hq; cbn [andb]; [|done].
  destruct (_ || _); [|done].
  split; [by apply registry_set_NoDup|].
  apply registry_set_Forall; [|done]. by apply qualifies_entry.
Qed.

(** What an event does to the registry: only an up event and the
    firing of a removal timer touch it. *)
Lemma apiRequestDone_registry message path result now σ :
  deviceRegistry (apiRequestDone message path result now σ) = deviceRegistry σ.
Proof.
  unfold apiRequestDone.
  assert (∀ f σ', deviceRegistry (default σ' (send f σ')) = deviceRegistry σ')
    as Hsend.
  { intros f σ'. unfold send. by repeat case_match. }
  rewrite Hsend.
  assert (∀ d a ip p m b,
            deviceRegistry (startAuthRetry d a ip p m b now σ)
            = deviceRegistry σ) as Hretry.
  { intros. unfold startAuthRetry. fields.
    by destruct (cleanupAutoRequests_fields
                   (getAutoRequestStateKey d a) σ) as (_ & _ & -> & _). }
  assert (∀ d a ip p,
            deviceRegistry (startPingKeepalive d a ip p now σ)
            = deviceRegistry σ) as Hping.
  { intros. unfold startPingKeepalive. fields.
    by destruct (cleanupAutoRequests_fields
                   (getAutoRequestStateKey d a) σ) as (_ & _ & -> & _). }
  repeat case_match; auto.
Qed.

Lemma step_registry σ ev :
  deviceRegistry (step σ ev)
  = if crashed σ then deviceRegistry σ else
    match ev with
    | BonjourUp service => deviceRegistry (on_up service σ)
    | TimerFires t now =>
      match timers σ !! t with
      | Some tm =>
        match callback tm with
        | RemoveDevice d =>
          if registry_has d (deviceRegistry σ)
          then registry_delete d (deviceRegistry σ)
          else deviceRegistry σ
        | _ => deviceRegistry σ
        end
      | None => deviceRegistry σ
      end
    | _ => deviceRegistry σ
    end.
Proof.
  unfold step. destruct (crashed σ); [done|].
  destruct ev as [|service|service|s now|data now|s|id r now|t now].
  - unfold connect. by case_match.
  - done.
  - unfold on_down. by case_match.
  - unfold on_open. set (σ1 := set_isConnected true _).
    destruct (send FRegister σ1) as [σ2|] eqn:Hs; [|done].
    assert (deviceRegistry σ2 = deviceRegistry σ) as <-.
    { unfold send in Hs. repeat case_match; try done. by injection Hs as <-. }
    unfold startWatchdog.
    destruct (reconnectTimer σ2); cbn; by destruct (watchdogTimer σ2).
  - unfold handleMessage, send. destruct data as [message|]; [|done].
    repeat case_match; simplify_eq; try done; apply apiRequestDone_registry.
  - unfold on_close, stopWatchdog. by repeat case_match.
  - unfold httpDone. destruct (pendingHttp σ !! id) as [k|]; [|done].
    destruct k as [message path|c|d].
    + by rewrite apiRequestDone_registry.
    + unfold authRetryDone. repeat case_match; try done.
      unfold startPingKeepalive. fields.
      destruct (cleanupAutoRequests_fields
                  (getAutoRequestStateKey (rc_deviceId c) (rc_authToken c))
                  (clearTimer_opt (rc_timeoutTimer c)
                     (clearTimer_opt (rc_intervalTimer c)
                        (set_pendingHttp (delete id (pendingHttp σ)) σ))))
        as (_ & _ & -> & _).
      by destruct (rc_timeoutTimer c), (rc_intervalTimer c).
    + done.
  - unfold timerFires. destruct (timers σ !! t) as [tm|]; [|done].
    set (σ1 := if repeating tm then σ else clearTimer t σ).
    assert (deviceRegistry σ1 = deviceRegistry σ) as E
      by (subst σ1; by destruct (repeating tm)).
    clearbody σ1.
    destruct (callback tm).
    + unfold removeDevice. rewrite <- E.
      by destruct (registry_has deviceId0 (deviceRegistry σ1)).
    + rewrite <- E. unfold watchdogCheck, stopWatchdog.
      by repeat case_match.
    + rewrite <- E. unfold connect. by case_match.
    + rewrite <- E. unfold connect. by case_match.
    + by rewrite <- E.
    + by destruct (cleanupAutoRequests_fields stateKey σ1)
        as (_ & _ & -> & _).
    + by rewrite <- E.
    + by destruct (cleanupAutoRequests_fields stateKey σ1)
        as (_ & _ & -> & _).
Qed.

Lemma registry_ok_reachable evs : registry_ok (deviceRegistry (run init evs)).
Proof.
  induction evs as [|ev evs IH] using rev_ind.
  - split; [apply NoDup_nil_2 | constructor].
  - rewrite agent_run_snoc, step_registry.
    destruct (crashed (run init evs)); [done|].
    destruct ev; try done.
    + by apply on_up_registry_ok.
    + repeat case_match; try done. by apply registry_delete_ok.
Qed.

(** X12.  On every reachable state of the agent the device registry
    holds no device id twice, and every entry is stored under the
    non-empty device id of its own TXT record and has the role [server]
    or [client]: what is not a qualifying service never gets in. *)
Theorem X12_registry_holds_qualifying_devices_once (evs : list Event) :
  NoDup (deviceRegistry (run init evs)).*1
  ∧ ∀ id d, (id, d) ∈ deviceRegistry (run init evs) →
            id ≠ "" ∧ txt d !! "deviceid" = Some id
            ∧ (txt d !! "role" = Some "server"
               ∨ txt d !! "role" = Some "client").
Proof.
  destruct (registry_ok_reachable evs) as [Hnd Hall].
  split; [done|]. intros id d Hin.
  rewrite Forall_forall in Hall. exact (Hall (id, d) Hin).
Qed.

(** X12 at a registry with one device. *)
Lemma X12_registry_holds_qualifying_devices_once_witness :
  let d := device_of (AgentSample.onsong "server" "ipad-1" ["192.168.1.20"]) in
  "ipad-1" ≠ ""
  ∧ txt d !! "deviceid" = Some "ipad-1"
  ∧ (txt d !! "role" = Some "server" ∨ txt d !! "role" = Some "client").
Proof.
  intros d.
  apply (proj2 (X12_registry_holds_qualifying_devices_once
                  [BonjourUp (AgentSample.onsong "server" "ipad-1"
                                                 ["192.168.1.20"])])).
  assert (deviceRegistry
            (run init [BonjourUp (AgentSample.onsong "server" "ipad-1"
                                                     ["192.168.1.20"])])
          = [("ipad-1", d)]) as E by (vm_compute; reflexivity).
  rewrite E. by apply list_elem_of_singleton.
Defined.

(** *** The timer table *)

Lemma calm_refl σ : calm σ σ.
Proof. split_and!; [done | done | by left]. Qed.

Lemma calm_trans σ1 σ2 σ3 : calm σ1 σ2 → calm σ2 σ3 → calm σ1 σ3.
Proof.
  intros (W1 & R1 & T1) (W2 & R2 & T2).
  split_and!; [congruence | congruence |].
  intros t tm Ht. apply T2 in Ht as [Ht|Ht]; [|by right]. by apply T1.
Qed.

Lemma TimerInv_calm σ σ' : calm σ σ' → TimerInv σ → TimerInv σ'.
Proof.
  intros (W & R & T) [Hs Hw Hr]. split.
  - intros t tm Ht. apply T in Ht as [Ht|[_ Ht]]; [by eapply Hs | done].
  - intros t tm Ht Hcb. rewrite W.
    apply T in Ht as [Ht|[Ht _]]; [by eapply Hw|].
    by rewrite Hcb in Ht.
  - intros t tm Ht Hcb. rewrite R.
    apply T in Ht as [Ht|[Ht _]]; [by eapply Hr|].
    by rewrite Hcb in Ht.
Qed.

Lemma TimerInv_init : TimerInv init.
Proof. split; intros *; cbn; by rewrite lookup_empty. Qed.

Lemma calm_clearTimer t σ : calm σ (clearTimer t σ).
Proof. calm_step. Qed.

Lemma calm_clearTimer_opt h σ : calm σ (clearTimer_opt h σ).
Proof. destruct h; [apply calm_clearTimer | apply calm_refl]. Qed.

Lemma calm_connect σ : calm σ (connect σ).
Proof. unfold connect. case_match; [apply calm_refl | calm_step]. Qed.

Lemma calm_on_up service σ : calm σ (on_up service σ).
Proof.
  unfold on_up. repeat (case_match; try apply calm_refl); calm_step.
Qed.

Lemma calm_on_down service σ : calm σ (on_down service σ).
Proof. unfold on_down. case_match; [apply calm_refl | calm_step]. Qed.

Lemma calm_removeDevice d σ : calm σ (removeDevice d σ).
Proof. unfold removeDevice. case_match; [calm_step | apply calm_refl]. Qed.

Lemma calm_send f σ : calm σ (default σ (send f σ)).
Proof. unfold send. repeat case_match; try apply calm_refl. calm_step. Qed.

Lemma calm_request m url k σ : calm σ (request m url k σ).
Proof. calm_step. Qed.

Lemma calm_cleanupAutoRequests k σ : calm σ (cleanupAutoRequests k σ).
Proof.
  unfold cleanupAutoRequests. case_match; [|apply calm_refl].
  eapply calm_trans; [apply calm_clearTimer_opt|].
  eapply calm_trans; [apply calm_clearTimer_opt|]. calm_step.
Qed.

Lemma calm_startPingKeepalive d a ip p now σ :
  calm σ (startPingKeepalive d a ip p now σ).
Proof.
  unfold startPingKeepalive.
  eapply calm_trans; [apply calm_cleanupAutoRequests|]. calm_step.
Qed.

Lemma calm_startAuthRetry d a ip p m b now σ :
  calm σ (startAuthRetry d a ip p m b now σ).
Proof.
  unfold startAuthRetry.
  eapply calm_trans; [apply calm_cleanupAutoRequests|]. calm_step.
Qed.

Lemma calm_authRetryDone c r now σ : calm σ (authRetryDone c r now σ).
Proof.
  unfold authRetryDone. destruct r as [statusCode data|err];
    [|apply calm_refl].
  case_match; [|apply calm_refl].
  eapply calm_trans; [apply calm_clearTimer_opt|].
  eapply calm_trans; [apply calm_clearTimer_opt|].
  apply calm_startPingKeepalive.
Qed.

Lemma calm_apiRequestDone message path result now σ :
  calm σ (apiRequestDone message path result now σ).
Proof.
  unfold apiRequestDone.
  eapply calm_trans; [|apply calm_send].
  repeat case_match;
    lazymatch goal with
    | |- calm ?σ ?σ => apply calm_refl
    | |- calm _ (startAuthRetry _ _ _ _ _ _ _ _) => apply calm_startAuthRetry
    | |- calm _ (startPingKeepalive _ _ _ _ _ _) =>
      apply calm_startPingKeepalive
    end.
Qed.

Lemma calm_handleMessage data now σ : calm σ (handleMessage data now σ).
Proof.
  unfold handleMessage. destruct data as [message|]; [|apply calm_refl].
  repeat case_match;
    lazymatch goal with
    | |- calm ?σ ?σ => apply calm_refl
    | |- calm _ (default _ (send _ _)) => apply calm_send
    | |- calm _ (apiRequestDone _ _ _ _ _) => apply calm_apiRequestDone
    | |- calm _ (request _ _ _ _) => apply calm_request
    | _ => idtac
    end.
  match goal with H : send _ _ = Some _ |- _ => rename H into Hs end.
  unfold send in Hs. repeat case_match; try done. injection Hs as <-.
  calm_step.
Qed.

Lemma calm_httpDone id r now σ : calm σ (httpDone id r now σ).
Proof.
  unfold httpDone. destruct (pendingHttp σ !! id) as [k|]; [|apply calm_refl].
  eapply calm_trans with (set_pendingHttp (delete id (pendingHttp σ)) σ);
    [calm_step|].
  destruct k; [apply calm_apiRequestDone | apply calm_authRetryDone
              | apply calm_refl].
Qed.

Lemma TimerInv_stopWatchdog σ : TimerInv σ → TimerInv (stopWatchdog σ).
Proof.
  intros [Hs Hw Hr]. unfold stopWatchdog.
  destruct (watchdogTimer σ) as [w|] eqn:Ew.
  - split; intros t tm; fields; rewrite lookup_delete;
      case_decide; try done; intros Ht; eauto.
    intros Hcb. specialize (Hw t tm Ht Hcb). congruence.
  - split; intros t tm; fields; eauto.
    intros Ht Hcb. specialize (Hw t tm Ht Hcb). congruence.
Qed.

Lemma TimerInv_startWatchdog now σ : TimerInv σ → TimerInv (startWatchdog now σ).
Proof.
  intros [Hs Hw Hr]. unfold startWatchdog.
  split; intros t tm; fields; rewrite lookup_insert; case_decide.
  - by intros [= <-].
  - rewrite clearTimer_opt_lookup. case_decide; [done|]. apply Hs.
  - subst t. by destruct (watchdogTimer σ).
  - rewrite clearTimer_opt_lookup. case_decide; [done|].
    intros Ht Hcb. specialize (Hw t tm Ht Hcb). congruence.
  - by intros [= <-].
  - rewrite clearTimer_opt_lookup. case_decide; [done|].
    intros Ht Hcb. specialize (Hr t tm Ht Hcb).
    by destruct (watchdogTimer σ).
Qed.

Lemma TimerInv_watchdogCheck now σ : TimerInv σ → TimerInv (watchdogCheck now σ).
Proof.
  intros HI. unfold watchdogCheck. case_match; [|done].
  apply TimerInv_stopWatchdog in HI.
  eapply TimerInv_calm; [|exact HI].
  case_match; calm_step.
Qed.

Lemma TimerInv_on_open s now σ : TimerInv σ → TimerInv (on_open s now σ).
Proof.
  intros HI. unfold on_open. set (σ1 := set_isConnected true _).
  assert (TimerInv σ1) as HI1.
  { eapply TimerInv_calm; [|exact HI]. subst σ1. calm_step. }
  destruct (send FRegister σ1) as [σ2|] eqn:Hsend.
  - assert (TimerInv σ2) as HI2.
    { eapply TimerInv_calm; [|exact HI1].
      pose proof (calm_send FRegister σ1) as Hc. by rewrite Hsend in Hc. }
    apply TimerInv_startWatchdog.
    destruct (reconnectTimer σ2) as [r|] eqn:Er; [|done].
    destruct HI2 as [Hs Hw Hr].
    split; intros t tm; fields; rewrite lookup_delete;
      case_decide; try done; intros Ht; eauto.
    intros Hcb. specialize (Hr t tm Ht Hcb). congruence.
  - eapply TimerInv_calm; [|exact HI1]. calm_step.
Qed.

Lemma TimerInv_on_close s σ : TimerInv σ → TimerInv (on_close s σ).
Proof.
  intros HI. unfold on_close. set (σ2 := set_ws None _).
  assert (TimerInv (stopWatchdog σ2)) as HI3.
  { apply TimerInv_stopWatchdog.
    eapply TimerInv_calm; [|exact HI]. subst σ2. calm_step. }
  destruct (reconnectTimer (stopWatchdog σ2)) as [r|] eqn:Er; [done|].
  destruct HI3 as [Hs Hw Hr].
  split; intros t tm; fields; rewrite lookup_insert; case_decide.
  - by intros [= <-].
  - apply Hs.
  - by intros [= <-].
  - apply Hw.
  - by subst t.
  - intros Ht Hcb. specialize (Hr t tm Ht Hcb). congruence.
Qed.

Lemma TimerInv_timerFires t now σ : TimerInv σ → TimerInv (timerFires t now σ).
Proof.
  intros HI. unfold timerFires.
  destruct (timers σ !! t) as [tm|] eqn:Et; [|done].
  set (σ1 := if repeating tm then σ else clearTimer t σ).
  assert (TimerInv σ1) as HI1.
  { subst σ1. destruct (repeating tm); [done|].
    eapply TimerInv_calm; [apply calm_clearTimer | done]. }
  destruct (callback tm) eqn:Ecb.
  - eapply TimerInv_calm; [apply calm_removeDevice | done].
  - by apply TimerInv_watchdogCheck.
  - eapply TimerInv_calm; [apply calm_connect | done].
  - eapply TimerInv_calm; [apply calm_connect|].
    pose proof (ti_shape σ HI t tm Et) as Hshape.
    unfold timer_shape in Hshape. rewrite Ecb in Hshape.
    apply andb_prop in Hshape as [_ Hrep%negb_true_iff].
    subst σ1. rewrite Hrep. destruct HI as [Hs Hw Hr].
    split; intros t' tm'; fields; rewrite lookup_delete;
      case_decide; try done; intros Ht'; eauto.
    intros Hcb. pose proof (Hr t' tm' Ht' Hcb) as E1.
    pose proof (Hr t tm Et Ecb) as E2. congruence.
  - eapply TimerInv_calm; [apply calm_request | done].
  - eapply TimerInv_calm; [apply calm_cleanupAutoRequests | done].
  - eapply TimerInv_calm; [apply calm_request | done].
  - eapply TimerInv_calm; [apply calm_cleanupAutoRequests | done].
Qed.

Lemma TimerInv_step σ ev : TimerInv σ → TimerInv (step σ ev).
Proof.
  intros HI. unfold step. destruct (crashed σ); [done|].
  destruct ev.
  - eapply TimerInv_calm; [apply calm_connect | done].
  - eapply TimerInv_calm; [apply calm_on_up | done].
  - eapply TimerInv_calm; [apply calm_on_down | done].
  - by apply TimerInv_on_open.
  - eapply TimerInv_calm; [apply calm_handleMessage | done].
  - by apply TimerInv_on_close.
  - eapply TimerInv_calm; [apply calm_httpDone | done].
  - by apply TimerInv_timerFires.
Qed.

Lemma TimerInv_reachable evs : TimerInv (run init evs).
Proof.
  induction evs as [|ev evs IH] using rev_ind; [apply TimerInv_init|].
  rewrite agent_run_snoc. by apply TimerInv_step.
Qed.

Lemma registry_has_set_mono id k d l :
  registry_has id l = true → registry_has id (registry_set k d l) = true.
Proof.
  destruct (decide (k = id)) as [->|Hne]; [by rewrite registry_has_set|].
  unfold registry_has. by rewrite registry_get_set_ne.
Qed.

Lemma registry_get_delete_ne k id l :
  k ≠ id → registry_get id (registry_delete k l) = registry_get id l.
Proof.
  intros Hne. induction l as [|[k' d'] l IH]; cbn; [done|].
  destruct (String.eqb k' k) eqn:E; cbn.
  - apply String.eqb_eq in E as ->.
    by apply String.eqb_neq in Hne as ->.
  - by rewrite IH.
Qed.

Lemma timer_shape_removal tm d :
  timer_shape tm = true → callback tm = RemoveDevice d → tm = removal_timer d.
Proof.
  unfold timer_shape. destruct tm as [dl rp cb]. cbn. intros H ->.
  apply andb_prop in H as [->%Z.eqb_eq ->%negb_true_iff]. done.
Qed.

(** X13.  On a reachable state of the agent, a device that is in the
    registry is still there after the next event, unless that event is
    the firing of an armed removal timer of this device: a one-shot
    timer of 600 seconds whose callback removes this device id.  No
    other event, and no other device's timer, takes a device out. *)
Theorem X13_device_leaves_only_when_removal_timer_fires
    (evs : list Event) (ev : Event) (id : string) :
  registry_has id (deviceRegistry (run init evs)) = true →
  registry_has id (deviceRegistry (step (run init evs) ev)) = false →
  ∃ t now, ev = TimerFires t now
           ∧ timers (run init evs) !! t = Some (removal_timer id).
Proof.
  intros Hin Hout. rewrite step_registry in Hout.
  destruct (crashed (run init evs)); [congruence|].
  destruct ev as [|service|service|s now|data now|s|i r now|t now];
    try congruence.
  - rewrite on_up_registry in Hout.
    case_match; [|congruence].
    by rewrite registry_has_set_mono in Hout.
  - destruct (timers (run init evs) !! t) as [tm|] eqn:Et; [|congruence].
    destruct (callback tm) as [d| | | | | | |] eqn:Ecb; try congruence.
    destruct (registry_has d (deviceRegistry (run init evs)));
      [|congruence].
    destruct (decide (d = id)) as [->|Hne].
    + exists t, now. split; [done|]. rewrite Et. f_equal.
      apply timer_shape_removal; [|done].
      by eapply (ti_shape _ (TimerInv_reachable evs)).
    + unfold registry_has in *.
      rewrite registry_get_delete_ne in Hout by done. congruence.
Qed.

(** X13 at the removal of a device ten minutes after it went down. *)
Lemma X13_device_leaves_only_when_removal_timer_fires_witness :
  ∃ t now, TimerFires 0 600000 = TimerFires t now
           ∧ timers (run init (take 2 down_twice)) !! t
             = Some (removal_timer "ipad-1").
Proof.
  apply (X13_device_leaves_only_when_removal_timer_fires
           (take 2 down_twice) (TimerFires 0 600000) "ipad-1");
    vm_compute; reflexivity.
Defined.

(** X14.  On every reachable state of the agent each armed timer has
    the delay and the kind the source gives the timer of its callback:
    a device removal is a timeout of 600 seconds, the watchdog check an
    interval of 10 seconds, the reconnect after a watchdog breach a
    timeout of 1 second, the reconnect after a close a timeout of 5
    seconds, an auto-request tick an interval of 2 seconds and an
    auto-request expiry a timeout of 60 seconds. *)
Theorem X14_armed_timers_have_the_delay_of_their_callback
    (evs : list Event) (t : nat) (tm : Timer) :
  timers (run init evs) !! t = Some tm →
  match callback tm with
  | RemoveDevice _ => delay tm = 600000 ∧ repeating tm = false
  | WatchdogCheck => delay tm = 10000 ∧ repeating tm = true
  | WatchdogReconnect => delay tm = 1000 ∧ repeating tm = false
  | CloseReconnect => delay tm = 5000 ∧ repeating tm = false
  | AuthRetryTick _ | PingTick _ _ _ _ =>
    delay tm = 2000 ∧ repeating tm = true
  | AuthRetryExpire _ _ | PingExpire _ _ =>
    delay tm = 60000 ∧ repeating tm = false
  end.
Proof.
  intros Ht. pose proof (ti_shape _ (TimerInv_reachable evs) t tm Ht) as H.
  unfold timer_shape in H.
  destruct (callback tm);
    apply andb_prop in H as [->%Z.eqb_eq H];
    (split; [done|]); by destruct (repeating tm).
Qed.

(** X14 at the watchdog interval of an open uplink. *)
Lemma X14_armed_timers_have_the_delay_of_their_callback_witness :
  delay watchdog_timer = 10000 ∧ repeating watchdog_timer = true.
Proof.
  apply (X14_armed_timers_have_the_delay_of_their_callback
           [Start; WsOpen 0 1000] 0%nat watchdog_timer).
  vm_compute. reflexivity.
Defined.

(** X15.  On every reachable state of the agent an armed watchdog
    interval is the one [watchdogTimer] names and an armed reconnect
    timeout of the close handler is the one [reconnectTimer] names, so
    at most one of each is armed at any time: neither opening the
    uplink again nor closing it again piles timers up. *)
Theorem X15_one_watchdog_and_one_close_reconnect (evs : list Event) :
  (∀ t tm, timers (run init evs) !! t = Some tm →
           callback tm = WatchdogCheck →
           watchdogTimer (run init evs) = Some t)
  ∧ (∀ t tm, timers (run init evs) !! t = Some tm →
             callback tm = CloseReconnect →
             reconnectTimer (run init evs) = Some t)
  ∧ (∀ t1 t2 tm1 tm2,
       timers (run init evs) !! t1 = Some tm1 →
       timers (run init evs) !! t2 = Some tm2 →
       callback tm1 = callback tm2 →
       uplink_callback (callback tm1) = true →
       t1 = t2).
Proof.
  destruct (TimerInv_reachable evs) as [_ Hw Hr].
  split_and!; [done | done |].
  intros t1 t2 tm1 tm2 H1 H2 E Hup.
  destruct (callback tm1) eqn:E1; try discriminate Hup.
  - pose proof (Hw t1 tm1 H1 E1) as W1. symmetry in E.
    pose proof (Hw t2 tm2 H2 E) as W2. congruence.
  - pose proof (Hr t1 tm1 H1 E1) as R1. symmetry in E.
    pose proof (Hr t2 tm2 H2 E) as R2. congruence.
Qed.

(** X15 after the uplink opened, closed, opened and closed again. *)
Lemma X15_one_watchdog_and_one_close_reconnect_witness :
  reconnectTimer (run init [Start; WsOpen 0 0; WsClose 0; TimerFires 1 5000;
                            WsOpen 1 6000; WsClose 1])
  = Some 3%nat.
Proof.
  apply (proj1 (proj2 (X15_one_watchdog_and_one_close_reconnect
                         [Start; WsOpen 0 0; WsClose 0; TimerFires 1 5000;
                          WsOpen 1 6000; WsClose 1]))
           3%nat close_reconnect);
    vm_compute; reflexivity.
Defined.

(** *** The auth path *)

Lemma substring_split s : ∀ k, (k ≤ String.length s)%nat →
  s = String.substring 0 k s +:+ String.substring k (String.length s - k) s.
Proof.
  induction s as [|c s IH]; intros k Hk.
  - cbn in Hk. by replace k with 0%nat by lia.
  - destruct k as [|k].
    + cbn. by rewrite RelayMoreFacts.substring_all.
    + cbn in Hk. cbn [String.length String.substring Nat.sub].
      change (String c ?a +:+ ?b) with (String c (a +:+ b)).
      f_equal. apply IH. lia.
Qed.

Lemma substring_prefix a b :
  String.substring 0 (String.length a) (a +:+ b) = a.
Proof.
  induction a as [|c a IH]; [by destruct b|].
  change (String c a +:+ b) with (String c (a +:+ b)).
  cbn. by rewrite IH.
Qed.

Lemma prefix_api path :
  String.prefix "/api/" path = true →
  ∃ rest, path = "/api/" +:+ rest.
Proof.
  intros H.
  do 5 (destruct path as [|? path]; [discriminate H|];
        cbn [String.prefix] in H;
        match type of H with
        | (if Ascii.ascii_dec ?a ?b then _ else _) = true =>
          destruct (Ascii.ascii_dec a b) as [<-|]; [|discriminate H]
        end).
  by exists path.
Qed.

(** X16.  The test the agent makes on the path of a relayed request,
    the regular expression [^\/api\/([^\/]+)\/auth$], accepts exactly
    the paths [/api/{token}/auth] whose token is not empty and holds no
    slash, and captures that token: a query string, a trailing slash or
    a further path segment makes the path no auth path, so that no
    auto-request is started for it. *)
Theorem X16_auth_path_shape (path token : string) :
  authMatch path = Some token
  ↔ path = "/api/" +:+ token +:+ "/auth"
    ∧ token ≠ "" ∧ JS.includes "/" token = false.
Proof.
  unfold authMatch. split.
  - destruct (_ && _) eqn:E; [|done].
    apply andb_prop in E as [[Hn%Nat.leb_le Hp]%andb_prop He%String.eqb_eq].
    destruct (JS.includes _ _) eqn:Hi; [done|]. intros [= <-].
    apply prefix_api in Hp as [rest ->].
    change (String.length ("/api/" +:+ rest))
      with (S (S (S (S (S (String.length rest)))))) in *.
    assert (∃ m, String.length rest = S (S (S (S (S (S m))))))
      as [m Hm] by (exists (String.length rest - 6)%nat; lia).
    rewrite Hm in *.
    cbn [Nat.sub] in *.
    cbv [String.append] in He, Hi. cbn [String.substring] in He, Hi.
    change (String.substring 5 (S m) ("/api/" +:+ rest))
      with (String.substring 0 (S m) rest).
    pose proof (substring_split rest (S m)) as Hs.
    rewrite Hm in Hs.
    replace (S (S (S (S (S (S m))))) - S m)%nat with 5%nat in Hs by lia.
    rewrite He in Hs. specialize (Hs ltac:(lia)).
    split_and!; [by rewrite <- Hs | | done].
    destruct rest; [done|]. done.
  - intros (-> & Hne & Hi).
    rewrite RelayMoreFacts.prefix_app, andb_true_r.
    rewrite !RelayMoreFacts.length_app_string.
    change (String.length "/api/") with 5%nat.
    change (String.length "/auth") with 5%nat.
    assert (String.length token ≠ 0)%nat as Hlen by (by destruct token).
    replace (5 + (String.length token + 5) - 10)%nat
      with (String.length token) by lia.
    replace (5 + (String.length token + 5) - 5)%nat
      with (String.length ("/api/" +:+ token)) 
      by (rewrite RelayMoreFacts.length_app_string; cbn; lia).
    change ("/api/" +:+ token +:+ "/auth")
      with (("/api/" +:+ token) +:+ "/auth") at 1.
    pose proof (RelayMoreFacts.substring_app ("/api/" +:+ token) "/auth")
      as Hsub.
    change (String.length "/auth") with 5%nat in Hsub. rewrite Hsub.
    change (String.substring 5 (String.length token)
              ("/api/" +:+ token +:+ "/auth"))
      with (String.substring 0 (String.length token) (token +:+ "/auth")).
    rewrite substring_prefix, Hi, String.eqb_refl, andb_true_r.
    destruct (Nat.leb_spec 11 (5 + (String.length token + 5))); [done|lia].
Qed.

(** X16 at the auth path of the token [tok]. *)
Lemma X16_auth_path_shape_witness : authMatch "/api/tok/auth" = Some "tok".
Proof.
  apply (proj2 (X16_auth_path_shape "/api/tok/auth" "tok")).
  split_and!; [reflexivity | discriminate | reflexivity].
Defined.

(** *** Auto-requests *)

(** X17.  When a retry of the auth call comes back with status 200 on
    a reachable state, whether or not the retry's state is still
    stored, the agent stores a ping keep-alive state under the key of
    the retry's device and token, started at that time, and arms its
    interval of 2 seconds and its timeout of 60 seconds under the next
    two handles; no other timer is then armed for the key, so the retry
    has stopped.  Any other answer, and a failed call, only takes the
    call off the table of calls in flight: the retry goes on. *)
Theorem X17_successful_retry_starts_keepalive
    (evs : list Event) (id : nat) (c : RetryClosure) (now : Z) :
  let σ := run init evs in
  let k := getAutoRequestStateKey (rc_deviceId c) (rc_authToken c) in
  crashed σ = false →
  pendingHttp σ !! id = Some (AfterAuthRetry c) →
  (∀ data,
     let σ' := step σ (HttpDone id (Success 200 data) now) in
     (∃ st, autoRequestStates σ' !! k = Some st ∧ state st = PingKeepalive
            ∧ startTime st = now)
     ∧ timers σ' !! next_timer σ = Some (ping_tick c)
     ∧ timers σ' !! S (next_timer σ) = Some (ping_expire c)
     ∧ ∀ t tm, timers σ' !! t = Some tm →
               timer_key (callback tm) = Some k →
               t = next_timer σ ∨ t = S (next_timer σ))
  ∧ (∀ r, (∀ data, r ≠ Success 200 data) →
          step σ (HttpDone id r now)
          = set_pendingHttp (delete id (pendingHttp σ)) σ).
Proof.
  intros σ k Hc Hp. split.
  - intros data σ'. subst σ'. unfold step. rewrite Hc.
    unfold httpDone. rewrite Hp. unfold authRetryDone.
    change (200 =? 200) with true. cbn iota.
    set (σ2 := clearTimer_opt (rc_timeoutTimer c) _).
    assert (benign σ σ2) as Hb.
    { subst σ2.
      eapply benign_trans; [|apply benign_clearTimer_opt].
      eapply benign_trans; [|apply benign_clearTimer_opt].
      benign_step. }
    assert (AutoInv σ2) as HI2.
    { eapply AutoInv_benign; [exact Hb | apply AutoInv_reachable]. }
    assert (next_timer σ2 = next_timer σ) as N2.
    { subst σ2. by destruct (rc_timeoutTimer c), (rc_intervalTimer c). }
    pose proof (AutoInv_startPingKeepalive (rc_deviceId c) (rc_authToken c)
                  (rc_deviceIp c) (rc_devicePort c) now σ2 HI2) as [Hown _].
    assert (startTime <$> (autoRequestStates
                 (startPingKeepalive (rc_deviceId c) (rc_authToken c)
                    (rc_deviceIp c) (rc_devicePort c) now σ2) !! k)
            = Some now) as Hstart.
    { unfold startPingKeepalive. fields. fold k.
      by rewrite lookup_insert_eq. }
    destruct (startPingKeepalive_fields (rc_deviceId c) (rc_authToken c)
                (rc_deviceIp c) (rc_devicePort c) now σ2)
      as (st & E & Hstate & Hi & Ht & N & T).
    fold k in E, T.
    rewrite N2 in *.
    split_and!.
    + exists st. rewrite E, lookup_insert_eq. split_and!; [done|done|].
      rewrite E, lookup_insert_eq in Hstart. by injection Hstart.
    + rewrite T, lookup_insert_ne, lookup_insert_eq by lia. done.
    + by rewrite T, lookup_insert_eq.
    + intros t tm Htm Hk.
      destruct (Hown t tm k Htm Hk) as (st' & Hst' & Hof).
      rewrite E, lookup_insert_eq in Hst'. injection Hst' as <-.
      destruct Hof as [Hof|Hof]; rewrite ?Hi, ?Ht in Hof; simplify_eq; auto.
  - intros r Hr. unfold step. rewrite Hc. unfold httpDone. rewrite Hp.
    unfold authRetryDone. destruct r as [statusCode data|err]; [|done].
    destruct (Z.eqb_spec statusCode 200) as [->|]; [|done].
    by destruct (Hr data).
Qed.

(** X17 at the first retry after a failed auth call. *)
Lemma X17_successful_retry_starts_keepalive_witness :
  timers (step (run init retry_tick) (HttpDone 1 (Success 200 "ok") 2300))
    !! 3%nat
  = Some (ping_tick retry_closure).
Proof.
  apply (proj1 (proj2 (proj1 (X17_successful_retry_starts_keepalive
                                retry_tick 1%nat retry_closure 2300
                                eq_refl eq_refl) "ok"))).
Defined.

(** X18.  When the 60-second timeout of an auto-request fires on a
    reachable state, the state stored under its key is removed from the
    map, the other keys keep theirs, and no timer stays armed for the
    key: retries and keep-alive pings end with their timeout. *)
Theorem X18_expiry_ends_auto_request
    (evs : list Event) (t : nat) (tm : Timer) (d k : string) (now : Z) :
  let σ := run init evs in
  let σ' := step σ (TimerFires t now) in
  crashed σ = false →
  timers σ !! t = Some tm →
  callback tm = AuthRetryExpire d k ∨ callback tm = PingExpire d k →
  autoRequestStates σ' = delete k (autoRequestStates σ)
  ∧ ∀ t' tm', timers σ' !! t' = Some tm' →
              timer_key (callback tm') ≠ Some k.
Proof.
  intros σ σ' Hc Ht Hcb. subst σ'. unfold step. rewrite Hc.
  unfold timerFires. rewrite Ht.
  set (σ1 := if repeating tm then σ else clearTimer t σ).
  assert (benign σ σ1) as Hb.
  { subst σ1. destruct (repeating tm);
      [apply benign_refl | apply benign_clearTimer]. }
  assert (AutoInv σ1) as HI1.
  { eapply AutoInv_benign; [exact Hb | apply AutoInv_reachable]. }
  assert (autoRequestStates σ1 = autoRequestStates σ) as E1 by apply Hb.
  destruct (AutoInv_cleanup k σ1 HI1) as [_ Hnone].
  destruct (cleanupAutoRequests_fields k σ1) as (E & _).
  rewrite E1 in E.
  by destruct Hcb as [-> | ->].
Qed.

(** X18 at the timeout of the retries that follow a failed auth call. *)
Lemma X18_expiry_ends_auto_request_witness :
  autoRequestStates (step (run init failed_auth) (TimerFires 2 60200))
  = delete "ipad-1:tok" (autoRequestStates (run init failed_auth)).
Proof.
  apply (proj1 (X18_expiry_ends_auto_request failed_auth 2%nat
                  {| delay := 60000; repeating := false;
                     callback := AuthRetryExpire "ipad-1" "ipad-1:tok" |}
                  "ipad-1" "ipad-1:tok" 60200 eq_refl eq_refl
                  (or_introl eq_refl))).
Defined.

(** *** The uplink *)

(** X19.  [connect()] is idempotent: the socket a first call creates is
    connecting, so a second call right after it creates none.  A
    reconnect scheduled twice, by the watchdog and by the close
    handler, opens one socket. *)
Theorem X19_connect_is_idempotent (σ : State) : connect (connect σ) = connect σ.
Proof.
  unfold connect at 2. unfold connect at 2.
  case_match eqn:Hbusy; [unfold connect; by rewrite Hbusy|].
  unfold connect. fields. rewrite lookup_insert_eq.
  by rewrite bool_decide_eq_true_2.
Qed.

(** X20.  On a reachable state with an open uplink, a [discover]
    message of the relay is answered on that socket with one
    [discover-response] frame that carries the request's id and one
    record per registered device, in the order of the registry; the
    records carry the device ids of the registry, each once.  Nothing
    else of the state changes. *)
Theorem X20_discover_lists_each_device_once
    (evs : list Event) (m : Message) (s : nat) (now : Z) :
  let σ := run init evs in
  crashed σ = false → ws σ = Some s → sockets σ !! s = Some OPEN →
  m_type m = "discover" →
  ∃ ds, step σ (WsMessage (Some m) now)
        = log (Sent s (FDiscoverResponse (m_requestId m) ds)) σ
        ∧ device_id_of <$> ds = Some <$> (deviceRegistry σ).*1
        ∧ NoDup (device_id_of <$> ds).
Proof.
  intros σ Hc Hws Hs Hm.
  exists (getDiscoveredDevices σ). unfold step. rewrite Hc.
  unfold handleMessage. rewrite Hm.
  change ("discover" =? "discover")%string with true. cbn iota.
  rewrite (send_ok _ _ s) by (done || by rewrite Hs).
  destruct (registry_ok_reachable evs) as [Hnd Hall]. fold σ in Hnd, Hall.
  assert (device_id_of <$> getDiscoveredDevices σ
          = Some <$> (deviceRegistry σ).*1) as E.
  { unfold getDiscoveredDevices.
    induction Hall as [|[id d] l (_ & Hid & _) Hl IH]; [done|].
    cbn. cbn in Hid. unfold device_id_of at 1. rewrite Hid. f_equal.
    apply IH. cbn in Hnd. by apply NoDup_cons in Hnd as [_ Hnd]. }
  split_and!; [done | done |].
  rewrite E. apply NoDup_fmap_2; [|done]. by intros ?? [=].
Qed.

(** X20 at a registry with one device. *)
Lemma X20_discover_lists_each_device_once_witness :
  ∃ ds, step (run init (take 3 failed_auth))
          (WsMessage (Some discover_request) 100)
        = log (Sent 0 (FDiscoverResponse (Some "req-7") ds))
            (run init (take 3 failed_auth))
        ∧ device_id_of <$> ds
          = Some <$> (deviceRegistry (run init (take 3 failed_auth))).*1
        ∧ NoDup (device_id_of <$> ds).
Proof.
  apply (X20_discover_lists_each_device_once
           (take 3 failed_auth) discover_request 0%nat 100
           eq_refl eq_refl eq_refl eq_refl).
Defined.

(** *** Relayed requests *)







(** *** Removal timers *)

Lemma still_refl σ : still σ σ.
Proof. split; [done | by left]. Qed.

Lemma still_trans σ1 σ2 σ3 : still σ1 σ2 → still σ2 σ3 → still σ1 σ3.
Proof.
  intros (D1 & T1) (D2 & T2). split; [congruence|].
  intros t tm Ht. apply T2 in Ht as [Ht|Ht]; [|by right]. by apply T1.
Qed.

Lemma tracked_still σ σ' : still σ σ' → tracked σ → tracked σ'.
Proof.
  intros (D & T) H t tm d Ht Hcb. rewrite D.
  apply T in Ht as [Ht|Ht]; [by eapply H|]. by rewrite Hcb in Ht.
Qed.

Lemma still_clearTimer t σ : still σ (clearTimer t σ).
Proof. still_step. Qed.

Lemma still_clearTimer_opt h σ : still σ (clearTimer_opt h σ).
Proof. destruct h; [apply still_clearTimer | apply still_refl]. Qed.

Lemma still_connect σ : still σ (connect σ).
Proof. unfold connect. case_match; [apply still_refl | still_step]. Qed.

Lemma still_send f σ : still σ (default σ (send f σ)).
Proof. unfold send. repeat case_match; try apply still_refl. still_step. Qed.

Lemma still_request m url k σ : still σ (request m url k σ).
Proof. still_step. Qed.

Lemma still_cleanupAutoRequests k σ : still σ (cleanupAutoRequests k σ).
Proof.
  unfold cleanupAutoRequests. case_match; [|apply still_refl].
  eapply still_trans; [apply still_clearTimer_opt|].
  eapply still_trans; [apply still_clearTimer_opt|]. still_step.
Qed.

Lemma still_startPingKeepalive d a ip p now σ :
  still σ (startPingKeepalive d a ip p now σ).
Proof.
  unfold startPingKeepalive.
  eapply still_trans; [apply still_cleanupAutoRequests|]. still_step.
Qed.

Lemma still_startAuthRetry d a ip p m b now σ :
  still σ (startAuthRetry d a ip p m b now σ).
Proof.
  unfold startAuthRetry.
  eapply still_trans; [apply still_cleanupAutoRequests|]. still_step.
Qed.

Lemma still_authRetryDone c r now σ : still σ (authRetryDone c r now σ).
Proof.
  unfold authRetryDone. destruct r as [statusCode data|err];
    [|apply still_refl].
  case_match; [|apply still_refl].
  eapply still_trans; [apply still_clearTimer_opt|].
  eapply still_trans; [apply still_clearTimer_opt|].
  apply still_startPingKeepalive.
Qed.

Lemma still_apiRequestDone message path result now σ :
  still σ (apiRequestDone message path result now σ).
Proof.
  unfold apiRequestDone.
  eapply still_trans; [|apply still_send].
  repeat case_match;
    lazymatch goal with
    | |- still ?σ ?σ => apply still_refl
    | |- still _ (startAuthRetry _ _ _ _ _ _ _ _) => apply still_startAuthRetry
    | |- still _ (startPingKeepalive _ _ _ _ _ _) =>
      apply still_startPingKeepalive
    end.
Qed.

Lemma still_handleMessage data now σ : still σ (handleMessage data now σ).
Proof.
  unfold handleMessage. destruct data as [message|]; [|apply still_refl].
  repeat case_match;
    lazymatch goal with
    | |- still ?σ ?σ => apply still_refl
    | |- still _ (default _ (send _ _)) => apply still_send
    | |- still _ (apiRequestDone _ _ _ _ _) => apply still_apiRequestDone
    | |- still _ (request _ _ _ _) => apply still_request
    | _ => idtac
    end.
  match goal with H : send _ _ = Some _ |- _ => rename H into Hs end.
  unfold send in Hs. repeat case_match; try done. injection Hs as <-.
  still_step.
Qed.

Lemma still_httpDone id r now σ : still σ (httpDone id r now σ).
Proof.
  unfold httpDone. destruct (pendingHttp σ !! id) as [k|]; [|apply still_refl].
  eapply still_trans with (set_pendingHttp (delete id (pendingHttp σ)) σ);
    [still_step|].
  destruct k; [apply still_apiRequestDone | apply still_authRetryDone
              | apply still_refl].
Qed.

Lemma still_stopWatchdog σ : still σ (stopWatchdog σ).
Proof. unfold stopWatchdog. case_match; still_step. Qed.

Lemma still_startWatchdog now σ : still σ (startWatchdog now σ).
Proof. unfold startWatchdog. destruct (watchdogTimer σ); still_step. Qed.

Lemma still_watchdogCheck now σ : still σ (watchdogCheck now σ).
Proof.
  unfold watchdogCheck. case_match; [|apply still_refl].
  eapply still_trans; [apply still_stopWatchdog|].
  case_match; still_step.
Qed.

Lemma still_on_open s now σ : still σ (on_open s now σ).
Proof.
  unfold on_open. set (σ1 := set_isConnected true _).
  assert (still σ σ1) as H1 by (subst σ1; still_step).
  pose proof (still_send FRegister σ1) as Hsend.
  destruct (send FRegister σ1) as [σ2|].
  - eapply still_trans; [|apply still_startWatchdog].
    eapply still_trans; [exact H1|].
    eapply still_trans; [exact Hsend|]. case_match; still_step.
  - eapply still_trans; [exact H1|]. still_step.
Qed.

Lemma still_on_close s σ : still σ (on_close s σ).
Proof.
  unfold on_close.
  set (σ2 := set_ws None _).
  assert (still σ σ2) as H2 by (subst σ2; still_step).
  assert (still σ (stopWatchdog σ2)) as H3.
  { eapply still_trans; [done | apply still_stopWatchdog]. }
  case_match; [done|].
  eapply still_trans; [done|]. still_step.
Qed.

Lemma tracked_on_up service σ : tracked σ → tracked (on_up service σ).
Proof.
  intros H. unfold on_up.
  destruct (negb _ && negb _); [done|].
  destruct (negb (JS.truthy _)); [done|]. cbn zeta.
  set (σ1 := match deviceRemovalTimers σ !! getDeviceId service with
             | Some t => _
             | None => σ
             end).
  assert (tracked σ1) as H1.
  { subst σ1.
    destruct (deviceRemovalTimers σ !! getDeviceId service) as [t0|] eqn:E;
      [|done].
    intros t tm d. fields. rewrite lookup_delete. case_decide; [done|].
    intros Ht Hcb. pose proof (H t tm d Ht Hcb) as Hd.
    rewrite lookup_delete_ne; [done|]. intros <-. congruence. }
  case_match; [|done]. intros t tm d. fields. apply H1.
Qed.

Lemma tracked_on_down service σ :
  deviceRemovalTimers σ !! getDeviceId service = None →
  tracked σ → tracked (on_down service σ).
Proof.
  intros Hnone H. unfold on_down. case_match; [done|].
  intros t tm d. fields. rewrite lookup_insert. case_decide as Ht.
  - subst t. intros [= <-] [= <-]. by rewrite lookup_insert_eq.
  - intros Htm Hcb. pose proof (H t tm d Htm Hcb) as Hd.
    rewrite lookup_insert_ne; [done|]. intros <-. congruence.
Qed.

Lemma tracked_timerFires t now σ :
  TimerInv σ → tracked σ → tracked (timerFires t now σ).
Proof.
  intros HI H. unfold timerFires.
  destruct (timers σ !! t) as [tm|] eqn:Et; [|done].
  set (σ1 := if repeating tm then σ else clearTimer t σ).
  assert (tracked σ1) as H1.
  { subst σ1. destruct (repeating tm); [done|].
    eapply tracked_still; [apply still_clearTimer | done]. }
  destruct (callback tm) as [d| | | | | | |] eqn:Ecb.
  - pose proof (ti_shape σ HI t tm Et) as Hshape.
    unfold timer_shape in Hshape. rewrite Ecb in Hshape.
    apply andb_prop in Hshape as [_ Hrep%negb_true_iff].
    subst σ1. rewrite Hrep in *. unfold removeDevice.
    case_match; [|done].
    intros t' tm' d'; fields. rewrite !lookup_delete. repeat case_decide;
      try done; intros Ht' Hcb'.
    + subst d'. pose proof (H t tm d Et Ecb). pose proof (H t' tm' d Ht' Hcb').
      congruence.
    + by eapply H.
  - eapply tracked_still; [apply still_watchdogCheck | done].
  - eapply tracked_still; [apply still_connect | done].
  - eapply tracked_still; [|exact H1].
    eapply still_trans; [|apply still_connect]. still_step.
  - eapply tracked_still; [apply still_request | done].
  - eapply tracked_still; [apply still_cleanupAutoRequests | done].
  - eapply tracked_still; [apply still_request | done].
  - eapply tracked_still; [apply still_cleanupAutoRequests | done].
Qed.

Lemma single_downs_from_snoc evs : ∀ σ ev,
  single_downs_from σ (evs ++ [ev])
  = single_downs_from σ evs && down_is_single (run σ evs) ev.
Proof.
  induction evs as [|e evs IH]; intros σ ev; cbn.
  - by rewrite andb_true_r.
  - by rewrite IH, andb_assoc.
Qed.

Lemma tracked_reachable evs : single_downs evs = true → tracked (run init evs).
Proof.
  unfold single_downs.
  induction evs as [|ev evs IH] using rev_ind; intros Hs.
  - intros t tm d. cbn. by rewrite lookup_empty.
  - rewrite single_downs_from_snoc in Hs.
    apply andb_prop in Hs as [Hs' Hev].
    specialize (IH Hs'). rewrite agent_run_snoc. unfold step.
    destruct (crashed (run init evs)); [done|].
    destruct ev as [|service|service|s now|data now|s|i r now|t now].
    + eapply tracked_still; [apply still_connect | done].
    + by apply tracked_on_up.
    + apply tracked_on_down; [|done]. by apply bool_decide_eq_true in Hev.
    + eapply tracked_still; [apply still_on_open | done].
    + eapply tracked_still; [apply still_handleMessage | done].
    + eapply tracked_still; [apply still_on_close | done].
    + eapply tracked_still; [apply still_httpDone | done].
    + apply tracked_timerFires; [apply TimerInv_reachable | done].
Qed.

(** X22.  On a trace on which no down event arrives for a device while
    the table of removal timers records a removal for it, every armed
    removal timer is the one the table records for its device, so at
    most one removal timer is armed for a device; and an up event that
    passes the filter leaves no removal timer armed for its device. *)
Theorem X22_armed_removal_timer_is_the_recorded_one (evs : list Event) :
  single_downs evs = true →
  (∀ t tm d, timers (run init evs) !! t = Some tm →
             callback tm = RemoveDevice d →
             deviceRemovalTimers (run init evs) !! d = Some t)
  ∧ (∀ service t tm,
       crashed (run init evs) = false → qualifies service = true →
       timers (step (run init evs) (BonjourUp service)) !! t = Some tm →
       callback tm ≠ RemoveDevice (getDeviceId service)).
Proof.
  intros Hs. pose proof (tracked_reachable evs Hs) as H.
  split; [exact H|].
  intros service t tm Hc Hq. unfold step. rewrite Hc.
  destruct (on_up_timers service (run init evs) Hq) as [_ ->].
  destruct (deviceRemovalTimers (run init evs) !! getDeviceId service)
    as [t0|] eqn:E.
  - rewrite lookup_delete. case_decide; [done|]. intros Ht Hcb.
    pose proof (H t tm _ Ht Hcb). congruence.
  - intros Ht Hcb. pose proof (H t tm _ Ht Hcb). congruence.
Qed.

(** X22 at a device that came, went, came back and went again. *)
Lemma X22_armed_removal_timer_is_the_recorded_one_witness :
  deviceRemovalTimers (run init up_down_up) !! "ipad-1" = Some 1%nat.
Proof.
  apply (proj1 (X22_armed_removal_timer_is_the_recorded_one
                  up_down_up eq_refl)
           1%nat (removal_timer "ipad-1") "ipad-1" eq_refl eq_refl).
Defined.

Lemma still_arms σ σ' : still σ σ' → arms_no_removal σ σ'.
Proof. by intros [_ H]. Qed.

Lemma unarmed_arms_no_removal d σ σ' :
  arms_no_removal σ σ' → unarmed d σ → unarmed d σ'.
Proof.
  intros T H t tm Ht Hcb. apply T in Ht as [Ht|Ht]; [by eapply H|].
  by rewrite Hcb in Ht.
Qed.

Lemma on_up_arms_no_removal service σ : arms_no_removal σ (on_up service σ).
Proof.
  unfold on_up.
  destruct (negb _ && negb _); [by left|].
  destruct (negb (JS.truthy _)); [by left|]. cbn zeta.
  destruct (deviceRemovalTimers σ !! getDeviceId service) as [t0|];
    case_match; intros t tm; fields; rewrite ?lookup_delete;
    repeat case_decide; try done; by left.
Qed.

Lemma timerFires_arms_no_removal t now σ :
  arms_no_removal σ (timerFires t now σ).
Proof.
  unfold timerFires. destruct (timers σ !! t) as [tm|]; [|by left].
  set (σ1 := if repeating tm then σ else clearTimer t σ).
  assert (still σ σ1) as H1.
  { subst σ1. destruct (repeating tm);
      [apply still_refl | apply still_clearTimer]. }
  assert (∀ σ', still σ1 σ' → arms_no_removal σ σ') as Hstill.
  { intros σ' H. by apply still_arms, (still_trans σ σ1 σ'). }
  destruct (callback tm).
  - unfold removeDevice. case_match; [|by apply Hstill, still_refl].
    intros t' tm'. fields. apply (still_arms _ _ H1).
  - apply Hstill, still_watchdogCheck.
  - apply Hstill, still_connect.
  - apply Hstill. eapply still_trans; [|apply still_connect]. still_step.
  - apply Hstill, still_request.
  - apply Hstill, still_cleanupAutoRequests.
  - apply Hstill, still_request.
  - apply Hstill, still_cleanupAutoRequests.
Qed.

Lemma stays_step σ ev d :
  not_down d ev = true →
  registry_has d (deviceRegistry σ) = true ∧ unarmed d σ →
  registry_has d (deviceRegistry (step σ ev)) = true ∧ unarmed d (step σ ev).
Proof.
  intros Hev [Hin Hun]. split.
  - rewrite step_registry.
    destruct (crashed σ); [done|].
    destruct ev as [|service|service|s now|data now|s|i r now|t now];
      try done.
    + rewrite on_up_registry. case_match; [|done].
      by apply registry_has_set_mono.
    + destruct (timers σ !! t) as [tm|] eqn:Et; [|done].
      destruct (callback tm) as [d'| | | | | | |] eqn:Ecb; try done.
      case_match; [|done].
      assert (d' ≠ d) as Hne by (intros ->; by apply (Hun t tm)).
      unfold registry_has in *. by rewrite registry_get_delete_ne.
  - unfold step. destruct (crashed σ); [done|].
    destruct ev as [|service|service|s now|data now|s|i r now|t now].
    + eapply unarmed_arms_no_removal; [apply still_arms, still_connect | done].
    + eapply unarmed_arms_no_removal; [apply on_up_arms_no_removal | done].
    + cbn in Hev. apply negb_true_iff, String.eqb_neq in Hev.
      unfold on_down. case_match; [done|].
      intros t tm. fields. rewrite lookup_insert. case_decide.
      * intros [= <-]. cbn. congruence.
      * apply Hun.
    + eapply unarmed_arms_no_removal; [apply still_arms, still_on_open | done].
    + eapply unarmed_arms_no_removal; [apply still_arms, still_handleMessage | done].
    + eapply unarmed_arms_no_removal; [apply still_arms, still_on_close | done].
    + eapply unarmed_arms_no_removal; [apply still_arms, still_httpDone | done].
    + eapply unarmed_arms_no_removal;
        [apply timerFires_arms_no_removal | done].
Qed.

Lemma on_up_unarmed service σ :
  tracked σ → qualifies service = true →
  unarmed (getDeviceId service) (on_up service σ).
Proof.
  intros H Hq t tm.
  destruct (on_up_timers service σ Hq) as [_ ->].
  destruct (deviceRemovalTimers σ !! getDeviceId service) as [t0|] eqn:E.
  - rewrite lookup_delete. case_decide; [done|]. intros Ht Hcb.
    pose proof (H t tm _ Ht Hcb). congruence.
  - intros Ht Hcb. pose proof (H t tm _ Ht Hcb). congruence.
Qed.

Lemma on_up_registers service σ :
  qualifies service = true →
  registry_has (getDeviceId service) (deviceRegistry (on_up service σ)) = true.
Proof.
  intros Hq. rewrite on_up_registry, Hq. cbn [andb].
  destruct (registry_has (getDeviceId service) (deviceRegistry σ)) eqn:E.
  - cbn. case_match; [apply registry_has_set | done].
  - cbn. apply registry_has_set.
Qed.

Lemma stays_run d evs : ∀ σ,
  no_down d evs = true →
  registry_has d (deviceRegistry σ) = true ∧ unarmed d σ →
  registry_has d (deviceRegistry (run σ evs)) = true ∧ unarmed d (run σ evs).
Proof.
  induction evs as [|ev evs IH]; intros σ Hnd H0; [done|].
  cbn in Hnd. apply andb_prop in Hnd as [Hev Hnd].
  rewrite agent_run_cons. apply IH; [done|]. by apply stays_step.
Qed.

(** X23.  The grace period works when downs come one at a time: after
    a trace on which no down event arrived for a device with a removal
    on record, a device whose up event passes the filter is in the
    registry and stays there, whatever timers fire and whatever else
    happens, for as long as no down event arrives for it. *)
Theorem X23_returned_device_stays_until_next_down
    (evs evs' : list Event) (service : Service) :
  single_downs evs = true →
  crashed (run init evs) = false →
  qualifies service = true →
  no_down (getDeviceId service) evs' = true →
  registry_has (getDeviceId service)
    (deviceRegistry (run init (evs ++ BonjourUp service :: evs'))) = true.
Proof.
  intros Hs Hc Hq Hnd.
  unfold run. rewrite fold_left_app. cbn [fold_left]. fold (run init evs).
  match goal with |- context [fold_left step evs' ?σ] => fold (run σ evs') end.
  apply stays_run; [done|].
  unfold step. rewrite Hc. split.
  - by apply on_up_registers.
  - apply on_up_unarmed; [by apply tracked_reachable | done].
Qed.

(** X23 at a device that came back before its removal timer fired. *)
Lemma X23_returned_device_stays_until_next_down_witness :
  registry_has "ipad-1"
    (deviceRegistry
       (run init
          (take 2 down_twice
           ++ BonjourUp (AgentSample.onsong "server" "ipad-1" ["192.168.1.20"])
           :: [TimerFires 0 600000; Start]))) = true.
Proof.
  apply (X23_returned_device_stays_until_next_down
           (take 2 down_twice) [TimerFires 0 600000; Start]
           (AgentSample.onsong "server" "ipad-1" ["192.168.1.20"])
           eq_refl eq_refl eq_refl eq_refl).
Defined.

End AgentMoreFacts.
